(** * Agent-OSS: identity and verification pipeline

    A shallow embedding of the TypeScript and SQL sources of the
    repository, followed by the properties of its specification.

    Part I, the model, one module per source file:
    - [Radix]      the positional digit loops shared by the codecs
    - [Buffer]     the platform base64 codec (Node's [Buffer])
    - [Keys]       packages/crypto/src/keys.ts    (url-safe base64)
    - [DidUtils]   packages/did/src/utils.ts      (base58, multibase, DID format)
    - [Resolve]    packages/did/src/resolve.ts    (well-known URL, resolution)
    - [JsNumber]   [toString] and [parseInt] of JavaScript on integers
    - [Crypto]     the signature and hash primitives, as an interface
    - [Request]    packages/crypto/src/request.ts (request signing, verification)
    - [Postgres]   supabase/migrations            (tables, the atomic credit function)
    - [Registry]   packages/registry/src          (verify.ts, credits.ts)
    - [DidBase64]  packages/did/src/utils.ts      (url-safe base64 of the did package)
    - [Generate]   packages/did/src/generate.ts   (DID generation)
    - [Document]   packages/did/src/document.ts   (DID documents, key extraction)
    - [CliUtils]   packages/cli/src/utils.ts      (display and format check)
    - [Schema]     supabase/migrations            (cleaning the signature cache)
    - [RegistryAdmin] packages/registry/src       (reads of credits and status,
                                                   suspension and revocation)

    Part II, the proofs: first the properties of the specification, in
    the order of the modules, then further properties of the code; the
    property of replays, which rests on the facts about the cleanup of
    the cache, closes the file.

    Conventions.  A JavaScript string is a [string] read as a sequence of
    code units below 256.  Upper-casing can leave that range (for the
    micro sign and for y with diaeresis), so [toUpperCase] and the
    canonical text built from it are lists of code units, a [list N].
    A [Uint8Array] is a [list byte], a [BigInt] an [N], an integral
    [number] a [Z] (exact on the safe integers, where times in
    milliseconds live).  A function that
    may [throw] returns a [Completion]; [Throw] carries the message of the
    [Error].  [Date.now()] is a parameter [now] of the functions that
    read the clock. *)

From Stdlib Require Import ZArith NArith Lia List String Ascii.
From Stdlib Require Import Init.Byte.
From stdpp Require Import gmap strings list.
Import ListNotations.

(* stdpp freezes [String.append] under [simpl]; the proofs unfold it. *)
Local Arguments String.append : simpl nomatch.

(** * Part I: the model *)

(** ** Completions: normal return or thrown [Error] *)

Inductive Completion (A : Type) : Type :=
| Return (value : A)
| Throw (message : string).
Arguments Return {A} value.
Arguments Throw {A} message.

Definition bind {A B} (c : Completion A) (k : A -> Completion B) : Completion B :=
  match c with
  | Return a => k a
  | Throw m => Throw m
  end.

Notation "'let*' x ':=' c 'in' k" := (bind c (fun x => k))
  (at level 10, x name, c at level 100, k at level 200).

(** ** Bytes and strings *)

(** Storing a number into a [Uint8Array] keeps it modulo 256. *)
Definition byte_of_N (n : N) : byte :=
  match Byte.of_N (n mod 256) with
  | Some b => b
  | None => x00
  end.

Fixpoint string_of_chars (cs : list ascii) : string :=
  match cs with
  | [] => ""
  | c :: cs' => String c (string_of_chars cs')
  end.

Fixpoint chars_of_string (s : string) : list ascii :=
  match s with
  | "" => []
  | String c s' => c :: chars_of_string s'
  end.

(** [s.startsWith(p)] *)
Fixpoint startsWith (p s : string) : bool :=
  match p, s with
  | "", _ => true
  | String a p', String b s' => if Ascii.eqb a b then startsWith p' s' else false
  | String _ _, "" => false
  end.

(** [s.substring(n)] and [s.slice(n)] for a literal [n >= 0] *)
Fixpoint drop_chars (n : nat) (s : string) : string :=
  match n, s with
  | O, _ => s
  | S n', String _ s' => drop_chars n' s'
  | S _, "" => ""
  end.

(** [s.replace(/a/g, b)] for single characters *)
Fixpoint replace_char (a b : ascii) (s : string) : string :=
  match s with
  | "" => ""
  | String c s' => String (if Ascii.eqb c a then b else c) (replace_char a b s')
  end.

(** [s.replace(/a/g, '')] *)
Fixpoint remove_char (a : ascii) (s : string) : string :=
  match s with
  | "" => ""
  | String c s' => if Ascii.eqb c a then remove_char a s' else String c (remove_char a s')
  end.

(** [s.split(sep)] for a one-character separator: never empty. *)
Fixpoint split (sep : ascii) (s : string) : list string :=
  match s with
  | "" => [""]
  | String c rest =>
      if Ascii.eqb c sep then "" :: split sep rest
      else match split sep rest with
           | first :: others => String c first :: others
           | [] => [String c ""]
           end
  end.

(** [parts.join(sep)] *)
Fixpoint join (sep : string) (parts : list string) : string :=
  match parts with
  | [] => ""
  | [p] => p
  | p :: rest => p +:+ sep +:+ join sep rest
  end.

Definition is_upper (c : ascii) : bool :=
  let n := N_of_ascii c in ((65 <=? n) && (n <=? 90))%N.
Definition is_lower (c : ascii) : bool :=
  let n := N_of_ascii c in ((97 <=? n) && (n <=? 122))%N.
Definition is_digit (c : ascii) : bool :=
  let n := N_of_ascii c in ((48 <=? n) && (n <=? 57))%N.

(** [c.toLowerCase()] for one code unit below 256: the letters A-Z move
    up by 32, and so do the code units from 192 to 222 (the letters from
    A with grave to thorn) but for the multiplication sign, 215. *)
Definition lower_char (c : ascii) : ascii :=
  let n := N_of_ascii c in
  if is_upper c || ((192 <=? n) && (n <=? 222) && negb (n =? 215))%N
  then ascii_of_N (n + 32)
  else c.

Fixpoint map_chars (f : ascii -> ascii) (s : string) : string :=
  match s with
  | "" => ""
  | String c s' => String (f c) (map_chars f s')
  end.

Definition toLowerCase : string -> string := map_chars lower_char.

(** The code units of a string, as [charCodeAt] gives them. *)
Fixpoint code_units (s : string) : list N :=
  match s with
  | "" => []
  | String c s' => N_of_ascii c :: code_units s'
  end.

(** [c.toUpperCase()] for one code unit below 256, as code units: the
    letters a-z move down by 32, and so do the code units from 224 to 254
    but for the division sign, 247; the sharp s, 223, becomes "SS"; the
    micro sign, 181, becomes U+039C and y with diaeresis, 255, U+0178. *)
Definition upper_units (c : ascii) : list N :=
  let n := N_of_ascii c in
  (if is_lower c then [n - 32]
   else if n =? 181 then [924]
   else if n =? 223 then [83; 83]
   else if n =? 255 then [376]
   else if (224 <=? n) && negb (n =? 247) then [n - 32]
   else [n])%N.

Fixpoint toUpperCase (s : string) : list N :=
  match s with
  | "" => []
  | String c s' => upper_units c ++ toUpperCase s'
  end.

(** [new TextEncoder().encode(s)]: UTF-8, one byte below 128 and two bytes
    for the code units from 128 to 255. *)
Fixpoint utf8_encode (s : string) : list byte :=
  match s with
  | "" => []
  | String c s' =>
      let n := N_of_ascii c in
      if (n <? 128)%N then byte_of_N n :: utf8_encode s'
      else byte_of_N (192 + n / 64) :: byte_of_N (128 + n mod 64) :: utf8_encode s'
  end.

(** The same encoder on a list of code units.  A high surrogate followed
    by a low one stands for a code point from 65536 on; a surrogate on
    its own is replaced by U+FFFD. *)
Definition is_high_surrogate (u : N) : bool := ((55296 <=? u) && (u <? 56320))%N.
Definition is_low_surrogate (u : N) : bool := ((56320 <=? u) && (u <? 57344))%N.

Definition utf8_of_code_point (p : N) : list byte :=
  (if p <? 128 then [byte_of_N p]
   else if p <? 2048 then [byte_of_N (192 + p / 64); byte_of_N (128 + p mod 64)]
   else if p <? 65536 then
     [byte_of_N (224 + p / 4096); byte_of_N (128 + p / 64 mod 64);
      byte_of_N (128 + p mod 64)]
   else
     [byte_of_N (240 + p / 262144); byte_of_N (128 + p / 4096 mod 64);
      byte_of_N (128 + p / 64 mod 64); byte_of_N (128 + p mod 64)])%N.

Fixpoint utf8_encode_units (units : list N) : list byte :=
  match units with
  | [] => []
  | u :: rest =>
      if is_high_surrogate u then
        match rest with
        | v :: rest' =>
            if is_low_surrogate v
            then utf8_of_code_point (65536 + (u - 55296) * 1024 + (v - 56320))
                   ++ utf8_encode_units rest'
            else utf8_of_code_point 65533 ++ utf8_encode_units rest
        | [] => utf8_of_code_point 65533
        end
      else if is_low_surrogate u then utf8_of_code_point 65533 ++ utf8_encode_units rest
      else utf8_of_code_point u ++ utf8_encode_units rest
  end.

(** ** Positional notation: the digit loops of the codecs *)

Module Radix.
Local Open Scope N_scope.

(** [while (num > 0n) { acc.unshift(num % base); num = num / base }].
    The loop stops by itself when [num] reaches 0; [fuel] bounds the
    number of rounds and is chosen by each caller so that it is never
    exhausted first (lemma [to_digits_fuel]). *)
Fixpoint to_digits (base : N) (fuel : nat) (num : N) (acc : list N) : list N :=
  match fuel with
  | O => acc
  | S fuel' =>
      if 0 <? num
      then to_digits base fuel' (num / base) (num mod base :: acc)
      else acc
  end.

(** [for (const d of ds) num = num * base + d] *)
Definition of_digits_from (base : N) (num : N) (ds : list N) : N :=
  fold_left (fun acc d => acc * base + d) ds num.

Definition of_digits (base : N) (ds : list N) : N := of_digits_from base 0 ds.

(** No leading zero digit. *)
Definition canonical (ds : list N) : Prop :=
  match ds with
  | [] => True
  | d :: _ => d <> 0
  end.
End Radix.

(** ** The platform codec: [Buffer.from(data).toString('base64')] and
       [Buffer.from(text, 'base64')] of Node.js *)

Module Buffer.
Local Open Scope N_scope.

Definition BASE64_ALPHABET : string :=
  "ABCDEFGHIJKLMNOPQRSTUVWXYZabcdefghijklmnopqrstuvwxyz0123456789+/".

Definition base64_char (v : N) : ascii :=
  match String.get (N.to_nat v) BASE64_ALPHABET with
  | Some c => c
  | None => "="%char
  end.

(** Three bytes give four characters; a last group of one or two bytes
    is padded with [=]. *)
Fixpoint toString_base64 (data : list byte) : string :=
  match data with
  | [] => ""
  | [a] =>
      let a := Byte.to_N a in
      string_of_chars
        [base64_char (a / 4); base64_char (a mod 4 * 16); "="%char; "="%char]
  | [a; b] =>
      let a := Byte.to_N a in
      let b := Byte.to_N b in
      string_of_chars
        [base64_char (a / 4); base64_char (a mod 4 * 16 + b / 16);
         base64_char (b mod 16 * 4); "="%char]
  | a :: b :: c :: rest =>
      let a := Byte.to_N a in
      let b := Byte.to_N b in
      let c := Byte.to_N c in
      String (base64_char (a / 4))
        (String (base64_char (a mod 4 * 16 + b / 16))
          (String (base64_char (b mod 16 * 4 + c / 64))
            (String (base64_char (c mod 64)) (toString_base64 rest))))
  end.

(** The decoder reads the standard and the url-safe alphabet alike. *)
Definition unbase64 (c : ascii) : option N :=
  let n := N_of_ascii c in
  if is_upper c then Some (n - 65)
  else if is_lower c then Some (n - 71)
  else if is_digit c then Some (n + 4)
  else if (n =? 43) || (n =? 45) then Some 62
  else if (n =? 47) || (n =? 95) then Some 63
  else None.

(** It skips the characters outside the alphabet and stops at the
    first [=]. *)
Fixpoint legal_values (text : string) : list N :=
  match text with
  | "" => []
  | String c rest =>
      if Ascii.eqb c "="%char then []
      else match unbase64 c with
           | Some v => v :: legal_values rest
           | None => legal_values rest
           end
  end.

Fixpoint decode_groups (vs : list N) : list byte :=
  match vs with
  | v1 :: v2 :: v3 :: v4 :: rest =>
      byte_of_N (v1 * 4 + v2 / 16)
        :: byte_of_N (v2 mod 16 * 16 + v3 / 4)
        :: byte_of_N (v3 mod 4 * 64 + v4)
        :: decode_groups rest
  | [v1; v2; v3] =>
      [byte_of_N (v1 * 4 + v2 / 16); byte_of_N (v2 mod 16 * 16 + v3 / 4)]
  | [v1; v2] => [byte_of_N (v1 * 4 + v2 / 16)]
  | _ => []
  end.

Definition from_base64 (text : string) : list byte :=
  decode_groups (legal_values text).
End Buffer.

(** ** packages/crypto/src/keys.ts (the same two functions close
       request.ts) *)

Module Keys.
(** Base64url encode (no padding) *)
Definition base64urlEncode (data : list byte) : string :=
  let base64 := Buffer.toString_base64 data in
  remove_char "=" (replace_char "/" "_" (replace_char "+" "-" base64)).

(** Base64url decode (handles missing padding) *)
Definition base64urlDecode (encoded : string) : list byte :=
  let base64 := replace_char "_" "/" (replace_char "-" "+" encoded) in
  let padding := (String.length base64 mod 4)%nat in
  let base64 :=
    if (padding =? 2)%nat then base64 +:+ "=="
    else if (padding =? 3)%nat then base64 +:+ "="
    else base64 in
  Buffer.from_base64 base64.
End Keys.
(** ** packages/did/src/utils.ts: base58 and the multibase key encoding *)

Module DidUtils.
Local Open Scope N_scope.

(** Base58 alphabet (Bitcoin/IPFS variant) *)
Definition BASE58_ALPHABET : string :=
  "123456789ABCDEFGHJKLMNPQRSTUVWXYZabcdefghijkmnopqrstuvwxyz".

(** [BASE58_ALPHABET[i]].  The index is always a remainder modulo 58, so
    the default of the out-of-range case is never produced. *)
Definition alphabet_at (i : N) : ascii :=
  match String.get (N.to_nat i) BASE58_ALPHABET with
  | Some c => c
  | None => "?"%char
  end.

(** [BASE58_ALPHABET.indexOf(char)]; [None] stands for -1. *)
Fixpoint index_from (c : ascii) (s : string) (i : N) : option N :=
  match s with
  | "" => None
  | String a s' => if Ascii.eqb a c then Some i else index_from c s' (i + 1)
  end.

Definition indexOf (c : ascii) : option N := index_from c BASE58_ALPHABET 0.

(** [for (const byte of bytes) num = num * 256n + BigInt(byte)] *)
Definition bytes_to_bigint (bytes : list byte) : N :=
  fold_left (fun num b => num * 256 + Byte.to_N b) bytes 0.

(** [while (num > 0n) { result = BASE58_ALPHABET[num % 58n] + result; num = num / 58n }] *)
Fixpoint encode_loop (fuel : nat) (num : N) (result : string) : string :=
  match fuel with
  | O => result
  | S fuel' =>
      if 0 <? num
      then encode_loop fuel' (num / 58) (String (alphabet_at (num mod 58)) result)
      else result
  end.

(** [for (const byte of bytes) { if (byte === 0) result = '1' + result; else break; }] *)
Fixpoint add_leading_ones (bytes : list byte) (result : string) : string :=
  match bytes with
  | b :: rest =>
      if Byte.eqb b x00 then add_leading_ones rest (String (alphabet_at 0) result)
      else result
  | [] => result
  end.

(** The loop divides a number below [256 ^ length] by 58 until it is 0:
    [8 * length] rounds are enough (lemma [encode_loop_fuel]). *)
Definition encodeBase58 (bytes : list byte) : string :=
  match bytes with
  | [] => ""
  | _ =>
      let num := bytes_to_bigint bytes in
      let result := encode_loop (8 * length bytes) num "" in
      add_leading_ones bytes result
  end.

(** [for (const char of str) { if (char === '1') leadingZeros++; else break; }] *)
Fixpoint count_leading_ones (str : string) : nat :=
  match str with
  | String c rest =>
      if Ascii.eqb c (alphabet_at 0) then S (count_leading_ones rest) else O
  | "" => O
  end.

Definition invalid_base58_character (c : ascii) : string :=
  "Invalid base58 character: " +:+ String c "".

(** [for (const char of str) { digit = indexOf(char); if (digit === -1) throw ...;
    num = num * 58n + BigInt(digit) }] *)
Fixpoint decode_loop (str : string) (num : N) : Completion N :=
  match str with
  | "" => Return num
  | String c rest =>
      match indexOf c with
      | None => Throw (invalid_base58_character c)
      | Some digit => decode_loop rest (num * 58 + digit)
      end
  end.

(** The byte loop is [Radix.to_digits 256]; the number is below
    [58 ^ length], so [6 * length] rounds are enough. *)
Definition decodeBase58 (str : string) : Completion (list byte) :=
  match str with
  | "" => Return []
  | _ =>
      let leadingZeros := count_leading_ones str in
      let* num := decode_loop str 0 in
      let bytes := Radix.to_digits 256 (6 * String.length str) num [] in
      let bytes := repeat 0 leadingZeros ++ bytes in
      Return (map byte_of_N bytes)
  end.

Definition byte_at_is (bytes : list byte) (i : nat) (b : byte) : bool :=
  match nth_error bytes i with
  | Some x => Byte.eqb x b
  | None => false
  end.

(** Ed25519 public key multicodec prefix: 0xed01 *)
Definition publicKeyToMultibase (publicKey : list byte) : string :=
  let prefixed := xed :: x01 :: publicKey in
  "z" +:+ encodeBase58 prefixed.

Definition invalid_multibase_format : string :=
  "Invalid multibase format: must start with z".
Definition invalid_multicodec_prefix : string :=
  "Invalid Ed25519 multicodec prefix".

Definition multibaseToPublicKey (multibase : string) : Completion (list byte) :=
  if negb (startsWith "z" multibase) then Throw invalid_multibase_format
  else
    let* decoded := decodeBase58 (drop_chars 1 multibase) in
    if (length decoded <? 34)%nat
       || negb (byte_at_is decoded 0 xed)
       || negb (byte_at_is decoded 1 x01)
    then Throw invalid_multicodec_prefix
    else Return (skipn 2 decoded).

(** [[a-z0-9]] *)
Definition method_char (c : ascii) : bool := is_lower c || is_digit c.

(** [[a-zA-Z0-9._:%-]] *)
Definition id_char (c : ascii) : bool :=
  is_lower c || is_upper c || is_digit c
  || Ascii.eqb c "."%char || Ascii.eqb c "_"%char || Ascii.eqb c ":"%char
  || Ascii.eqb c "%"%char || Ascii.eqb c "-"%char.

Fixpoint all_chars (p : ascii -> bool) (s : string) : bool :=
  match s with
  | "" => true
  | String c s' => p c && all_chars p s'
  end.

Definition is_empty (s : string) : bool :=
  match s with
  | "" => true
  | String _ _ => false
  end.

(** [[a-z0-9]+:[a-zA-Z0-9._:%-]+$] from the current position.  A method
    character is never a colon, so the method stops at the first colon;
    [seen] tells whether one method character has been read.  In
    JavaScript [$] without the [m] flag is the end of the input. *)
Fixpoint match_method (s : string) (seen : bool) : bool :=
  match s with
  | "" => false
  | String c rest =>
      if method_char c then match_method rest true
      else if Ascii.eqb c ":"%char
           then seen && negb (is_empty rest) && all_chars id_char rest
           else false
  end.

(** [/^did:[a-z0-9]+:[a-zA-Z0-9._:%-]+$/.test(did)] *)
Definition isValidDID (did : string) : bool :=
  startsWith "did:" did && match_method (drop_chars 4 did) false.

End DidUtils.

(** ** packages/did/src/resolve.ts *)

Module Resolve.

Definition only_did_web_supported : string := "Only did:web method is supported".

(** Convert a did:web identifier to a well-known URL *)
Definition getWellKnownUrl (did : string) : Completion string :=
  if negb (startsWith "did:web:" did) then Throw only_did_web_supported
  else
    (* Remove did:web: prefix *)
    let identifier := drop_chars 8 did in
    (* Split into parts *)
    let parts := split ":" identifier in
    let domain := hd "" parts in
    let pathParts := tl parts in
    match pathParts with
    | [] =>
        (* Root domain: use .well-known *)
        Return ("https://" +:+ domain +:+ "/.well-known/did.json")
    | _ =>
        (* Path: convert colons to slashes *)
        let path := join "/" pathParts in
        Return ("https://" +:+ domain +:+ "/" +:+ path +:+ "/did.json")
    end.

(** A parsed JSON value; the properties of an object have distinct
    names. *)
#[warnings="-register-all"]
Inductive Json : Type :=
| JNull
| JBool (b : bool)
| JNumber (literal : string)
| JString (s : string)
| JArray (items : list Json)
| JObject (properties : list (string * Json)).

(** What [fetch] resolves to: the status line, the headers, and the
    outcome of [response.json()], which throws on a body that is not
    valid JSON. *)
Record Response : Type := {
  status : Z;
  headers : list (string * string);
  json : Completion Json
}.

(** [response.ok]: the status is in the range 200-299. *)
Definition ok (response : Response) : bool :=
  ((200 <=? status response) && (status response <=? 299))%Z.

(** [response.headers.get(name)]: header names compare without case;
    [None] is [null]. *)
Fixpoint headers_get (hs : list (string * string)) (name : string) : option string :=
  match hs with
  | [] => None
  | (key, value) :: rest =>
      if String.eqb (toLowerCase key) (toLowerCase name) then Some value
      else headers_get rest name
  end.

(** [value || undefined] on a string or [null] *)
Definition or_undefined (value : option string) : option string :=
  match value with
  | Some "" => None
  | other => other
  end.

Fixpoint property (name : string) (properties : list (string * Json)) : option Json :=
  match properties with
  | [] => None
  | (key, value) :: rest =>
      if String.eqb key name then Some value else property name rest
  end.

(** [didDocument.id]: a [TypeError] on [null], [undefined] ([None]) on a
    value without that property. *)
Definition get_id (didDocument : Json) : Completion (option Json) :=
  match didDocument with
  | JNull => Throw "Cannot read properties of null (reading 'id')"
  | JObject properties => Return (property "id" properties)
  | _ => Return None
  end.

(** [id !== did] *)
Definition differs_from (id : option Json) (did : string) : bool :=
  match id with
  | Some (JString s) => negb (String.eqb s did)
  | _ => true
  end.

Record DIDResolutionMetadata : Type := {
  error : option string;
  contentType : option string
}.

Record DIDDocumentMetadata : Type := {
  updated : option string
}.

Record DIDResolutionResult : Type := {
  didDocument : option Json;
  didResolutionMetadata : DIDResolutionMetadata;
  didDocumentMetadata : DIDDocumentMetadata
}.

Definition failure (kind : string) : DIDResolutionResult :=
  {| didDocument := None;
     didResolutionMetadata := {| error := Some kind; contentType := None |};
     didDocumentMetadata := {| updated := None |} |}.

(** Resolve a DID to its DID document.  [fetch] is [globalThis.fetch]:
    it resolves to a response or rejects ([Throw]). *)
Definition resolveDID (fetch : string -> Completion Response) (did : string)
  : DIDResolutionResult :=
  (* Validate DID format *)
  if negb (DidUtils.isValidDID did) then failure "invalidDid"
  (* Only support did:web *)
  else if negb (startsWith "did:web:" did) then failure "methodNotSupported"
  else
    let attempt : Completion DIDResolutionResult :=
      let* url := getWellKnownUrl did in
      let* response := fetch url in
      if negb (ok response)
      then Return (failure (if (status response =? 404)%Z then "notFound" else "internalError"))
      else
        (* Parse DID document *)
        let* didDocument := json response in
        (* Verify DID matches *)
        let* id := get_id didDocument in
        if differs_from id did then Return (failure "invalidDidDocument")
        else
          (* Extract metadata from headers *)
          let contentType := or_undefined (headers_get (headers response) "content-type") in
          let lastModified := or_undefined (headers_get (headers response) "last-modified") in
          Return {| didDocument := Some didDocument;
                    didResolutionMetadata := {| error := None; contentType := contentType |};
                    didDocumentMetadata := {| updated := lastModified |} |}
    in
    match attempt with
    | Return result => result
    | Throw _ => failure "internalError"
    end.

End Resolve.

(** ** JavaScript numbers as text: [Number.prototype.toString] and
       [Number.parseInt] on integers *)

Module JsNumber.
Local Open Scope N_scope.

Definition digit_char (d : N) : ascii := ascii_of_N (48 + d).

(** The decimal digits of a positive integer, by the loop of [Radix];
    a number below [2 ^ (log2 n + 1)] needs no more rounds than that. *)
Definition N_to_string (n : N) : string :=
  if n =? 0 then "0"
  else string_of_chars
         (map digit_char (Radix.to_digits 10 (S (N.to_nat (N.log2 n))) n [])).

(** [n.toString()] for an integer [n] *)
Definition toString (n : Z) : string :=
  if (n <? 0)%Z then "-" +:+ N_to_string (Z.to_N (- n))
  else N_to_string (Z.to_N n).

(** White space that [parseInt] skips: TAB, LF, VT, FF, CR, SP, NBSP. *)
Definition is_white_space (c : ascii) : bool :=
  let n := N_of_ascii c in
  (n =? 9) || (n =? 10) || (n =? 11) || (n =? 12) || (n =? 13) || (n =? 32) || (n =? 160).

Fixpoint trim_start (s : string) : string :=
  match s with
  | String c rest => if is_white_space c then trim_start rest else s
  | "" => ""
  end.

Definition digit_value (c : ascii) : option N :=
  let n := N_of_ascii c in
  if is_digit c then Some (n - 48)
  else if is_lower c then Some (n - 87)
  else if is_upper c then Some (n - 55)
  else None.

(** The value of the longest prefix of radix-[R] digits; [acc] is [None]
    until a digit has been read. *)
Fixpoint parse_digits (R : N) (s : string) (acc : option N) : option N :=
  match s with
  | "" => acc
  | String c rest =>
      match digit_value c with
      | Some d =>
          if d <? R
          then parse_digits R rest (Some (match acc with
                                          | Some a => a * R + d
                                          | None => d
                                          end))
          else acc
      | None => acc
      end
  end.

(** An optional sign in front. *)
Definition strip_sign (input : string) : Z * string :=
  match input with
  | String "-" rest => ((-1)%Z, rest)
  | String "+" rest => (1%Z, rest)
  | _ => (1%Z, input)
  end.

(** [Number.parseInt(text, radix)]; radix 0 stands for an absent radix
    and [None] for [NaN]. *)
Definition parseInt (text : string) (radix : N) : option Z :=
  let '(sign, input) := strip_sign (trim_start text) in
  if negb (radix =? 0) && ((radix <? 2) || (36 <? radix)) then None
  else
    let stripPrefix := (radix =? 0) || (radix =? 16) in
    let R := if radix =? 0 then 10 else radix in
    let '(R, input) :=
      if stripPrefix && (startsWith "0x" input || startsWith "0X" input)
      then (16, drop_chars 2 input)
      else (R, input) in
    match parse_digits R input None with
    | None => None
    | Some n => Some (sign * Z.of_N n)%Z
    end.

End JsNumber.

(** ** packages/crypto/src/request.ts, with verify.ts *)

(** The signature primitive and the hash are external capabilities
    (@noble/ed25519 behind sign.ts and verify.ts, @noble/hashes). *)
Class Crypto : Type := {
  sha256 : list byte -> list byte;
  (** [signMessage(message, privateKey)] of sign.ts *)
  signMessage : list byte -> list byte -> Completion (list byte);
  (** [ed25519.verifyAsync(signature, message, publicKey)] *)
  ed25519_verifyAsync : list byte -> list byte -> list byte -> Completion bool
}.

Module Request.
Import Keys.

Definition DEFAULT_TOLERANCE_MS : Z := 5 * 60 * 1000. (* 5 minutes *)

Record SignableRequest : Type := {
  method : string;
  url : string;
  body : option string;
  timestamp : option Z
}.

Record SignedHeaders : Type := {
  X_Agent_Signature : string;
  X_Agent_DID : string;
  X_Agent_Timestamp : string
}.

(** The own properties of the object, in insertion order. *)
Definition entries (h : SignedHeaders) : list (string * string) :=
  [("X-Agent-Signature", X_Agent_Signature h);
   ("X-Agent-DID", X_Agent_DID h);
   ("X-Agent-Timestamp", X_Agent_Timestamp h)].

Record SignOptions : Type := {
  privateKey : list byte;
  did : string
}.

Record VerificationResult : Type := {
  valid : bool;
  error : option string;
  expiredTimestamp : option bool
}.

Definition newline : string := String (ascii_of_N 10) "".

Section WithCrypto.
Context `{Crypto}.

(** Create canonical string for signing.
    Format: ${method}\n${url}\n${timestamp}\n${bodyHash} *)
Definition createCanonicalString (now : Z) (request : SignableRequest) : list N :=
  let method := toUpperCase (method request) in
  let url := url request in
  let timestamp := match timestamp request with Some t => t | None => now end in
  (* Hash the body if present *)
  let bodyHash :=
    match body request with
    | Some body => base64urlEncode (sha256 (utf8_encode body))
    | None => ""
    end in
  method ++ code_units (newline +:+ url +:+ newline +:+ JsNumber.toString timestamp
                          +:+ newline +:+ bodyHash).

(** Sign an HTTP request; [now] is [Date.now()]. *)
Definition signRequest (now : Z) (request : SignableRequest) (options : SignOptions)
  : Completion SignedHeaders :=
  let timestamp := match timestamp request with Some t => t | None => now end in
  let canonical :=
    createCanonicalString now
      {| method := method request; url := url request; body := body request;
         timestamp := Some timestamp |} in
  let message := utf8_encode_units canonical in
  let* signature := signMessage message (privateKey options) in
  Return {| X_Agent_Signature := base64urlEncode signature;
            X_Agent_DID := did options;
            X_Agent_Timestamp := JsNumber.toString timestamp |}.

(** verify.ts: a verification that throws counts as a failed one. *)
Definition verifySignature (message signature publicKey : list byte) : bool :=
  match ed25519_verifyAsync signature message publicKey with
  | Return b => b
  | Throw _ => false
  end.

(** Get header value (case-insensitive) *)
Fixpoint getHeader (headers : list (string * string)) (name : string) : option string :=
  match headers with
  | [] => None
  | (key, value) :: rest =>
      if String.eqb (toLowerCase key) (toLowerCase name) then Some value
      else getHeader rest name
  end.

(** [!value] on a string or [undefined] *)
Definition missing (value : option string) : bool :=
  match value with
  | None | Some "" => true
  | Some _ => false
  end.

Definition or_default (value : option string) (default : string) : string :=
  match value with
  | Some v => v
  | None => default
  end.

(** Verify a signed HTTP request; [now] is [Date.now()].  Nothing in the
    body of the [try] throws: [verifySignature] has its own [catch]. *)
Definition verifyRequest (now : Z) (headers : list (string * string))
    (publicKey : list byte) (body : option string) (toleranceMs : Z)
  : VerificationResult :=
  (* Extract required headers (case-insensitive) *)
  let signature := getHeader headers "X-Agent-Signature" in
  let timestamp := getHeader headers "X-Agent-Timestamp" in
  if missing signature then
    {| valid := false; error := Some "Missing X-Agent-Signature header";
       expiredTimestamp := None |}
  else if missing timestamp then
    {| valid := false; error := Some "Missing X-Agent-Timestamp header";
       expiredTimestamp := None |}
  else
    (* Parse timestamp *)
    match JsNumber.parseInt (or_default timestamp "") 10 with
    | None =>
        {| valid := false; error := Some "Invalid timestamp format";
           expiredTimestamp := None |}
    | Some timestampNum =>
        (* Check timestamp tolerance *)
        let diff := Z.abs (now - timestampNum) in
        if (toleranceMs <? diff)%Z then
          {| valid := false; error := Some "Timestamp outside tolerance window";
             expiredTimestamp := Some true |}
        else
          (* Reconstruct the request for verification *)
          let method := or_default (getHeader headers "X-Agent-Method") "POST" in
          let url := or_default (getHeader headers "X-Agent-URL") "/" in
          let request :=
            {| method := method; url := url; body := body;
               timestamp := Some timestampNum |} in
          let canonical := createCanonicalString now request in
          let message := utf8_encode_units canonical in
          let signatureBytes := base64urlDecode (or_default signature "") in
          if negb (verifySignature message signatureBytes publicKey) then
            {| valid := false; error := Some "Invalid signature";
               expiredTimestamp := None |}
          else
            {| valid := true; error := None; expiredTimestamp := None |}
    end.

End WithCrypto.
End Request.

(** ** supabase/migrations: the tables and the atomic credit function *)

Module Postgres.
Local Open Scope Z_scope.

Inductive agent_status : Type := active | suspended | revoked.

Inductive credit_event_type : Type :=
| registration | pr_merged | pr_rejected
| test_failure | security_issue | manual_adjustment.

(** INTEGER is a 32-bit signed integer; arithmetic that leaves the range
    raises "integer out of range". *)
Definition INT_MIN : Z := -2147483648.
Definition INT_MAX : Z := 2147483647.

Definition in_integer (z : Z) : bool := (INT_MIN <=? z) && (z <=? INT_MAX).

Definition integer_add (a b : Z) : Completion Z :=
  if in_integer (a + b) then Return (a + b) else Throw "integer out of range".

Definition GREATEST (a b : Z) : Z := Z.max a b.

(** VARCHAR(500): storing a longer text raises, unless the characters
    beyond the limit are all spaces, which are cut off. *)
Fixpoint all_spaces (s : string) : bool :=
  match s with
  | "" => true
  | String c s' => Ascii.eqb c " " && all_spaces s'
  end.

Definition varchar_500 (value : string) : Completion string :=
  if (Z.of_nat (String.length value) <=? 500) then Return value
  else if all_spaces (drop_chars 500 value) then Return (substring 0 500 value)
  else Throw "value too long for type character varying(500)".

(** The same for a column that may be NULL. *)
Definition nullable_varchar_500 (value : option string) : Completion (option string) :=
  match value with
  | Some text => let* stored := varchar_500 text in Return (Some stored)
  | None => Return None
  end.

(** A row of [agents], without its [did]: the table is keyed by that
    column (UNIQUE NOT NULL).  TIMESTAMPTZ values are milliseconds since
    the epoch.  The columns trust_score, capabilities, metadata and
    did_document play no part here and are left out. *)
Record agents_row : Type := {
  id : string;
  public_key : string;
  name : string;
  description : option string;
  guardian_id : string;
  status : agent_status;
  credits : Z;
  created_at : Z;
  updated_at : Z;
  revoked_at : option Z;
  revocation_reason : option string
}.

(** A row of [signature_cache], without its primary key
    [signature_hash]. *)
Record signature_cache_row : Type := {
  agent_did : string;
  timestamp : Z;
  cached_at : Z
}.

Record credit_ledger : Type := {
  ledger_id : string;
  agent_id : string;
  event_type : credit_event_type;
  amount : Z;
  balance_after : Z;
  reason : string;
  pr_url : option string;
  ledger_created_at : Z
}.

(** The database: the three tables, and the clock behind [NOW()]. *)
Record Db : Type := {
  agents : gmap string agents_row;
  signature_cache : gmap string signature_cache_row;
  ledger : list credit_ledger;
  clock : Z
}.

(** [uuid_generate_v4()]: an identifier no row of the ledger has yet;
    the model numbers the rows. *)
Definition uuid_generate_v4 (db : Db) : string :=
  "ledger-" +:+ JsNumber.toString (Z.of_nat (length (ledger db))).

Definition set_credits (row : agents_row) (balance now : Z) : agents_row :=
  {| id := id row; public_key := public_key row; name := name row;
     description := description row; guardian_id := guardian_id row;
     status := status row;
     credits := balance;
     created_at := created_at row;
     updated_at := now; (* trigger agents_updated_at *)
     revoked_at := revoked_at row; revocation_reason := revocation_reason row |}.

(** [record_credit_event_atomic]: one transaction.  An exception leaves
    the database as it was, so only a normal return carries a new one.

    UPDATE agents SET credits = GREATEST(0, credits + p_amount)
      WHERE did = p_did RETURNING id, credits INTO v_agent_id, v_new_balance;
    IF NOT FOUND THEN RAISE EXCEPTION 'Agent not found: %', p_did; END IF;
    INSERT INTO credit_ledger (...) VALUES (...) RETURNING * INTO v_result;
    RETURN v_result;

    The parameters p_did and p_pr_url are VARCHAR without a limit; the
    column pr_url of [credit_ledger] is VARCHAR(500), so the INSERT is
    where a long URL is refused. *)
Definition record_credit_event_atomic (db : Db)
    (p_did : string) (p_type : credit_event_type) (p_amount : Z)
    (p_reason : string) (p_pr_url : option string)
  : Completion (credit_ledger * Db) :=
  match agents db !! p_did with
  | None => Throw ("Agent not found: " +:+ p_did)
  | Some row =>
      let* sum := integer_add (credits row) p_amount in
      let v_agent_id := id row in
      let v_new_balance := GREATEST 0 sum in
      let* stored_pr_url := nullable_varchar_500 p_pr_url in
      let v_result :=
        {| ledger_id := uuid_generate_v4 db;
           agent_id := v_agent_id;
           event_type := p_type;
           amount := p_amount;
           balance_after := v_new_balance;
           reason := p_reason;
           pr_url := stored_pr_url;
           ledger_created_at := clock db |} in
      Return
        (v_result,
         {| agents := <[p_did := set_credits row v_new_balance (clock db)]> (agents db);
            signature_cache := signature_cache db;
            ledger := ledger db ++ [v_result];
            clock := clock db |})
  end.

End Postgres.

(** ** packages/registry/src: types.ts, verify.ts, credits.ts *)

Module Registry.
Import Postgres.

(** *** The Supabase client *)

Record PostgrestError : Type := {
  error_code : string;
  error_message : string
}.

(** [PostgrestSingleResponse<T>]: [{ data: T, error: null }] or
    [{ data: null, error }]. *)
Inductive PostgrestResponse (A : Type) : Type :=
| Data (data : A)
| Failure (error : PostgrestError).
Arguments Data {A} data.
Arguments Failure {A} error.

(** Database row types (snake_case from Supabase) *)
Record AgentRow : Type := {
  row_id : string;
  row_did : string;
  row_public_key : string;
  row_name : string;
  row_description : option string;
  row_guardian_id : string;
  row_status : agent_status;
  row_credits : Z;
  row_created_at : Z;
  row_updated_at : Z;
  row_revoked_at : option Z;
  row_revocation_reason : option string
}.

Record SignatureCacheInsert : Type := {
  signature_hash : string;
  insert_agent_did : string;
  insert_timestamp : Z
}.

Record RecordCreditEventArgs : Type := {
  p_did : string;
  p_type : credit_event_type;
  p_amount : Z;
  p_reason : string;
  p_pr_url : option string
}.

(** The four requests the registry sends, over a client whose state is
    [S]: the two single-row selects, the insert into the cache, and the
    remote procedure call. *)
Class SupabaseClient (S : Type) : Type := {
  (** [from('agents').select('*').eq('did', did).single()] *)
  select_agent : string -> S -> PostgrestResponse AgentRow;
  (** [from('signature_cache').select('signature_hash')
        .eq('signature_hash', hash).single()] *)
  select_cached_signature : string -> S -> PostgrestResponse string;
  (** [from('signature_cache').insert(row)] *)
  insert_cached_signature : SignatureCacheInsert -> S -> PostgrestResponse unit * S;
  (** [rpc('record_credit_event_atomic', args)] *)
  rpc_record_credit_event_atomic :
    RecordCreditEventArgs -> S -> PostgrestResponse credit_ledger * S
}.

Definition no_rows : PostgrestError :=
  {| error_code := "PGRST116";
     error_message := "JSON object requested, multiple (or no) rows returned" |}.

Definition unique_violation : PostgrestError :=
  {| error_code := "23505";
     error_message := "duplicate key value violates unique constraint" |}.

Definition to_AgentRow (did : string) (row : agents_row) : AgentRow :=
  {| row_id := id row; row_did := did; row_public_key := public_key row;
     row_name := name row; row_description := description row;
     row_guardian_id := guardian_id row; row_status := status row;
     row_credits := credits row; row_created_at := created_at row;
     row_updated_at := updated_at row; row_revoked_at := revoked_at row;
     row_revocation_reason := revocation_reason row |}.

Definition cache_signature (row : SignatureCacheInsert) (db : Db) : Db :=
  {| agents := agents db;
     signature_cache :=
       <[signature_hash row :=
           {| agent_did := insert_agent_did row;
              timestamp := insert_timestamp row;
              cached_at := clock db |}]> (signature_cache db);
     ledger := ledger db;
     clock := clock db |}.

(** The client of a database with the schema of the migrations.  The
    primary key of [signature_cache] refuses a second row with the same
    hash; a value outside INTEGER never reaches the function. *)
#[global] Instance postgres_client : SupabaseClient Db := {|
  select_agent did db :=
    match agents db !! did with
    | Some row => Data (to_AgentRow did row)
    | None => Failure no_rows
    end;
  select_cached_signature hash db :=
    match signature_cache db !! hash with
    | Some _ => Data hash
    | None => Failure no_rows
    end;
  insert_cached_signature row db :=
    match signature_cache db !! signature_hash row with
    | Some _ => (Failure unique_violation, db)
    | None => (Data tt, cache_signature row db)
    end;
  rpc_record_credit_event_atomic args db :=
    if negb (in_integer (p_amount args))
    then (Failure {| error_code := "22003";
                     error_message := "value out of range for type integer" |}, db)
    else
      match record_credit_event_atomic db (p_did args) (p_type args)
              (p_amount args) (p_reason args) (p_pr_url args) with
      | Return (row, db') => (Data row, db')
      | Throw m => (Failure {| error_code := "P0001"; error_message := m |}, db)
      end
|}.

(** *** Requests in sequence, with a log of what was asked *)

Inductive Call : Type :=
| SelectAgent (did : string)
| SelectCachedSignature (hash : string)
| CallVerifyRequest (headers : list (string * string)) (publicKey : list byte)
    (body : string)
| InsertCachedSignature (row : SignatureCacheInsert)
| RecordCreditEvent (args : RecordCreditEventArgs).

Definition Async (S A : Type) : Type := S -> list Call -> A * S * list Call.

Definition resolve {S A} (a : A) : Async S A := fun s log => (a, s, log).

Definition await {S A B} (c : Async S A) (k : A -> Async S B) : Async S B :=
  fun s log => let '(a, s', log') := c s log in k a s' log'.

#[global] Instance async_ret {S} : MRet (Async S) := fun A a => resolve a.
#[global] Instance async_bind {S} : MBind (Async S) := fun A B k c => await c k.

Definition query {S A} (call : Call) (q : S -> A) : Async S A :=
  fun s log => (q s, s, log ++ [call]).

Definition command {S A} (call : Call) (q : S -> A * S) : Async S A :=
  fun s log => let '(a, s') := q s in (a, s', log ++ [call]).

(** *** types.ts *)

Record Agent : Type := {
  agent_id : string;
  did : string;
  publicKey : string;
  agent_name : string;
  agent_description : option string;
  guardianId : string;
  status : agent_status;
  credits : Z;
  createdAt : Z;
  updatedAt : Z;
  revokedAt : option Z;
  revocationReason : option string
}.

Record VerifyResult : Type := {
  valid : bool;
  agent : option Agent;
  error : option string
}.

Record CreditEvent : Type := {
  type : credit_event_type;
  amount : Z;
  reason : string;
  prUrl : option string
}.

Record CreditLedgerEntry : Type := {
  entry_id : string;
  agentId : string;
  entry_type : option credit_event_type;
  entry_amount : Z;
  balanceAfter : Z;
  entry_reason : string;
  entry_prUrl : option string;
  entry_createdAt : Z
}.

(** *** verify.ts *)

(** Convert database row to Agent interface *)
Definition rowToAgent (row : AgentRow) : Agent :=
  {| agent_id := row_id row;
     did := row_did row;
     publicKey := row_public_key row;
     agent_name := row_name row;
     agent_description := row_description row;
     guardianId := row_guardian_id row;
     status := row_status row;
     credits := row_credits row;
     createdAt := row_created_at row;
     updatedAt := row_updated_at row;
     revokedAt := row_revoked_at row;
     revocationReason := row_revocation_reason row |}.

Definition status_text (s : agent_status) : string :=
  match s with
  | active => "active"
  | suspended => "suspended"
  | revoked => "revoked"
  end.

Definition is_active (s : agent_status) : bool :=
  match s with
  | active => true
  | _ => false
  end.

Definition hex_digit (n : N) : ascii :=
  if (n <? 10)%N then ascii_of_N (48 + n) else ascii_of_N (87 + n).

(** [bytesToHex] of @noble/hashes: two lower-case digits per byte. *)
Fixpoint bytesToHex (bytes : list byte) : string :=
  match bytes with
  | [] => ""
  | b :: rest =>
      let n := Byte.to_N b in
      String (hex_digit (n / 16)) (String (hex_digit (n mod 16)) (bytesToHex rest))
  end.

(** [.] of a regular expression matches no line terminator. *)
Definition is_line_terminator (c : ascii) : bool :=
  let n := N_of_ascii c in ((n =? 10) || (n =? 13))%N.

(** [publicKey.match(/.{1,2}/g)]; the empty list stands for [null]. *)
Fixpoint hex_pairs (s : string) : list string :=
  match s with
  | "" => []
  | String a rest =>
      if is_line_terminator a then hex_pairs rest
      else
        match rest with
        | "" => [String a ""]
        | String b rest' =>
            if is_line_terminator b then String a "" :: hex_pairs rest'
            else String a (String b "") :: hex_pairs rest'
        end
  end.

(** [new Uint8Array(hexPairs.map((byte) => Number.parseInt(byte, 16)))]:
    [NaN] is stored as 0, any other number modulo 256. *)
Definition hex_to_bytes (pairs : list string) : list byte :=
  map (fun pair =>
         match JsNumber.parseInt pair 16 with
         | Some v => byte_of_N (Z.to_N (v mod 256))
         | None => x00
         end) pairs.

(** [new Date(value).toISOString()], read back by the TIMESTAMPTZ column:
    a [RangeError] unless the time value is a number within 8.64e15 ms
    of the epoch. *)
Definition toISOString (value : option Z) : Completion Z :=
  match value with
  | Some t =>
      if (Z.abs t <=? 8640000000000000)%Z then Return t
      else Throw "Invalid time value"
  | None => Throw "Invalid time value"
  end.

(** [text || fallback] *)
Definition or_else (text : option string) (fallback : string) : string :=
  match text with
  | None | Some "" => fallback
  | Some t => t
  end.

Section Operations.
Context `{Crypto} {S : Type} `{SupabaseClient S}.

(** Verify an agent's signature on a message.  [now] is what [Date.now()]
    answers inside [verifyRequest]. *)
Definition verifyAgentSignature (now : Z) (did signature message timestamp : string)
  : Async S VerifyResult :=
  (* Get the agent from registry *)
  response ← query (SelectAgent did) (select_agent did);
  match response with
  | Failure error =>
      if String.eqb (error_code error) "PGRST116"
      then resolve {| valid := false; agent := None;
                      error := Some ("Agent not found: " +:+ did) |}
      else resolve {| valid := false; agent := None;
                      error := Some ("Database error: " +:+ error_message error) |}
  | Data data =>
      let agent := rowToAgent data in
      (* Check agent status *)
      if negb (is_active (status agent))
      then resolve {| valid := false; agent := Some agent;
                      error := Some ("Agent is " +:+ status_text (status agent)) |}
      else
        (* Check for replay attack - hash the signature and check if it
           was already used *)
        let signatureHash := bytesToHex (sha256 (utf8_encode signature)) in
        cached ← query (SelectCachedSignature signatureHash)
                   (select_cached_signature signatureHash);
        match cached with
        | Data _ =>
            resolve {| valid := false; agent := Some agent;
                       error := Some "Signature already used (replay attack detected)" |}
        | Failure _ =>
            (* Verify the signature using crypto library *)
            (* Convert hex public key to Uint8Array *)
            match hex_pairs (publicKey agent) with
            | [] =>
                resolve {| valid := false; agent := Some agent;
                           error := Some "Invalid public key format" |}
            | hexPairs =>
                let publicKeyBytes := hex_to_bytes hexPairs in
                let headers :=
                  [("x-agent-signature", signature); ("x-agent-timestamp", timestamp)] in
                result ← query (CallVerifyRequest headers publicKeyBytes message)
                           (fun _ =>
                              Request.verifyRequest now headers publicKeyBytes
                                (Some message) Request.DEFAULT_TOLERANCE_MS);
                if negb (Request.valid result)
                then resolve {| valid := false; agent := Some agent;
                                error := Some (or_else (Request.error result)
                                                 "Signature verification failed") |}
                else
                  (* Cache the signature to prevent replay attacks *)
                  match toISOString (JsNumber.parseInt timestamp 0) with
                  | Throw err =>
                      resolve {| valid := false; agent := Some agent; error := Some err |}
                  | Return iso =>
                      let row := {| signature_hash := signatureHash;
                                    insert_agent_did := did;
                                    insert_timestamp := iso |} in
                      _ ← command (InsertCachedSignature row)
                            (insert_cached_signature row);
                      resolve {| valid := true; agent := Some agent; error := None |}
                  end
            end
        end
  end.

(** *** credits.ts *)

(** Convert database row to CreditLedgerEntry.  The row that the
    function returns names its column [event_type]; the property [type]
    that is read here is [undefined]. *)
Definition rowToLedgerEntry (row : credit_ledger) : CreditLedgerEntry :=
  {| entry_id := ledger_id row;
     agentId := Postgres.agent_id row;
     entry_type := None;
     entry_amount := Postgres.amount row;
     balanceAfter := balance_after row;
     entry_reason := Postgres.reason row;
     entry_prUrl := pr_url row;
     entry_createdAt := ledger_created_at row |}.

(** [event.prUrl || null] *)
Definition or_null (text : option string) : option string :=
  match text with
  | Some "" => None
  | other => other
  end.

(** Record a credit event (transaction with balance update).
    Uses atomic database function to prevent race conditions. *)
Definition recordCreditEvent (did : string) (event : CreditEvent)
  : Async S (Completion CreditLedgerEntry) :=
  let args := {| p_did := did; p_type := type event; p_amount := amount event;
                 p_reason := reason event; p_pr_url := or_null (prUrl event) |} in
  response ← command (RecordCreditEvent args) (rpc_record_credit_event_atomic args);
  match response with
  | Failure error =>
      resolve (Throw ("Failed to record credit event: " +:+ error_message error))
  | Data data => resolve (Return (rowToLedgerEntry data))
  end.

End Operations.
End Registry.

(** ** packages/did/src/utils.ts: the url-safe base64 helpers *)

Module DidBase64.

Fixpoint all_padding (s : string) : bool :=
  match s with
  | "" => true
  | String c rest => Ascii.eqb c "="%char && all_padding rest
  end.

(** [s.replace(/=+$/, '')]: the run of [=] that ends the text goes. *)
Fixpoint strip_padding (s : string) : string :=
  match s with
  | "" => ""
  | String c rest =>
      if Ascii.eqb c "="%char && all_padding rest then ""
      else String c (strip_padding rest)
  end.

(** ['='.repeat(n)] *)
Definition repeat_padding (n : nat) : string := string_of_chars (repeat "="%char n).

(** Decode base64url to Uint8Array, on Node.js ([Buffer] is defined). *)
Definition base64urlToBytes (base64url : string) : list byte :=
  (* Convert base64url to base64 *)
  let base64 := replace_char "_" "/" (replace_char "-" "+" base64url) in
  (* Add padding if needed *)
  let padding := (String.length base64 mod 4)%nat in
  let padded :=
    if (padding =? 0)%nat then base64
    else base64 +:+ repeat_padding (4 - padding) in
  Buffer.from_base64 padded.

(** Encode Uint8Array to base64url, on Node.js. *)
Definition bytesToBase64url (bytes : list byte) : string :=
  let base64 := Buffer.toString_base64 bytes in
  (* Convert to base64url *)
  strip_padding (replace_char "/" "_" (replace_char "+" "-" base64)).

End DidBase64.

(** ** packages/did/src/generate.ts *)

Module Generate.

(** [domain.replace(/^https?:\/\//, '')] *)
Definition strip_protocol (domain : string) : string :=
  if startsWith "https://" domain then drop_chars 8 domain
  else if startsWith "http://" domain then drop_chars 7 domain
  else domain.

(** [Boolean(s)] on a string *)
Definition non_empty (s : string) : bool :=
  match s with
  | "" => false
  | String _ _ => true
  end.

(** Generate a did:web identifier from domain and optional path *)
Definition generateDID (domain : string) (path : option string) : string :=
  (* Remove protocol if present *)
  let cleanDomain := strip_protocol domain in
  (* Build DID *)
  let did := "did:web:" +:+ cleanDomain in
  match path with
  | None | Some "" => did
  | Some path =>
      (* Convert path separators to colons *)
      let pathSegments := List.filter non_empty (split "/" path) in
      match pathSegments with
      | [] => did
      | _ => did +:+ ":" +:+ join ":" pathSegments
      end
  end.

End Generate.

(** ** packages/did/src/types.ts, document.ts, and [extractPublicKey] of
       utils.ts *)

Module Document.

Record ServiceEndpoint : Type := {
  service_id : string;
  service_type : string;
  serviceEndpoint : string
}.

Record DIDOptions : Type := {
  domain : string;
  path : option string;
  publicKey : string;
  options_controller : option string;
  serviceEndpoints : option (list ServiceEndpoint)
}.

Record VerificationMethod : Type := {
  vm_id : string;
  vm_type : string;
  vm_controller : string;
  publicKeyMultibase : string
}.

Record DIDDocument : Type := {
  context : list string;
  id : string;
  verificationMethod : list VerificationMethod;
  authentication : list string;
  assertionMethod : list string;
  controller : option string;
  service : option (list ServiceEndpoint)
}.

(** Create a DID document from options *)
Definition createDIDDocument (options : DIDOptions) : DIDDocument :=
  (* Generate DID *)
  let did := Generate.generateDID (domain options) (path options) in
  (* Convert public key from base64url to bytes *)
  let publicKeyBytes := DidBase64.base64urlToBytes (publicKey options) in
  (* Create verification method *)
  let verificationMethodId := did +:+ "#key-1" in
  let verificationMethod :=
    {| vm_id := verificationMethodId;
       vm_type := "Ed25519VerificationKey2020";
       vm_controller :=
         match options_controller options with
         | None | Some "" => did
         | Some controller => controller
         end;
       publicKeyMultibase := DidUtils.publicKeyToMultibase publicKeyBytes |} in
  (* Build DID document *)
  {| context := ["https://www.w3.org/ns/did/v1";
                 "https://w3id.org/security/suites/ed25519-2020/v1"];
     id := did;
     verificationMethod := [verificationMethod];
     authentication := [verificationMethodId];
     assertionMethod := [verificationMethodId];
     (* Add optional controller *)
     controller :=
       match options_controller options with
       | None | Some "" => None
       | Some controller => Some controller
       end;
     (* Add optional service endpoints *)
     service :=
       match serviceEndpoints options with
       | None | Some [] => None
       | Some endpoints => Some endpoints
       end |}.

(** Extract public key from DID document *)
Definition extractPublicKey (didDocument : DIDDocument) : Completion (list byte) :=
  match verificationMethod didDocument with
  | [] => Throw "No verification methods found in DID document"
  | verificationMethod :: _ =>
      DidUtils.multibaseToPublicKey (publicKeyMultibase verificationMethod)
  end.

End Document.

(** ** packages/cli/src/utils.ts *)

Module CliUtils.
Local Open Scope Z_scope.

(** A relative index of [String.prototype.slice]: from the end when
    negative, and kept within the text. *)
Definition slice_index (len k : Z) : Z :=
  if k <? 0 then Z.max (len + k) 0 else Z.min k len.

(** [s.slice(from, to)] *)
Definition slice (s : string) (from to : Z) : string :=
  let len := Z.of_nat (String.length s) in
  let first := slice_index len from in
  let last := slice_index len to in
  String.substring (Z.to_nat first) (Z.to_nat (last - first)) s.

(** [s.slice(from)] *)
Definition slice_from (s : string) (from : Z) : string :=
  slice s from (Z.of_nat (String.length s)).

(** Format DID for display (truncate middle if too long); [maxLength]
    is an integer, 60 when absent. *)
Definition formatDID (did : string) (maxLength : Z) : string :=
  if Z.of_nat (String.length did) <=? maxLength then did
  else
    let start := (maxLength - 3) / 2 in          (* Math.floor *)
    let end_ := (maxLength - 3 + 1) / 2 in       (* Math.ceil *)
    slice did 0 start +:+ "..." +:+ slice_from did (- end_).

(** [[a-zA-Z0-9._:-]] *)
Definition id_char (c : ascii) : bool :=
  is_lower c || is_upper c || is_digit c
  || Ascii.eqb c "."%char || Ascii.eqb c "_"%char || Ascii.eqb c ":"%char
  || Ascii.eqb c "-"%char.

(** [[a-z]+:[a-zA-Z0-9._:-]+$] from the current position; [seen] tells
    whether one letter of the method has been read. *)
Fixpoint match_method (s : string) (seen : bool) : bool :=
  match s with
  | "" => false
  | String c rest =>
      if is_lower c then match_method rest true
      else if Ascii.eqb c ":"%char
           then seen && negb (DidUtils.is_empty rest) && DidUtils.all_chars id_char rest
           else false
  end.

(** Validate DID format: [/^did:[a-z]+:[a-zA-Z0-9._:-]+$/.test(did)] *)
Definition isValidDIDFormat (did : string) : bool :=
  startsWith "did:" did && match_method (drop_chars 4 did) false.

End CliUtils.

(** ** supabase/migrations/00001_initial_schema.sql: the function that
       cleans the signature cache *)

Module Schema.
Import Postgres.
Local Open Scope Z_scope.

(** INTERVAL '1 hour', in milliseconds *)
Definition ONE_HOUR : Z := 3600000.

(** [created_at < NOW() - INTERVAL '1 hour'] *)
Definition stale (db : Db) (row : signature_cache_row) : bool :=
  cached_at row <? clock db - ONE_HOUR.

(** DELETE FROM signature_cache WHERE created_at < NOW() - INTERVAL '1 hour';
    GET DIAGNOSTICS deleted_count = ROW_COUNT; RETURN deleted_count; *)
Definition cleanup_signature_cache (db : Db) : Z * Db :=
  let kept := filter (fun entry => stale db entry.2 = false) (signature_cache db) in
  (Z.of_nat (size (signature_cache db)) - Z.of_nat (size kept),
   {| agents := agents db;
      signature_cache := kept;
      ledger := ledger db;
      clock := clock db |}).

End Schema.

(** ** packages/registry/src: the reads of credits.ts and verify.ts, and
       the status changes of agents.ts *)

Module RegistryAdmin.
Import Postgres Registry.

(** [.update(values)] of agents.ts: the columns that [suspendAgent] and
    [revokeAgent] write. *)
Record AgentUpdate : Type := {
  update_status : agent_status;
  update_revoked_at : option Z;
  update_revocation_reason : string
}.

(** [from('agents').update(values).eq('did', did).select().single()] *)
Class AgentsTable (S : Type) : Type := {
  update_agent : string -> AgentUpdate -> S -> PostgrestResponse AgentRow * S
}.

Definition apply_update (values : AgentUpdate) (row : agents_row) (now : Z) : agents_row :=
  {| id := id row; public_key := public_key row; name := name row;
     description := description row; guardian_id := guardian_id row;
     Postgres.status := update_status values;
     Postgres.credits := Postgres.credits row;
     created_at := created_at row;
     updated_at := now; (* trigger agents_updated_at *)
     revoked_at :=
       match update_revoked_at values with
       | Some t => Some t
       | None => revoked_at row
       end;
     revocation_reason := Some (update_revocation_reason values) |}.

(** With no row for the DID nothing is updated and [single()] reports
    that it found no row. *)
#[global] Instance postgres_agents : AgentsTable Db := {|
  update_agent did values db :=
    match agents db !! did with
    | None => (Failure no_rows, db)
    | Some row =>
        let row' := apply_update values row (clock db) in
        (Data (to_AgentRow did row'),
         {| agents := <[did := row']> (agents db);
            signature_cache := signature_cache db;
            ledger := ledger db;
            clock := clock db |})
    end
|}.

Section Operations.
Context {S : Type} `{SupabaseClient S} `{AgentsTable S}.

(** [from('agents').select(columns).eq('did', did).single()]: the
    request of [select_agent], narrowed to some columns. *)
Definition select_agent_columns {A : Type} (columns : AgentRow -> A) (did : string)
    (s : S) : PostgrestResponse A :=
  match select_agent did s with
  | Data row => Data (columns row)
  | Failure error => Failure error
  end.

(** credits.ts: get current credit balance for an agent *)
Definition getCredits (did : string) (s : S) : Completion Z :=
  match select_agent_columns row_credits did s with
  | Failure error =>
      if String.eqb (error_code error) "PGRST116"
      then Throw ("Agent not found: " +:+ did)
      else Throw ("Failed to get credits: " +:+ error_message error)
  | Data credits => Return credits
  end.

(** verify.ts: check agent status and credits; [None] is [null]. *)
Definition checkAgentStatus (did : string) (s : S)
  : Completion (option (agent_status * Z)) :=
  match select_agent_columns (fun row => (row_status row, row_credits row)) did s with
  | Failure error =>
      if String.eqb (error_code error) "PGRST116" then Return None
      else Throw ("Failed to check agent status: " +:+ error_message error)
  | Data data => Return (Some data)
  end.

(** agents.ts: get agent by DID *)
Definition getAgent (did : string) (s : S) : Completion (option Agent) :=
  match select_agent did s with
  | Failure error =>
      if String.eqb (error_code error) "PGRST116" then Return None
      else Throw ("Failed to get agent: " +:+ error_message error)
  | Data data => Return (Some (rowToAgent data))
  end.

(** agents.ts: suspend an agent *)
Definition suspendAgent (did reason : string) (s : S) : Completion Agent * S :=
  let '(response, s') :=
    update_agent did
      {| update_status := suspended;
         update_revoked_at := None;
         update_revocation_reason := reason |} s in
  match response with
  | Failure error => (Throw ("Failed to suspend agent: " +:+ error_message error), s')
  | Data data => (Return (rowToAgent data), s')
  end.

(** agents.ts: revoke an agent; [now] is [new Date()]. *)
Definition revokeAgent (now : Z) (did reason : string) (s : S) : Completion Agent * S :=
  let '(response, s') :=
    update_agent did
      {| update_status := revoked;
         update_revoked_at := Some now;
         update_revocation_reason := reason |} s in
  match response with
  | Failure error => (Throw ("Failed to revoke agent: " +:+ error_message error), s')
  | Data data => (Return (rowToAgent data), s')
  end.

End Operations.
End RegistryAdmin.

(** ** Auxiliary notions used to state and prove the properties *)

(** No leading zero byte. *)
Definition no_leading_zero (bytes : list byte) : Prop :=
  match bytes with
  | [] => True
  | b :: _ => b <> x00
  end.

(** The first character of a string outside the base58 alphabet. *)
Fixpoint first_invalid_base58 (str : string) : option ascii :=
  match str with
  | "" => None
  | String c rest =>
      match DidUtils.indexOf c with
      | None => Some c
      | Some _ => first_invalid_base58 rest
      end
  end.

(** The last [n] elements of a list. *)
Definition trailing {A : Type} (n : nat) (l : list A) : list A :=
  skipn (length l - n) l.

(** A multibase string that carries 33 bytes after the Ed25519 tag. *)
Definition multibase_of_33_bytes : string :=
  "zQebecCe6nywSeLgfPTzVJxypBboVUWpcqU8EfVEazmiRAhs6".

(** The six-bit values of the groups of [Buffer.toString_base64]. *)
Fixpoint sextets (data : list byte) : list N :=
  match data with
  | [] => []
  | [a] => let a := Byte.to_N a in [a / 4; a mod 4 * 16]%N
  | [a; b] =>
      let a := Byte.to_N a in
      let b := Byte.to_N b in
      [a / 4; a mod 4 * 16 + b / 16; b mod 16 * 4]%N
  | a :: b :: c :: rest =>
      let a := Byte.to_N a in
      let b := Byte.to_N b in
      let c := Byte.to_N c in
      (a / 4 :: (a mod 4 * 16 + b / 16) :: (b mod 16 * 4 + c / 64) :: c mod 64
         :: sextets rest)%N
  end.

Definition padding_of (data : list byte) : string :=
  match (length data mod 3)%nat with
  | 1%nat => "=="
  | 2%nat => "="
  | _ => ""
  end.

(** The url-safe spelling of a six-bit value. *)
Definition url_char (v : N) : ascii :=
  let c := Buffer.base64_char v in
  let c := if Ascii.eqb c "+"%char then "-"%char else c in
  if Ascii.eqb c "/"%char then "_"%char else c.

(** [c] occurs in [s]. *)
Fixpoint occurs (c : ascii) (s : string) : bool :=
  match s with
  | "" => false
  | String a s' => Ascii.eqb a c || occurs c s'
  end.

(** The language of [/^did:[a-z0-9]+:[a-zA-Z0-9._:%-]+$/]: the method and
    the method-specific identifier of a well-formed DID. *)
Definition did_parts (did method identifier : string) : Prop :=
  did = "did:" +:+ method +:+ ":" +:+ identifier
  /\ method <> "" /\ DidUtils.all_chars DidUtils.method_char method = true
  /\ identifier <> "" /\ DidUtils.all_chars DidUtils.id_char identifier = true.

(** A response with status 200 whose body is not JSON. *)
Definition not_json_response : Resolve.Response :=
  {| Resolve.status := 200;
     Resolve.headers := [("content-type", "text/html")];
     Resolve.json := Throw "Unexpected token < in JSON at position 0" |}.

(** [sk] and [pk] form a key pair of the signature scheme: every
    message gets a 64-byte signature that verifies under [pk]. *)
Definition key_pair_ok `{Crypto} (sk pk : list byte) : Prop :=
  forall message,
    exists signature,
      signMessage message sk = Return signature
      /\ length signature = 64%nat
      /\ ed25519_verifyAsync signature message pk = Return true.

(** The verifier is handed the signed headers of [request], and the
    method and URL it reads (from the sidecar headers, or their
    defaults) are those of [request]. *)
Definition presents (headers : list (string * string))
    (signed : Request.SignedHeaders) (request : Request.SignableRequest) : Prop :=
  Request.getHeader headers "X-Agent-Signature" = Some (Request.X_Agent_Signature signed)
  /\ Request.getHeader headers "X-Agent-Timestamp" = Some (Request.X_Agent_Timestamp signed)
  /\ toUpperCase (Request.or_default (Request.getHeader headers "X-Agent-Method") "POST")
     = toUpperCase (Request.method request)
  /\ Request.or_default (Request.getHeader headers "X-Agent-URL") "/" = Request.url request.

(** After leading white space and an optional sign comes a decimal
    digit: what [Number.parseInt(text, 10)] needs to return a number. *)
Definition starts_with_integer (text : string) : bool :=
  match snd (JsNumber.strip_sign (JsNumber.trim_start text)) with
  | String c _ => is_digit c
  | "" => false
  end.

(** A toy signature scheme, to run the model on concrete inputs: the
    "signature" is the first 64 bytes of the key followed by the message
    and zeros. *)
Definition toy_tag (message key : list byte) : list byte :=
  firstn 64 (key ++ message ++ repeat x00 64).

Fixpoint bytes_eqb (a b : list byte) : bool :=
  match a, b with
  | [], [] => true
  | x :: a', y :: b' => Byte.eqb x y && bytes_eqb a' b'
  | _, _ => false
  end.

Definition toy_crypto : Crypto :=
  {| sha256 := fun message => firstn 32 (message ++ repeat x00 32);
     signMessage := fun message key => Return (toy_tag message key);
     ed25519_verifyAsync := fun signature message key =>
       Return (bytes_eqb signature (toy_tag message key)) |}.

Definition verified : Request.VerificationResult :=
  {| Request.valid := true; Request.error := None; Request.expiredTimestamp := None |}.

Definition expired : Request.VerificationResult :=
  {| Request.valid := false;
     Request.error := Some "Timestamp outside tolerance window";
     Request.expiredTimestamp := Some true |}.

Definition invalid_timestamp_format : Request.VerificationResult :=
  {| Request.valid := false;
     Request.error := Some "Invalid timestamp format";
     Request.expiredTimestamp := None |}.

(** The request of the test suite and its sidecar headers. *)
Definition sample_request : Request.SignableRequest :=
  {| Request.method := "post";
     Request.url := "/api/agents";
     Request.body := Some "{}";
     Request.timestamp := Some 1704067200000%Z |}.

Definition sample_key : list byte := repeat x07 32.

Definition with_sidecars (signed : Request.SignedHeaders)
    (request : Request.SignableRequest) : list (string * string) :=
  Request.entries signed
    ++ [("X-Agent-Method", Request.method request); ("X-Agent-URL", Request.url request)].

(** The key of a signature in the replay cache. *)
Definition signature_hash_of `{Crypto} (signature : string) : string :=
  Registry.bytesToHex (sha256 (utf8_encode signature)).


Definition set_clock (db : Postgres.Db) (now : Z) : Postgres.Db :=
  {| Postgres.agents := Postgres.agents db;
     Postgres.signature_cache := Postgres.signature_cache db;
     Postgres.ledger := Postgres.ledger db;
     Postgres.clock := now |}.

(** The database after any number of further verifications and credit
    events, while time passes. *)
Inductive evolves `{Crypto} : Postgres.Db -> Postgres.Db -> Prop :=
| evolves_refl (db : Postgres.Db) : evolves db db
| evolves_verify (db db1 : Postgres.Db) (now : Z)
    (did signature message timestamp : string) (log : list Registry.Call) :
    evolves db db1 ->
    evolves db
      (Registry.verifyAgentSignature now did signature message timestamp db1 log).1.2
| evolves_credit (db db1 : Postgres.Db) (did : string) (event : Registry.CreditEvent)
    (log : list Registry.Call) :
    evolves db db1 ->
    evolves db (Registry.recordCreditEvent did event db1 log).1.2
| evolves_clock (db db1 : Postgres.Db) (now : Z) :
    evolves db db1 -> evolves db (set_clock db1 now).

(** A registry with one active agent, whose key is [sample_key] in
    hexadecimal, and one suspended agent. *)
Definition sample_agent (status : Postgres.agent_status) (credits : Z)
  : Postgres.agents_row :=
  {| Postgres.id := "agent-uuid";
     Postgres.public_key := "0707070707070707070707070707070707070707070707070707070707070707";
     Postgres.name := "Test Agent";
     Postgres.description := None;
     Postgres.guardian_id := "guardian-uuid";
     Postgres.status := status;
     Postgres.credits := credits;
     Postgres.created_at := 1704067200000;
     Postgres.updated_at := 1704067200000;
     Postgres.revoked_at := None;
     Postgres.revocation_reason := None |}.

Definition sample_db (credits : Z) : Postgres.Db :=
  {| Postgres.agents :=
       <["did:web:example.com:agents:suspended" := sample_agent Postgres.suspended 0]>
         (<["did:web:example.com" := sample_agent Postgres.active credits]> ∅);
     Postgres.signature_cache := ∅;
     Postgres.ledger := [];
     Postgres.clock := 1704067200000 |}.

Definition sample_message : string := "{}".

(** What [verifyAgentSignature] reconstructs: method POST, URL "/". *)
Definition sample_post : Request.SignableRequest :=
  {| Request.method := "POST";
     Request.url := "/";
     Request.body := Some sample_message;
     Request.timestamp := Some 1704067200000%Z |}.

Definition sample_signature : string :=
  match @Request.signRequest toy_crypto 0 sample_post
          {| Request.privateKey := sample_key; Request.did := "did:web:example.com" |} with
  | Return signed => Request.X_Agent_Signature signed
  | Throw _ => ""
  end.

Definition credit (amount : Z) : Registry.CreditEvent :=
  {| Registry.type := Postgres.manual_adjustment;
     Registry.amount := amount;
     Registry.reason := "adjustment";
     Registry.prUrl := None |}.

Definition balance_of (db : Postgres.Db) (did : string) : option Z :=
  Postgres.credits <$> Postgres.agents db !! did.

(** No balance in the table is negative (CHECK credits >= 0). *)
Definition balances_non_negative (db : Postgres.Db) : Prop :=
  forall did row, Postgres.agents db !! did = Some row -> (0 <= Postgres.credits row)%Z.

(** [n] credit events of +1 for one identity, one after the other. *)
Fixpoint credit_run (n : nat) (did : string) (db : Postgres.Db) : Postgres.Db :=
  match n with
  | O => db
  | S n' => credit_run n' did (Registry.recordCreditEvent did (credit 1) db []).1.2
  end.

(** ** Auxiliary notions for the further properties *)

(** The segments that [generateDID] keeps of a path: the non-empty
    pieces between slashes. *)
Definition path_segments (path : option string) : list string :=
  match path with
  | None => []
  | Some path => List.filter Generate.non_empty (split "/" path)
  end.

(** The path of the well-known URL for a list of segments. *)
Definition well_known_path (segments : list string) : string :=
  match segments with
  | [] => "/.well-known/did.json"
  | _ => "/" +:+ join "/" segments +:+ "/did.json"
  end.

(** The request that [verifyRequest] reconstructs from the headers, for
    a timestamp that reads [t]. *)
Definition reconstructed (headers : list (string * string)) (body : option string)
    (t : Z) : Request.SignableRequest :=
  {| Request.method := Request.or_default (Request.getHeader headers "X-Agent-Method") "POST";
     Request.url := Request.or_default (Request.getHeader headers "X-Agent-URL") "/";
     Request.body := body;
     Request.timestamp := Some t |}.

(** The timestamp and the body hash that go into the canonical text. *)
Definition signed_timestamp (now : Z) (request : Request.SignableRequest) : Z :=
  match Request.timestamp request with
  | Some t => t
  | None => now
  end.

Definition body_hash `{Crypto} (request : Request.SignableRequest) : string :=
  match Request.body request with
  | Some body => Keys.base64urlEncode (sha256 (utf8_encode body))
  | None => ""
  end.

(** The entries of a header object under other names. *)
Definition rename_keys (rename : string -> string) (headers : list (string * string))
  : list (string * string) :=
  map (fun entry => (rename entry.1, entry.2)) headers.

(** A header name with its letters a-z in upper case. *)
Definition capitals : string -> string :=
  map_chars (fun c => if is_lower c then ascii_of_N (N_of_ascii c - 32) else c).

Definition line_feed : ascii := ascii_of_N 10.

(** The code unit [u] occurs in the text. *)
Definition has_unit (u : N) (text : list N) : bool := existsb (N.eqb u) text.

(** The headers that carry [sample_signature], under lower-case names
    as the registry writes them, and under the names of [signRequest]. *)
Definition sample_headers : list (string * string) :=
  [("x-agent-signature", sample_signature); ("x-agent-timestamp", "1704067200000")].

Definition sample_signed_headers : list (string * string) :=
  [("X-Agent-Signature", sample_signature); ("X-Agent-Timestamp", "1704067200000")].

(** A web server that holds one DID document, at the well-known URL of
    its domain. *)
Definition sample_document : Resolve.Json :=
  Resolve.JObject [("id", Resolve.JString "did:web:example.com")].

Definition sample_fetch (url : string) : Completion Resolve.Response :=
  if String.eqb url "https://example.com/.well-known/did.json"
  then Return {| Resolve.status := 200;
                 Resolve.headers := [("content-type", "application/json")];
                 Resolve.json := Return sample_document |}
  else Throw "Network error".

(** The request whose canonical text [verifyAgentSignature] checks: the
    headers it builds name neither method nor URL. *)
Definition registry_request (message : string) (t : Z) : Request.SignableRequest :=
  {| Request.method := "POST";
     Request.url := "/";
     Request.body := Some message;
     Request.timestamp := Some t |}.

(** The sample registry after one valid verification of
    [sample_signature]. *)
Definition sample_verified_db : Postgres.Db :=
  (@Registry.verifyAgentSignature toy_crypto _ _ 1704067200000 "did:web:example.com"
     sample_signature sample_message "1704067200000" (sample_db 100) []).1.2.

(** The latest ledger row of an agent. *)
Definition last_entry_of (agent : string) (ledger : list Postgres.credit_ledger)
  : option Postgres.credit_ledger :=
  last (List.filter (fun entry => String.eqb (Postgres.agent_id entry) agent) ledger).

(** The ledger agrees with the balances: the latest row of an agent, if
    there is one, records the balance that the agent has. *)
Definition ledger_consistent (db : Postgres.Db) : Prop :=
  forall did row entry,
    Postgres.agents db !! did = Some row ->
    last_entry_of (Postgres.id row) (Postgres.ledger db) = Some entry ->
    Postgres.balance_after entry = Postgres.credits row.

(** No two agents have the same [id] (PRIMARY KEY). *)
Definition ids_distinct (db : Postgres.Db) : Prop :=
  forall did did' row row',
    Postgres.agents db !! did = Some row ->
    Postgres.agents db !! did' = Some row' ->
    Postgres.id row = Postgres.id row' -> did = did'.

(** The database after any number of the operations modelled:
    verifications, credit events, suspensions, revocations, cleanups of
    the cache, and the passing of time. *)
Inductive operates `{Crypto} : Postgres.Db -> Postgres.Db -> Prop :=
| operates_refl (db : Postgres.Db) : operates db db
| operates_verify (db db1 : Postgres.Db) (now : Z)
    (did signature message timestamp : string) (log : list Registry.Call) :
    operates db db1 ->
    operates db
      (Registry.verifyAgentSignature now did signature message timestamp db1 log).1.2
| operates_credit (db db1 : Postgres.Db) (did : string) (event : Registry.CreditEvent)
    (log : list Registry.Call) :
    operates db db1 ->
    operates db (Registry.recordCreditEvent did event db1 log).1.2
| operates_suspend (db db1 : Postgres.Db) (did reason : string) :
    operates db db1 -> operates db (RegistryAdmin.suspendAgent did reason db1).2
| operates_revoke (db db1 : Postgres.Db) (now : Z) (did reason : string) :
    operates db db1 -> operates db (RegistryAdmin.revokeAgent now did reason db1).2
| operates_cleanup (db db1 : Postgres.Db) :
    operates db db1 -> operates db (Schema.cleanup_signature_cache db1).2
| operates_clock (db db1 : Postgres.Db) (now : Z) :
    operates db db1 -> operates db (set_clock db1 now).





(** The three properties of the books, together. *)
Definition books_in_order (db : Postgres.Db) : Prop :=
  ids_distinct db /\ ledger_consistent db /\ balances_non_negative db.

(** A registry with one active agent. *)
Definition single_agent_db (credits : Z) : Postgres.Db :=
  {| Postgres.agents := {["did:web:example.com" := sample_agent Postgres.active credits]};
     Postgres.signature_cache := ∅;
     Postgres.ledger := [];
     Postgres.clock := 1704067200000 |}.

(** No character of the text ends a line. *)
Definition one_line (s : string) : bool :=
  DidUtils.all_chars (fun c => negb (Registry.is_line_terminator c)) s.

(** A request as an agent signs it for the registry, with the clock for
    timestamp. *)
Definition registry_post (message : string) : Request.SignableRequest :=
  {| Request.method := "POST";
     Request.url := "/";
     Request.body := Some message;
     Request.timestamp := None |}.

(** A registry whose one agent has [sample_key] in hexadecimal, and the
    request that this agent signs at the time of the database clock. *)
Definition sample_signed : Request.SignedHeaders :=
  match @Request.signRequest toy_crypto 1704067200000 (registry_post sample_message)
          {| Request.privateKey := sample_key; Request.did := "did:web:example.com" |} with
  | Return signed => signed
  | Throw _ => {| Request.X_Agent_Signature := ""; Request.X_Agent_DID := "";
                  Request.X_Agent_Timestamp := "" |}
  end.

(** * Part II: the proofs *)

Ltac divlia := zify; Z.to_euclidean_division_equations; lia.
Ltac divnia := zify; Z.to_euclidean_division_equations; nia.

(** ** Bytes *)

Lemma byte_of_to_N (b : byte) : byte_of_N (Byte.to_N b) = b.
Proof.
  unfold byte_of_N. pose proof (Byte.to_N_bounded b) as Hb.
  rewrite N.mod_small by lia. now rewrite Byte.of_to_N.
Qed.

Lemma to_byte_of_N (n : N) : (n < 256)%N -> Byte.to_N (byte_of_N n) = n.
Proof.
  intros Hn. unfold byte_of_N. rewrite N.mod_small by lia.
  destruct (Byte.of_N n) as [b|] eqn:E.
  - now apply Byte.to_of_N.
  - apply Byte.of_N_None_iff in E. lia.
Qed.

Lemma to_N_lt_256 (b : byte) : (Byte.to_N b < 256)%N.
Proof. pose proof (Byte.to_N_bounded b). lia. Qed.

Lemma byte_of_to_N_zero : byte_of_N 0 = x00.
Proof. reflexivity. Qed.

Lemma to_N_inj (a b : byte) : Byte.to_N a = Byte.to_N b -> a = b.
Proof.
  intros H. rewrite <- (byte_of_to_N a), <- (byte_of_to_N b). now rewrite H.
Qed.

(** ** Strings *)



Lemma string_of_chars_app (xs ys : list ascii) :
  string_of_chars (xs ++ ys) = string_of_chars xs +:+ string_of_chars ys.
Proof. induction xs as [|x xs IH]; simpl; [reflexivity | now rewrite IH]. Qed.

Lemma chars_of_string_of_chars (cs : list ascii) :
  chars_of_string (string_of_chars cs) = cs.
Proof. induction cs as [|c cs IH]; simpl; [reflexivity | now rewrite IH]. Qed.

Lemma string_of_chars_of_string (s : string) :
  string_of_chars (chars_of_string s) = s.
Proof. induction s as [|c s IH]; simpl; [reflexivity | now rewrite IH]. Qed.

Lemma string_app_nil_r (s : string) : s +:+ "" = s.
Proof. induction s as [|c s IH]; simpl; [reflexivity | now rewrite IH]. Qed.

Lemma string_app_assoc (a b c : string) : (a +:+ b) +:+ c = a +:+ (b +:+ c).
Proof. induction a as [|x a IH]; simpl; [reflexivity | now rewrite IH]. Qed.

Lemma string_length_app (a b : string) :
  String.length (a +:+ b) = (String.length a + String.length b)%nat.
Proof. induction a as [|x a IH]; simpl; [reflexivity | now rewrite IH]. Qed.

Lemma startsWith_app (p s : string) : startsWith p (p +:+ s) = true.
Proof. induction p as [|a p IH]; simpl; [reflexivity|]. now rewrite Ascii.eqb_refl. Qed.

Lemma startsWith_inv (p s : string) :
  startsWith p s = true -> exists r, s = p +:+ r.
Proof.
  revert s. induction p as [|a p IH]; intros s H; simpl in *.
  - now exists s.
  - destruct s as [|b s]; [discriminate|].
    destruct (Ascii.eqb a b) eqn:E; [|discriminate].
    apply Ascii.eqb_eq in E. subst b.
    destruct (IH _ H) as [r ->]. now exists r.
Qed.

Lemma drop_chars_app (p s : string) : drop_chars (String.length p) (p +:+ s) = s.
Proof. induction p as [|a p IH]; simpl; [reflexivity | exact IH]. Qed.

(** ** Positional notation *)

Section RadixFacts.
Variable base : N.
Hypothesis base_ge_2 : (2 <= base)%N.

Local Open Scope N_scope.

Local Abbreviation to_digits := (Radix.to_digits base).
Local Abbreviation of_digits := (Radix.of_digits base).
Local Abbreviation of_digits_from := (Radix.of_digits_from base).
Local Abbreviation canonical := Radix.canonical.


Lemma of_digits_from_app (n : N) (xs ys : list N) :
  of_digits_from n (xs ++ ys) = of_digits_from (of_digits_from n xs) ys.
Proof. unfold of_digits_from. apply fold_left_app. Qed.

Lemma of_digits_snoc (xs : list N) (d : N) :
  of_digits (xs ++ [d]) = of_digits xs * base + d.
Proof. unfold of_digits. now rewrite of_digits_from_app. Qed.

Lemma to_digits_acc (fuel : nat) :
  forall num acc, to_digits fuel num acc = to_digits fuel num [] ++ acc.
Proof.
  induction fuel as [|fuel IH]; intros num acc; simpl; [reflexivity|].
  destruct (0 <? num); [|reflexivity].
  rewrite (IH _ (_ :: acc)), (IH _ [_]). now rewrite <- app_assoc.
Qed.

Lemma to_digits_zero (fuel : nat) (acc : list N) : to_digits fuel 0 acc = acc.
Proof. destruct fuel; reflexivity. Qed.

Lemma to_digits_pos (fuel : nat) (num : N) :
  0 < num ->
  to_digits (S fuel) num [] = to_digits fuel (num / base) [] ++ [num mod base].
Proof.
  intros Hpos. simpl. apply N.ltb_lt in Hpos. rewrite Hpos.
  apply to_digits_acc.
Qed.

Lemma div_base_lt (num P : N) : num < 2 * P -> num / base < P.
Proof.
  intros H. apply N.le_lt_trans with (num / 2).
  - apply N.div_le_compat_l. lia.
  - apply N.Div0.div_lt_upper_bound. exact H.
Qed.

Lemma div_base_exact (q d : N) : d < base -> (q * base + d) / base = q.
Proof.
  intros Hd. rewrite N.div_add_l by lia. rewrite N.div_small by exact Hd. lia.
Qed.

Lemma mod_base_exact (q d : N) : d < base -> (q * base + d) mod base = d.
Proof.
  intros Hd. rewrite N.add_comm, N.Div0.mod_add. now apply N.mod_small.
Qed.

(** The loop has stopped on its own once [num < 2 ^ fuel]: more fuel
    changes nothing. *)
Lemma to_digits_fuel (fuel : nat) :
  forall num extra acc,
    num < 2 ^ N.of_nat fuel ->
    to_digits (fuel + extra) num acc = to_digits fuel num acc.
Proof.
  induction fuel as [|fuel IH]; intros num extra acc Hlt.
  - simpl in Hlt. assert (num = 0) as -> by lia. simpl. apply to_digits_zero.
  - simpl. destruct (0 <? num) eqn:E; [|reflexivity].
    apply N.ltb_lt in E. apply IH.
    rewrite Nat2N.inj_succ, N.pow_succ_r' in Hlt. now apply div_base_lt.
Qed.

Lemma of_to_digits (fuel : nat) :
  forall num, num < 2 ^ N.of_nat fuel -> of_digits (to_digits fuel num []) = num.
Proof.
  induction fuel as [|fuel IH]; intros num Hlt.
  - simpl in Hlt. assert (num = 0) as -> by lia. reflexivity.
  - destruct (N.eq_dec num 0) as [->|Hne]; [reflexivity|].
    rewrite to_digits_pos by lia. rewrite of_digits_snoc.
    rewrite Nat2N.inj_succ, N.pow_succ_r' in Hlt.
    rewrite IH by now apply div_base_lt.
    rewrite N.mul_comm. symmetry. apply N.div_mod. lia.
Qed.

Lemma of_digits_from_mono (ds : list N) :
  forall n, n <= of_digits_from n ds.
Proof.
  unfold of_digits_from.
  induction ds as [|d ds IH]; intros n; simpl; [lia|].
  specialize (IH (n * base + d)). nia.
Qed.

Lemma of_digits_canonical_pos (ds : list N) :
  ds <> [] -> canonical ds -> 0 < of_digits ds.
Proof.
  destruct ds as [|d ds]; [congruence|]. intros _ Hd. simpl in Hd.
  change (of_digits (d :: ds)) with (of_digits_from d ds).
  pose proof (of_digits_from_mono ds d) as H. lia.
Qed.

Lemma canonical_app_l (xs ys : list N) : xs <> [] -> canonical (xs ++ ys) -> canonical xs.
Proof. destruct xs; [congruence | simpl; auto]. Qed.

Lemma to_of_digits (ds : list N) :
  forall fuel,
    Forall (fun d => d < base) ds -> canonical ds ->
    of_digits ds < 2 ^ N.of_nat fuel ->
    to_digits fuel (of_digits ds) [] = ds.
Proof.
  induction ds as [|d ds IH] using rev_ind; intros fuel Hall Hcan Hlt.
  - apply to_digits_zero.
  - apply Forall_app in Hall as [Hds Hd]. inversion Hd as [|? ? Hdlt _]; subst.
    rewrite of_digits_snoc in *.
    assert (Hpos : 0 < of_digits ds * base + d).
    { destruct ds as [|d0 ds0].
      - simpl in Hcan. unfold of_digits, of_digits_from; simpl. lia.
      - assert (0 < of_digits (d0 :: ds0)).
        { apply of_digits_canonical_pos; [congruence|].
          eapply canonical_app_l; [congruence | exact Hcan]. }
        nia. }
    destruct fuel as [|fuel]; [simpl in Hlt; lia|].
    rewrite to_digits_pos by exact Hpos.
    rewrite div_base_exact, mod_base_exact by exact Hdlt. f_equal.
    rewrite Nat2N.inj_succ, N.pow_succ_r' in Hlt.
    destruct ds as [|d0 ds0]; [apply to_digits_zero|].
    apply IH; [exact Hds | eapply canonical_app_l; [congruence | exact Hcan] | nia].
Qed.

Lemma to_digits_lt (fuel : nat) :
  forall num acc,
    Forall (fun d => d < base) acc ->
    Forall (fun d => d < base) (to_digits fuel num acc).
Proof.
  induction fuel as [|fuel IH]; intros num acc Hacc; simpl; [exact Hacc|].
  destruct (0 <? num); [|exact Hacc].
  apply IH. constructor; [|exact Hacc]. apply N.mod_lt. lia.
Qed.

Lemma to_digits_canonical (fuel : nat) :
  forall num, num < 2 ^ N.of_nat fuel -> canonical (to_digits fuel num []).
Proof.
  induction fuel as [|fuel IH]; intros num Hlt; [exact I|].
  destruct (N.eq_dec num 0) as [->|Hne]; [exact I|].
  rewrite to_digits_pos by lia.
  rewrite Nat2N.inj_succ, N.pow_succ_r' in Hlt.
  pose proof (div_base_lt _ _ Hlt) as Hq.
  destruct (N.eq_dec (num / base) 0) as [Hz|Hnz].
  - rewrite Hz, to_digits_zero. simpl.
    rewrite N.mod_small; [exact Hne|].
    apply N.div_small_iff in Hz; lia.
  - specialize (IH _ Hq).
    destruct fuel as [|fuel'];
      [change (2 ^ N.of_nat 0) with 1 in Hq; apply N.lt_1_r in Hq; congruence|].
    assert (Hpos : 0 < num / base) by now apply N.neq_0_lt_0.
    rewrite (to_digits_pos fuel' _ Hpos) in IH |- *.
    destruct (to_digits fuel' (num / base / base) []); exact IH.
Qed.

Lemma of_digits_bound (ds : list N) :
  Forall (fun d => d < base) ds -> of_digits ds < base ^ N.of_nat (length ds).
Proof.
  induction ds as [|d ds IH] using rev_ind; intros Hall.
  - reflexivity.
  - apply Forall_app in Hall as [Hds Hd]. inversion Hd as [|? ? Hdlt _]; subst.
    rewrite of_digits_snoc, length_app. simpl length.
    rewrite Nat.add_1_r, Nat2N.inj_succ, N.pow_succ_r'.
    specialize (IH Hds). nia.
Qed.

Lemma of_digits_leading_zeros (k : nat) (ds : list N) :
  of_digits (repeat 0 k ++ ds) = of_digits ds.
Proof.
  unfold of_digits. rewrite of_digits_from_app. f_equal.
  induction k as [|k IH]; [reflexivity|]. simpl.
  unfold of_digits_from in *. simpl. exact IH.
Qed.
End RadixFacts.


(** ** Base58 (packages/did/src/utils.ts) *)

Section Base58Facts.
Import DidUtils.
Local Open Scope N_scope.

Lemma string_of_chars_length (cs : list ascii) :
  String.length (string_of_chars cs) = length cs.
Proof. induction cs as [|c cs IH]; simpl; [reflexivity | now rewrite IH]. Qed.

Lemma indexOf_alphabet_at (d : N) : d < 58 -> indexOf (alphabet_at d) = Some d.
Proof.
  intros Hd.
  assert (H : forall n : nat, (n < 58)%nat ->
                indexOf (alphabet_at (N.of_nat n)) = Some (N.of_nat n)).
  { intros n Hn. do 58 (destruct n as [|n]; [reflexivity|]). lia. }
  rewrite <- (N2Nat.id d). apply H. lia.
Qed.

Lemma alphabet_at_inj (a b : N) :
  a < 58 -> b < 58 -> alphabet_at a = alphabet_at b -> a = b.
Proof.
  intros Ha Hb E. apply indexOf_alphabet_at in Ha, Hb.
  rewrite E in Ha. congruence.
Qed.

Lemma index_from_range (c : ascii) (s : string) :
  forall i d, index_from c s i = Some d -> i <= d < i + N.of_nat (String.length s).
Proof.
  induction s as [|a s IH]; intros i d H; simpl in H; [discriminate|].
  cbn [String.length]. rewrite Nat2N.inj_succ.
  destruct (Ascii.eqb a c).
  - injection H as <-. lia.
  - apply IH in H. lia.
Qed.

Lemma indexOf_lt (c : ascii) (d : N) : indexOf c = Some d -> d < 58.
Proof. intros H. apply index_from_range in H. simpl in H. lia. Qed.

Lemma bytes_to_bigint_digits (bytes : list byte) :
  bytes_to_bigint bytes = Radix.of_digits 256 (map Byte.to_N bytes).
Proof.
  unfold bytes_to_bigint, Radix.of_digits, Radix.of_digits_from.
  generalize 0. induction bytes as [|b bytes IH]; intros n; simpl; [reflexivity|].
  apply IH.
Qed.

Lemma encode_loop_digits (fuel : nat) :
  forall num result,
    encode_loop fuel num result =
    string_of_chars (map alphabet_at (Radix.to_digits 58 fuel num [])) +:+ result.
Proof.
  induction fuel as [|fuel IH]; intros num result; [reflexivity|].
  destruct (N.eq_dec num 0) as [->|Hne]; [reflexivity|].
  assert (Hpos : 0 < num) by lia.
  rewrite (to_digits_pos 58 fuel num Hpos).
  simpl. apply N.ltb_lt in Hpos. rewrite Hpos. rewrite IH.
  rewrite map_app, string_of_chars_app, string_app_assoc. reflexivity.
Qed.

Lemma Forall_to_N_lt (bytes : list byte) :
  Forall (fun d => d < 256) (map Byte.to_N bytes).
Proof.
  induction bytes as [|b bytes IH]; simpl; constructor; [apply to_N_lt_256 | exact IH].
Qed.

Lemma Forall_repeat_zero (bound : N) (k : nat) :
  0 < bound -> Forall (fun d => d < bound) (repeat 0 k).
Proof. intros Hb. induction k as [|k IH]; simpl; constructor; assumption. Qed.

(** [8 * length bytes] rounds never stop the encoding loop early. *)
Lemma bytes_to_bigint_bound (bytes : list byte) :
  bytes_to_bigint bytes < 2 ^ N.of_nat (8 * length bytes).
Proof.
  rewrite bytes_to_bigint_digits.
  eapply N.lt_le_trans.
  - apply of_digits_bound; [lia | apply Forall_to_N_lt].
  - rewrite length_map, Nat2N.inj_mul, N.pow_mul_r. reflexivity.
Qed.

Lemma encode_loop_fuel (bytes : list byte) (extra : nat) (result : string) :
  encode_loop (8 * length bytes + extra) (bytes_to_bigint bytes) result =
  encode_loop (8 * length bytes) (bytes_to_bigint bytes) result.
Proof.
  rewrite !encode_loop_digits. do 3 f_equal.
  apply to_digits_fuel; [lia | apply bytes_to_bigint_bound].
Qed.

Lemma decode_loop_digits (ds : list N) :
  forall num,
    Forall (fun d => d < 58) ds ->
    decode_loop (string_of_chars (map alphabet_at ds)) num =
    Return (Radix.of_digits_from 58 num ds).
Proof.
  induction ds as [|d ds IH]; intros num Hall; [reflexivity|].
  inversion Hall as [|? ? Hd Hds]; subst. simpl.
  rewrite (indexOf_alphabet_at d Hd). apply IH, Hds.
Qed.

(** What [decode_loop] returns, and when it throws. *)
Lemma decode_loop_return (str : string) :
  forall num n,
    decode_loop str num = Return n ->
    exists ds, Forall (fun d => d < 58) ds /\
               length ds = String.length str /\
               n = Radix.of_digits_from 58 num ds.
Proof.
  induction str as [|c str IH]; intros num n H; simpl in H.
  - injection H as <-. exists []. repeat split. constructor.
  - destruct (indexOf c) as [d|] eqn:E; [|discriminate].
    destruct (IH _ _ H) as (ds & Hall & Hlen & ->).
    exists (d :: ds). repeat split.
    + constructor; [eapply indexOf_lt, E | exact Hall].
    + simpl. now rewrite Hlen.
Qed.

Lemma byte_eqb_eq (a b : byte) : Byte.eqb a b = true <-> a = b.
Proof. split; [apply Byte.byte_dec_bl | apply Byte.byte_dec_lb]. Qed.

Lemma split_leading_zeros (bytes : list byte) :
  exists k rest, bytes = repeat x00 k ++ rest /\ no_leading_zero rest.
Proof.
  induction bytes as [|b bytes (k & rest & -> & Hrest)].
  - exists O, []. split; [reflexivity | exact I].
  - destruct (Byte.eqb b x00) eqn:E.
    + apply byte_eqb_eq in E as ->. exists (S k), rest. split; [reflexivity | exact Hrest].
    + exists O, (b :: repeat x00 k ++ rest). split; [reflexivity|].
      simpl. intros ->. simpl in E. discriminate.
Qed.

Lemma add_leading_ones_spec (k : nat) (rest : list byte) :
  forall result,
    no_leading_zero rest ->
    add_leading_ones (repeat x00 k ++ rest) result =
    string_of_chars (repeat (alphabet_at 0) k) +:+ result.
Proof.
  induction k as [|k IH]; intros result Hrest.
  - simpl. destruct rest as [|b rest]; [reflexivity|].
    simpl in *. destruct (Byte.eqb b x00) eqn:E; [|reflexivity].
    apply byte_eqb_eq in E. contradiction.
  - cbn [repeat app add_leading_ones]. replace (Byte.eqb x00 x00) with true by reflexivity.
    rewrite IH by exact Hrest.
    clear. induction k as [|k IH]; [reflexivity|]. simpl in *. now rewrite IH.
Qed.

Lemma count_leading_ones_spec (k : nat) (ds : list N) :
  Forall (fun d => d < 58) ds -> Radix.canonical ds ->
  count_leading_ones
    (string_of_chars (repeat (alphabet_at 0) k) +:+ string_of_chars (map alphabet_at ds)) = k.
Proof.
  intros Hall Hcan. induction k as [|k IH].
  - simpl. destruct ds as [|d ds]; [reflexivity|]. simpl in *.
    inversion Hall as [|? ? Hd _]; subst.
    destruct (Ascii.eqb (alphabet_at d) (alphabet_at 0)) eqn:E; [|reflexivity].
    apply Ascii.eqb_eq in E. apply alphabet_at_inj in E; [contradiction | exact Hd | lia].
  - cbn [repeat string_of_chars String.append count_leading_ones].
    rewrite Ascii.eqb_refl. now rewrite IH.
Qed.

Lemma map_byte_of_to_N (bytes : list byte) : map byte_of_N (map Byte.to_N bytes) = bytes.
Proof.
  induction bytes as [|b bytes IH]; simpl; [reflexivity|].
  now rewrite byte_of_to_N, IH.
Qed.

Lemma canonical_to_N (rest : list byte) :
  no_leading_zero rest -> Radix.canonical (map Byte.to_N rest).
Proof.
  destruct rest as [|b rest]; [trivial|]. simpl. intros Hb Hz. apply Hb.
  apply to_N_inj. exact Hz.
Qed.

Lemma base58_digits_bound (ds : list N) :
  Forall (fun d => d < 58) ds ->
  Radix.of_digits 58 ds < 2 ^ N.of_nat (6 * length ds).
Proof.
  intros Hall. eapply N.lt_le_trans; [apply of_digits_bound; [lia | exact Hall]|].
  rewrite Nat2N.inj_mul, N.pow_mul_r.
  apply N.pow_le_mono_l. simpl. lia.
Qed.

Lemma encodeBase58_nonempty (bytes : list byte) :
  bytes <> [] ->
  encodeBase58 bytes =
  add_leading_ones bytes (encode_loop (8 * length bytes) (bytes_to_bigint bytes) "").
Proof. destruct bytes; [congruence | reflexivity]. Qed.

Lemma decodeBase58_nonempty (str : string) :
  str <> "" ->
  decodeBase58 str =
  let* num := decode_loop str 0 in
  Return (map byte_of_N
            (repeat 0 (count_leading_ones str)
               ++ Radix.to_digits 256 (6 * String.length str) num [])).
Proof. destruct str; [congruence | reflexivity]. Qed.

(** Decoding inverts encoding on every byte string; leading zero bytes
    come back as they were. *)
Lemma base58_roundtrip (bytes : list byte) :
  decodeBase58 (encodeBase58 bytes) = Return bytes.
Proof.
  destruct (split_leading_zeros bytes) as (k & rest & Hsplit & Hrest).
  destruct bytes as [|b0 bytes0]; [reflexivity|].
  remember (b0 :: bytes0) as bytes eqn:Hbytes.
  assert (Hne : bytes <> []) by (subst; discriminate).
  set (num := bytes_to_bigint bytes).
  set (ds := Radix.to_digits 58 (8 * length bytes) num []).
  assert (Hnum : num = Radix.of_digits 256 (map Byte.to_N rest)).
  { unfold num. rewrite bytes_to_bigint_digits, Hsplit, map_app, map_repeat.
    change (Byte.to_N x00) with 0. apply of_digits_leading_zeros. }
  assert (Hbound : num < 2 ^ N.of_nat (8 * length bytes)) by apply bytes_to_bigint_bound.
  assert (Hds_lt : Forall (fun d => d < 58) ds).
  { apply to_digits_lt; [lia | constructor]. }
  assert (Hds_can : Radix.canonical ds) by (apply to_digits_canonical; [lia | exact Hbound]).
  assert (Hds_num : Radix.of_digits 58 ds = num) by (apply of_to_digits; [lia | exact Hbound]).
  assert (Henc : encodeBase58 bytes =
                 string_of_chars (repeat (alphabet_at 0) k)
                   +:+ string_of_chars (map alphabet_at ds)).
  { rewrite (encodeBase58_nonempty bytes Hne).
    fold num. rewrite encode_loop_digits. fold ds. rewrite string_app_nil_r.
    rewrite Hsplit at 1. apply add_leading_ones_spec, Hrest. }
  assert (Hstr : encodeBase58 bytes =
                 string_of_chars (map alphabet_at (repeat 0 k ++ ds))).
  { rewrite Henc, map_app, string_of_chars_app, map_repeat. reflexivity. }
  assert (Hlen : String.length (encodeBase58 bytes) = (k + length ds)%nat).
  { rewrite Hstr, string_of_chars_length, length_map, length_app, repeat_length.
    reflexivity. }
  assert (Hnonempty : encodeBase58 bytes <> "").
  { intros Eenc. rewrite Eenc in Hlen. simpl in Hlen.
    assert (k = O) by lia.
    assert (Hnil : ds = []) by (destruct ds; [reflexivity | simpl in Hlen; lia]).
    subst k. simpl in Hsplit. subst rest.
    assert (Hz : num = 0) by (rewrite <- Hds_num, Hnil; reflexivity).
    rewrite Hnum in Hz.
    pose proof (of_digits_canonical_pos 256 ltac:(lia) (map Byte.to_N bytes)) as Hpos.
    rewrite Hz in Hpos. apply (N.lt_irrefl 0), Hpos.
    - rewrite Hbytes. discriminate.
    - apply canonical_to_N, Hrest. }
  rewrite (decodeBase58_nonempty _ Hnonempty).
  rewrite Hlen.
  replace (count_leading_ones (encodeBase58 bytes)) with k
    by (rewrite Henc; symmetry; apply (count_leading_ones_spec k ds Hds_lt Hds_can)).
  rewrite Hstr. rewrite decode_loop_digits.
  2:{ apply Forall_app. split; [apply Forall_repeat_zero; lia | exact Hds_lt]. }
  cbn [bind]. fold (Radix.of_digits 58 (repeat 0 k ++ ds)).
  rewrite of_digits_leading_zeros, Hds_num. f_equal.
  rewrite Hnum.
  rewrite (to_of_digits 256 ltac:(lia) (map Byte.to_N rest)).
  - rewrite map_app, map_repeat, map_byte_of_to_N.
    rewrite byte_of_to_N_zero. now rewrite Hsplit.
  - apply Forall_to_N_lt.
  - apply canonical_to_N, Hrest.
  - rewrite <- Hnum, <- Hds_num.
    eapply N.lt_le_trans; [apply base58_digits_bound, Hds_lt|].
    apply N.pow_le_mono_r; [lia|]. lia.
Qed.

(** [6 * length str] rounds never stop the byte loop of the decoder
    early, whatever the text. *)
Lemma decodeBase58_fuel (str : string) (num : N) (extra : nat) :
  decode_loop str 0 = Return num ->
  Radix.to_digits 256 (6 * String.length str + extra) num []
  = Radix.to_digits 256 (6 * String.length str) num [].
Proof.
  intros Hdec. apply decode_loop_return in Hdec as (ds & Hall & Hlen & ->).
  apply to_digits_fuel; [lia|]. rewrite <- Hlen.
  apply (base58_digits_bound ds Hall).
Qed.

End Base58Facts.

(** ** Base64 ([Buffer]) and url-safe base64 (keys.ts) *)

Section Base64Facts.
Import Buffer Keys.
Local Open Scope N_scope.

Lemma list_ind3 {A : Type} (P : list A -> Prop) :
  P [] ->
  (forall a, P [a]) ->
  (forall a b, P [a; b]) ->
  (forall a b c l, P l -> P (a :: b :: c :: l)) ->
  forall l, P l.
Proof.
  intros H0 H1 H2 H3.
  fix IH 1. intros [|a [|b [|c l]]]; [exact H0 | apply H1 | apply H2 |].
  apply H3, IH.
Qed.

Lemma padding_of_step (a b c : byte) (rest : list byte) :
  padding_of (a :: b :: c :: rest) = padding_of rest.
Proof.
  unfold padding_of. cbn [length].
  replace (S (S (S (length rest)))) with (length rest + 1 * 3)%nat by lia.
  now rewrite Nat.Div0.mod_add.
Qed.

Lemma toString_base64_sextets (data : list byte) :
  toString_base64 data =
  string_of_chars (map base64_char (sextets data)) +:+ padding_of data.
Proof.
  induction data as [|a|a b|a b c rest IH] using list_ind3; try reflexivity.
  rewrite padding_of_step. cbn [toString_base64 sextets map string_of_chars].
  rewrite IH. reflexivity.
Qed.

Lemma sextets_lt (data : list byte) : Forall (fun v => v < 64) (sextets data).
Proof.
  induction data as [|a|a b|a b c rest IH] using list_ind3; cbn [sextets].
  - constructor.
  - pose proof (to_N_lt_256 a). repeat constructor; divlia.
  - pose proof (to_N_lt_256 a). pose proof (to_N_lt_256 b).
    repeat constructor; divlia.
  - pose proof (to_N_lt_256 a). pose proof (to_N_lt_256 b). pose proof (to_N_lt_256 c).
    repeat (constructor; [divlia|]). exact IH.
Qed.

Lemma sextets_length (data : list byte) :
  (length (sextets data) mod 4)%nat =
  match (length data mod 3)%nat with
  | 1%nat => 2%nat
  | 2%nat => 3%nat
  | _ => 0%nat
  end.
Proof.
  induction data as [|a|a b|a b c rest IH] using list_ind3; try reflexivity.
  cbn [sextets length].
  replace (S (S (S (S (length (sextets rest)))))) with (length (sextets rest) + 1 * 4)%nat by lia.
  replace (S (S (S (length rest)))) with (length rest + 1 * 3)%nat by lia.
  now rewrite !Nat.Div0.mod_add.
Qed.

Lemma decode_groups_sextets (data : list byte) : decode_groups (sextets data) = data.
Proof.
  induction data as [|a|a b|a b c rest IH] using list_ind3.
  - reflexivity.
  - cbn [sextets decode_groups]. pose proof (to_N_lt_256 a).
    f_equal. rewrite <- (byte_of_to_N a) at 3. f_equal. divlia.
  - cbn [sextets decode_groups]. pose proof (to_N_lt_256 a). pose proof (to_N_lt_256 b).
    f_equal; [|f_equal].
    + rewrite <- (byte_of_to_N a) at 3. f_equal. divlia.
    + rewrite <- (byte_of_to_N b) at 3. f_equal. divlia.
  - cbn [sextets decode_groups].
    pose proof (to_N_lt_256 a). pose proof (to_N_lt_256 b). pose proof (to_N_lt_256 c).
    rewrite IH. f_equal; [|f_equal; [|f_equal]].
    + rewrite <- (byte_of_to_N a) at 3. f_equal. divlia.
    + rewrite <- (byte_of_to_N b) at 3. f_equal. divlia.
    + rewrite <- (byte_of_to_N c) at 3. f_equal. divlia.
Qed.

Lemma below_64 (P : N -> Prop) :
  (forall n : nat, (n < 64)%nat -> P (N.of_nat n)) -> forall v, v < 64 -> P v.
Proof. intros H v Hv. rewrite <- (N2Nat.id v). apply H. lia. Qed.

Lemma base64_char_not_pad (v : N) : v < 64 -> Ascii.eqb (base64_char v) "="%char = false.
Proof.
  revert v. apply below_64. intros n Hn.
  do 64 (destruct n as [|n]; [reflexivity|]). lia.
Qed.

Lemma url_char_not_pad (v : N) : v < 64 -> Ascii.eqb (url_char v) "="%char = false.
Proof.
  revert v. apply below_64. intros n Hn.
  do 64 (destruct n as [|n]; [reflexivity|]). lia.
Qed.

Lemma url_char_back (v : N) :
  v < 64 ->
  (let c := url_char v in
   let c := if Ascii.eqb c "-"%char then "+"%char else c in
   if Ascii.eqb c "_"%char then "/"%char else c) = base64_char v.
Proof.
  revert v. apply below_64. intros n Hn.
  do 64 (destruct n as [|n]; [reflexivity|]). lia.
Qed.

Lemma unbase64_base64_char (v : N) : v < 64 -> unbase64 (base64_char v) = Some v.
Proof.
  revert v. apply below_64. intros n Hn.
  do 64 (destruct n as [|n]; [reflexivity|]). lia.
Qed.

Lemma replace_char_app (a b : ascii) (s t : string) :
  replace_char a b (s +:+ t) = replace_char a b s +:+ replace_char a b t.
Proof. induction s as [|c s IH]; simpl; [reflexivity | now rewrite IH]. Qed.

Lemma remove_char_app (a : ascii) (s t : string) :
  remove_char a (s +:+ t) = remove_char a s +:+ remove_char a t.
Proof.
  induction s as [|c s IH]; simpl; [reflexivity|].
  destruct (Ascii.eqb c a); simpl; now rewrite IH.
Qed.

Lemma padding_of_cases (data : list byte) :
  padding_of data = "" \/ padding_of data = "=" \/ padding_of data = "==".
Proof.
  unfold padding_of. destruct (length data mod 3)%nat as [|[|[|n]]]; auto.
Qed.

(** The encoder writes the url-safe spelling of the sextets and nothing
    else: the padding is gone. *)
Lemma base64urlEncode_sextets (data : list byte) :
  base64urlEncode data = string_of_chars (map url_char (sextets data)).
Proof.
  unfold base64urlEncode. rewrite toString_base64_sextets.
  rewrite !replace_char_app, remove_char_app.
  assert (Hpad : remove_char "="
                   (replace_char "/" "_" (replace_char "+" "-" (padding_of data))) = "").
  { destruct (padding_of_cases data) as [-> | [-> | ->]]; reflexivity. }
  rewrite Hpad, string_app_nil_r.
  pose proof (sextets_lt data) as Hall.
  induction (sextets data) as [|v vs IH]; [reflexivity|].
  inversion Hall as [|? ? Hv Hvs]; subst.
  cbn [map string_of_chars replace_char remove_char].
  fold (url_char v). rewrite (url_char_not_pad v Hv). now rewrite IH.
Qed.

Lemma base64urlEncode_no_padding (data : list byte) :
  remove_char "=" (base64urlEncode data) = base64urlEncode data.
Proof.
  rewrite base64urlEncode_sextets.
  pose proof (sextets_lt data) as Hall.
  induction (sextets data) as [|v vs IH]; [reflexivity|].
  inversion Hall as [|? ? Hv Hvs]; subst.
  cbn [map string_of_chars remove_char].
  rewrite (url_char_not_pad v Hv). now rewrite IH.
Qed.

Lemma url_chars_back (vs : list N) :
  Forall (fun v => v < 64) vs ->
  replace_char "_" "/" (replace_char "-" "+" (string_of_chars (map url_char vs))) =
  string_of_chars (map base64_char vs).
Proof.
  induction vs as [|v vs IH]; intros Hall; [reflexivity|].
  inversion Hall as [|? ? Hv Hvs]; subst.
  cbn [map string_of_chars replace_char]. rewrite (IH Hvs).
  f_equal. apply (url_char_back v Hv).
Qed.

Lemma legal_values_chars (vs : list N) (tail : string) :
  Forall (fun v => v < 64) vs ->
  legal_values (string_of_chars (map base64_char vs) +:+ tail) = vs ++ legal_values tail.
Proof.
  induction vs as [|v vs IH]; intros Hall; [reflexivity|].
  inversion Hall as [|? ? Hv Hvs]; subst.
  cbn [map string_of_chars String.append legal_values app].
  rewrite (base64_char_not_pad v Hv), (unbase64_base64_char v Hv).
  now rewrite (IH Hvs).
Qed.

(** Whatever the decoder appends ([""], ["="] or ["=="]), it reads the
    same values. *)
Lemma base64urlDecode_chars (vs : list N) :
  Forall (fun v => v < 64) vs ->
  base64urlDecode (string_of_chars (map url_char vs)) = decode_groups vs.
Proof.
  intros Hall. unfold base64urlDecode, from_base64.
  rewrite (url_chars_back vs Hall). f_equal.
  set (body := string_of_chars (map base64_char vs)).
  destruct (_ =? 2)%nat; [|destruct (_ =? 3)%nat].
  - unfold body. rewrite legal_values_chars by exact Hall. apply app_nil_r.
  - unfold body. rewrite legal_values_chars by exact Hall. apply app_nil_r.
  - rewrite <- (string_app_nil_r body). unfold body.
    rewrite legal_values_chars by exact Hall. apply app_nil_r.
Qed.

Lemma base64url_roundtrip (data : list byte) :
  base64urlDecode (base64urlEncode data) = data.
Proof.
  rewrite base64urlEncode_sextets, base64urlDecode_chars by apply sextets_lt.
  apply decode_groups_sextets.
Qed.

End Base64Facts.

(** ** Multibase public keys (packages/did/src/utils.ts) *)

Section MultibaseFacts.
Import DidUtils Keys.

Lemma decode_loop_first_invalid (str : string) :
  forall num,
    match first_invalid_base58 str with
    | Some c => decode_loop str num = Throw (invalid_base58_character c)
    | None => exists n, decode_loop str num = Return n
    end.
Proof.
  induction str as [|c str IH]; intros num; simpl.
  - now exists num.
  - destruct (indexOf c) as [d|]; [apply IH | reflexivity].
Qed.

Lemma decodeBase58_first_invalid (str : string) :
  match first_invalid_base58 str with
  | Some c => decodeBase58 str = Throw (invalid_base58_character c)
  | None => exists bytes, decodeBase58 str = Return bytes
  end.
Proof.
  destruct str as [|c0 str0]; [now exists []|].
  remember (String c0 str0) as str eqn:E.
  assert (Hne : str <> "") by (subst; discriminate).
  rewrite (decodeBase58_nonempty str Hne).
  pose proof (decode_loop_first_invalid str 0%N) as H.
  destruct (first_invalid_base58 str) as [c|].
  - now rewrite H.
  - destruct H as [n ->]. simpl. eauto.
Qed.

Lemma startsWith_z (s : string) : startsWith "z" ("z" +:+ s) = true.
Proof. reflexivity. Qed.

Lemma byte_at_is_spec (bytes : list byte) (i : nat) (b : byte) :
  byte_at_is bytes i b = true <-> nth_error bytes i = Some b.
Proof.
  unfold byte_at_is. destruct (nth_error bytes i) as [x|]; [|split; discriminate].
  rewrite byte_eqb_eq. split; congruence.
Qed.

Lemma multibase_roundtrip (publicKey : list byte) :
  (32 <= length publicKey)%nat ->
  multibaseToPublicKey (publicKeyToMultibase publicKey) = Return publicKey.
Proof.
  intros Hlen. unfold multibaseToPublicKey, publicKeyToMultibase.
  rewrite startsWith_z. cbn [negb drop_chars String.append].
  rewrite base58_roundtrip. cbn [bind length].
  replace (S (S (length publicKey)) <? 34)%nat with false
    by (symmetry; apply Nat.ltb_ge; lia).
  reflexivity.
Qed.

(** C5. Round trips of the codecs: the multibase form of every 32-byte
    public key decodes to that key; url-safe base64 decoding inverts
    encoding on every byte string, the encoder writing no [=] padding and
    the decoder reading a text without it; base58 decoding inverts
    encoding on every byte string, leading zero bytes included. *)
Theorem codec_round_trips :
  (forall k : list byte,
      length k = 32%nat -> multibaseToPublicKey (publicKeyToMultibase k) = Return k)
  /\ (forall b : list byte, base64urlDecode (base64urlEncode b) = b)
  /\ (forall b : list byte, occurs "=" (base64urlEncode b) = false)
  /\ (forall bytes : list byte, decodeBase58 (encodeBase58 bytes) = Return bytes)
  /\ (forall (zeros : nat) (rest : list byte),
         decodeBase58 (encodeBase58 (repeat x00 zeros ++ rest))
         = Return (repeat x00 zeros ++ rest)).
Proof.
  split; [|split; [|split; [|split]]].
  - intros k Hk. apply multibase_roundtrip. lia.
  - apply base64url_roundtrip.
  - intros b. rewrite base64urlEncode_sextets.
    pose proof (sextets_lt b) as Hall.
    induction (sextets b) as [|v vs IH]; [reflexivity|].
    inversion Hall as [|? ? Hv Hvs]; subst.
    cbn [map string_of_chars occurs].
    rewrite (url_char_not_pad v Hv). exact (IH Hvs).
  - apply base58_roundtrip.
  - intros zeros rest. apply base58_roundtrip.
Qed.

Lemma codec_round_trips_witness :
  multibaseToPublicKey (publicKeyToMultibase (repeat x2a 32)) = Return (repeat x2a 32).
Proof.
  destruct codec_round_trips as [H _]. apply H. reflexivity.
Defined.

(** C6, as the code has it. [multibaseToPublicKey s]
    - throws "Invalid multibase format" when [s] does not start with [z];
    - throws "Invalid base58 character" when a character after the [z]
      lies outside the base58 alphabet;
    - throws "Invalid Ed25519 multicodec prefix" when the decoded bytes
      are fewer than 34 or do not start with 0xed 0x01;
    - returns otherwise all the decoded bytes after the two-byte tag:
      they are the trailing 32 bytes exactly when 34 bytes were decoded. *)
Theorem multibaseToPublicKey_cases (s : string) :
  (startsWith "z" s = false ->
     multibaseToPublicKey s = Throw invalid_multibase_format)
  /\ (startsWith "z" s = true ->
      forall c, first_invalid_base58 (drop_chars 1 s) = Some c ->
        multibaseToPublicKey s = Throw (invalid_base58_character c))
  /\ (startsWith "z" s = true ->
      first_invalid_base58 (drop_chars 1 s) = None ->
      exists decoded,
        decodeBase58 (drop_chars 1 s) = Return decoded
        /\ ((length decoded < 34)%nat
            \/ nth_error decoded 0 <> Some xed
            \/ nth_error decoded 1 <> Some x01 ->
            multibaseToPublicKey s = Throw invalid_multicodec_prefix)
        /\ ((34 <= length decoded)%nat ->
            nth_error decoded 0 = Some xed ->
            nth_error decoded 1 = Some x01 ->
            multibaseToPublicKey s = Return (skipn 2 decoded)
            /\ length (skipn 2 decoded) = (length decoded - 2)%nat
            /\ (skipn 2 decoded = trailing 32 decoded <-> length decoded = 34%nat))).
Proof.
  unfold multibaseToPublicKey. split; [|split].
  - intros ->. reflexivity.
  - intros -> c Hc. cbn [negb].
    pose proof (decodeBase58_first_invalid (drop_chars 1 s)) as H.
    rewrite Hc in H. now rewrite H.
  - intros -> Hnone. cbn [negb].
    pose proof (decodeBase58_first_invalid (drop_chars 1 s)) as H.
    rewrite Hnone in H. destruct H as [decoded Hdec].
    exists decoded. rewrite Hdec. cbn [bind]. split; [reflexivity|]. split.
    + intros Hbad.
      destruct (length decoded <? 34)%nat eqn:E1; [reflexivity|].
      apply Nat.ltb_ge in E1.
      destruct (byte_at_is decoded 0 xed) eqn:E2.
      * destruct (byte_at_is decoded 1 x01) eqn:E3; [|reflexivity].
        apply byte_at_is_spec in E2, E3.
        destruct Hbad as [Hb | [Hb | Hb]]; [lia | contradiction | contradiction].
      * reflexivity.
    + intros Hlen H0 H1.
      apply byte_at_is_spec in H0, H1. rewrite H0, H1.
      replace (length decoded <? 34)%nat with false by (symmetry; apply Nat.ltb_ge; lia).
      split; [reflexivity|]. split; [apply length_skipn|].
      unfold trailing. split.
      * intros E. apply (f_equal (@length byte)) in E.
        rewrite !length_skipn in E. lia.
      * intros ->. reflexivity.
Qed.

Lemma multibaseToPublicKey_cases_witness :
  multibaseToPublicKey "invalid" = Throw invalid_multibase_format
  /\ multibaseToPublicKey "z0" = Throw (invalid_base58_character "0").
Proof.
  split.
  - apply (multibaseToPublicKey_cases "invalid"). reflexivity.
  - apply (multibaseToPublicKey_cases "z0"); reflexivity.
Defined.

(** C6 as the specification words it fails on the code: 35 decoded bytes
    that start with the tag are not "shorter than 34", yet 33 bytes come
    back, not the trailing 32; and a character outside the alphabet gives
    an error that is neither of the two the specification names. *)
Lemma multibaseToPublicKey_not_trailing_32 :
  startsWith "z" multibase_of_33_bytes = true
  /\ decodeBase58 (drop_chars 1 multibase_of_33_bytes)
     = Return (xed :: x01 :: repeat x01 33)
  /\ multibaseToPublicKey multibase_of_33_bytes = Return (repeat x01 33)
  /\ multibaseToPublicKey multibase_of_33_bytes
     <> Return (trailing 32 (xed :: x01 :: repeat x01 33))
  /\ multibaseToPublicKey "z0" = Throw "Invalid base58 character: 0".
Proof.
  repeat split; try (vm_compute; reflexivity).
  vm_compute. discriminate.
Qed.

End MultibaseFacts.

(** ** DID format, well-known URL and resolution
       (packages/did/src/utils.ts, resolve.ts) *)

Section ResolveFacts.
Import DidUtils Resolve.

Lemma split_no_sep (sep : ascii) (s : string) :
  occurs sep s = false -> split sep s = [s].
Proof.
  induction s as [|c s IH]; intros H; [reflexivity|].
  simpl in H. apply orb_false_iff in H as [Hc Hs].
  simpl. rewrite Hc, (IH Hs). reflexivity.
Qed.

Lemma split_app_sep (sep : ascii) (s rest : string) :
  occurs sep s = false ->
  split sep (s +:+ String sep rest) = s :: split sep rest.
Proof.
  induction s as [|c s IH]; intros H.
  - simpl. now rewrite Ascii.eqb_refl.
  - simpl in H. apply orb_false_iff in H as [Hc Hs].
    simpl. rewrite Hc, (IH Hs). reflexivity.
Qed.

Lemma split_join (sep : ascii) (parts : list string) :
  parts <> [] ->
  Forall (fun p => occurs sep p = false) parts ->
  split sep (join (String sep "") parts) = parts.
Proof.
  induction parts as [|p parts IH]; intros Hne Hall; [congruence|].
  inversion Hall as [|? ? Hp Hparts]; subst.
  destruct parts as [|q parts].
  - simpl. now apply split_no_sep.
  - change (join (String sep "") (p :: q :: parts))
      with (p +:+ String sep "" +:+ join (String sep "") (q :: parts)).
    change (String sep "" +:+ join (String sep "") (q :: parts))
      with (String sep (join (String sep "") (q :: parts))).
    rewrite split_app_sep by exact Hp.
    rewrite IH; [reflexivity | discriminate | exact Hparts].
Qed.

Lemma all_method_chars_no_colon (m : string) :
  all_chars method_char m = true -> occurs ":" m = false.
Proof.
  induction m as [|c m IH]; intros H; [reflexivity|].
  simpl in H. apply andb_true_iff in H as [Hc Hm].
  simpl. rewrite (IH Hm), orb_false_r.
  destruct (Ascii.eqb c ":") eqn:E; [|reflexivity].
  apply Ascii.eqb_eq in E. subst c. discriminate.
Qed.

Lemma match_method_spec (s : string) :
  forall seen,
    match_method s seen = true <->
    exists m i, s = m +:+ ":" +:+ i
                /\ (seen = true \/ m <> "")
                /\ all_chars method_char m = true
                /\ i <> "" /\ all_chars id_char i = true.
Proof.
  induction s as [|c s IH]; intros seen; simpl.
  - split; [discriminate|]. intros (m & i & E & _). destruct m; discriminate.
  - destruct (method_char c) eqn:Hc.
    + rewrite IH. split.
      * intros (m & i & -> & _ & Hm & Hi & Hi').
        exists (String c m), i.
        split; [reflexivity|]. split; [right; discriminate|].
        split; [simpl; now rewrite Hc, Hm|]. split; assumption.
      * intros (m & i & E & _ & Hm & Hi & Hi').
        destruct m as [|c' m].
        -- simpl in E. injection E as -> _. discriminate.
        -- simpl in E. injection E as -> ->. simpl in Hm.
           apply andb_true_iff in Hm as [_ Hm].
           exists m, i.
           split; [reflexivity|]. split; [left; reflexivity|].
           split; [exact Hm|]. split; assumption.
    + destruct (Ascii.eqb c ":") eqn:Hcolon.
      * apply Ascii.eqb_eq in Hcolon. subst c. split.
        -- intros H. apply andb_true_iff in H as [H Hall].
           apply andb_true_iff in H as [Hseen Hne].
           exists "", s.
           split; [reflexivity|]. split; [left; exact Hseen|].
           split; [reflexivity|]. split; [|exact Hall].
           destruct s; [discriminate | discriminate].
        -- intros (m & i & E & Hseen & Hm & Hi & Hi').
           destruct m as [|c' m].
           ++ simpl in E. injection E as ->.
              destruct Hseen as [-> | Hm']; [|congruence].
              rewrite Hi'. destruct i; [congruence | reflexivity].
           ++ simpl in E. injection E as <- _. simpl in Hm. discriminate.
      * split; [discriminate|].
        intros (m & i & E & _ & Hm & _).
        destruct m as [|c' m]; simpl in E; injection E as Ec Es.
        -- subst c. now rewrite Ascii.eqb_refl in Hcolon.
        -- subst c'. simpl in Hm. rewrite Hc in Hm. discriminate.
Qed.

(** The matcher accepts exactly the language of the regular expression. *)
Lemma isValidDID_spec (did : string) :
  isValidDID did = true <-> exists method identifier, did_parts did method identifier.
Proof.
  unfold isValidDID, did_parts. rewrite andb_true_iff. split.
  - intros [Hpre Hm]. apply startsWith_inv in Hpre as [r ->].
    change (drop_chars 4 ("did:" +:+ r)) with r in Hm.
    apply match_method_spec in Hm as (m & i & -> & Hne & Hm & Hi & Hi').
    exists m, i. split; [reflexivity|].
    split; [destruct Hne; [discriminate | assumption]|].
    split; [exact Hm|]. split; assumption.
  - intros (m & i & -> & Hne & Hm & Hi & Hi'). split; [reflexivity|].
    change (drop_chars 4 ("did:" +:+ m +:+ ":" +:+ i)) with (m +:+ ":" +:+ i).
    apply match_method_spec. exists m, i.
    split; [reflexivity|]. split; [right; exact Hne|].
    split; [exact Hm|]. split; assumption.
Qed.

Lemma string_app_inv_colon (m1 m2 r1 r2 : string) :
  occurs ":" m1 = false -> occurs ":" m2 = false ->
  m1 +:+ ":" +:+ r1 = m2 +:+ ":" +:+ r2 -> m1 = m2.
Proof.
  revert m2. induction m1 as [|a m1 IH]; intros [|b m2] H1 H2 E; simpl in *.
  - reflexivity.
  - injection E as <- _. discriminate.
  - injection E as -> _. discriminate.
  - injection E as -> E. apply orb_false_iff in H1 as [_ H1].
    apply orb_false_iff in H2 as [_ H2]. f_equal. eapply IH; eauto.
Qed.

(** A well-formed DID starts with "did:web:" exactly when its method is
    [web]. *)
Lemma did_web_method (did method identifier : string) :
  did_parts did method identifier ->
  startsWith "did:web:" did = true <-> method = "web".
Proof.
  intros (-> & Hne & Hm & _). split.
  - intros H. apply startsWith_inv in H as [r E].
    change ("did:web:" +:+ r) with ("did:" +:+ "web" +:+ ":" +:+ r) in E.
    simpl in E. injection E as E.
    eapply (string_app_inv_colon method "web" identifier r);
      [now apply all_method_chars_no_colon | reflexivity | exact E].
  - intros ->. reflexivity.
Qed.

Lemma getWellKnownUrl_root (domain : string) :
  occurs ":" domain = false ->
  getWellKnownUrl ("did:web:" +:+ domain)
  = Return ("https://" +:+ domain +:+ "/.well-known/did.json").
Proof.
  intros H. unfold getWellKnownUrl.
  rewrite startsWith_app. cbn [negb].
  change (drop_chars 8 ("did:web:" +:+ domain)) with domain.
  rewrite (split_no_sep _ _ H). reflexivity.
Qed.

Lemma getWellKnownUrl_path (domain : string) (segments : list string) :
  segments <> [] ->
  Forall (fun p => occurs ":" p = false) (domain :: segments) ->
  getWellKnownUrl ("did:web:" +:+ join ":" (domain :: segments))
  = Return ("https://" +:+ domain +:+ "/" +:+ join "/" segments +:+ "/did.json").
Proof.
  intros Hne Hall. unfold getWellKnownUrl.
  rewrite startsWith_app. cbn [negb].
  change (drop_chars 8 ("did:web:" +:+ join ":" (domain :: segments)))
    with (join ":" (domain :: segments)).
  rewrite (split_join ":" (domain :: segments)) by (auto; discriminate).
  cbn [hd tl]. destruct segments; [congruence | reflexivity].
Qed.

(** C8. The well-known URL of a did:web DID: the domain alone maps to
    [https://<domain>/.well-known/did.json], a domain followed by path
    segments to [https://<domain>/<seg1>/.../did.json]; the two examples
    of the specification; and every string that is not a did:web DID is
    refused with "Only did:web method is supported". *)
Theorem getWellKnownUrl_spec :
  (forall domain,
      occurs ":" domain = false ->
      getWellKnownUrl ("did:web:" +:+ domain)
      = Return ("https://" +:+ domain +:+ "/.well-known/did.json"))
  /\ (forall domain segments,
         segments <> [] ->
         Forall (fun p => occurs ":" p = false) (domain :: segments) ->
         getWellKnownUrl ("did:web:" +:+ join ":" (domain :: segments))
         = Return ("https://" +:+ domain +:+ "/" +:+ join "/" segments +:+ "/did.json"))
  /\ getWellKnownUrl "did:web:example.com"
     = Return "https://example.com/.well-known/did.json"
  /\ getWellKnownUrl "did:web:example.com:agents:claude"
     = Return "https://example.com/agents/claude/did.json"
  /\ (forall did,
         startsWith "did:web:" did = false ->
         getWellKnownUrl did = Throw only_did_web_supported)
  /\ (forall did method identifier,
         did_parts did method identifier -> method <> "web" ->
         getWellKnownUrl did = Throw only_did_web_supported).
Proof.
  split; [exact getWellKnownUrl_root|].
  split; [exact getWellKnownUrl_path|].
  split; [reflexivity|]. split; [reflexivity|].
  assert (Hnot : forall did, startsWith "did:web:" did = false ->
                             getWellKnownUrl did = Throw only_did_web_supported).
  { intros did H. unfold getWellKnownUrl. now rewrite H. }
  split; [exact Hnot|].
  intros did method identifier Hparts Hmethod. apply Hnot.
  destruct (startsWith "did:web:" did) eqn:E; [|reflexivity].
  apply (did_web_method _ _ _ Hparts) in E. contradiction.
Qed.

Lemma getWellKnownUrl_spec_witness :
  getWellKnownUrl "did:web:api.example.com"
  = Return "https://api.example.com/.well-known/did.json"
  /\ getWellKnownUrl "did:web:localhost:3000:agents:test"
     = Return "https://localhost/3000/agents/test/did.json"
  /\ getWellKnownUrl "did:key:z6MkhaXgBZDvotDkL5257faiztiGiC2QtKLGpbnnEGta2doK"
     = Throw only_did_web_supported.
Proof.
  destruct getWellKnownUrl_spec as (Hroot & Hpath & _ & _ & Hnot & _).
  split; [|split].
  - apply (Hroot "api.example.com"). reflexivity.
  - apply (Hpath "localhost" ["3000"; "agents"; "test"]); [discriminate|].
    repeat constructor.
  - apply Hnot. reflexivity.
Defined.

Lemma differs_from_spec (id : option Json) (did : string) :
  differs_from id did = false <-> id = Some (JString did).
Proof.
  unfold differs_from. destruct id as [[| | |s| |]|]; try (split; [discriminate | congruence]).
  rewrite negb_false_iff, String.eqb_eq. split; congruence.
Qed.

(** C4, as the code has it.  [resolveDID] reports
    - [invalidDid] when the string fails the DID format;
    - [methodNotSupported] for a well-formed DID whose method is not web;
    and for a did:web DID, after one fetch of the well-known URL,
    - [internalError] when the fetch itself fails;
    - [notFound] for status 404, [internalError] for any other status
      outside 200-299;
    - [internalError] when the body of a successful response is not valid
      JSON (or is the JSON value [null]): the [catch] clause takes it;
    - [invalidDidDocument] when the body is JSON whose [id] is not the
      requested DID;
    - the document with the content type and the last modification date
      otherwise. *)
Theorem resolveDID_outcomes (fetch : string -> Completion Response) (did : string) :
  (isValidDID did = false -> resolveDID fetch did = failure "invalidDid")
  /\ (isValidDID did = true -> startsWith "did:web:" did = false ->
      resolveDID fetch did = failure "methodNotSupported")
  /\ (forall method identifier,
         did_parts did method identifier -> method <> "web" ->
         resolveDID fetch did = failure "methodNotSupported")
  /\ (isValidDID did = true -> startsWith "did:web:" did = true ->
      exists url,
        getWellKnownUrl did = Return url
        /\ (forall m, fetch url = Throw m ->
              resolveDID fetch did = failure "internalError")
        /\ (forall response, fetch url = Return response ->
              (ok response = false -> status response = 404%Z ->
                 resolveDID fetch did = failure "notFound")
              /\ (ok response = false -> status response <> 404%Z ->
                    resolveDID fetch did = failure "internalError")
              /\ (ok response = true -> forall m, json response = Throw m ->
                    resolveDID fetch did = failure "internalError")
              /\ (ok response = true -> json response = Return JNull ->
                    resolveDID fetch did = failure "internalError")
              /\ (ok response = true ->
                  forall document id,
                    json response = Return document -> get_id document = Return id ->
                    id <> Some (JString did) ->
                    resolveDID fetch did = failure "invalidDidDocument")
              /\ (ok response = true ->
                  forall document,
                    json response = Return document ->
                    get_id document = Return (Some (JString did)) ->
                    resolveDID fetch did =
                    {| didDocument := Some document;
                       didResolutionMetadata :=
                         {| error := None;
                            contentType :=
                              or_undefined (headers_get (headers response) "content-type") |};
                       didDocumentMetadata :=
                         {| updated :=
                              or_undefined (headers_get (headers response) "last-modified") |}
                    |}))).
Proof.
  assert (Hmethod : isValidDID did = true -> startsWith "did:web:" did = false ->
                    resolveDID fetch did = failure "methodNotSupported").
  { intros Hv Hw. unfold resolveDID. now rewrite Hv, Hw. }
  split; [|split; [exact Hmethod|split]].
  - intros Hv. unfold resolveDID. now rewrite Hv.
  - intros method identifier Hparts Hne.
    apply Hmethod; [apply isValidDID_spec; eauto|].
    destruct (startsWith "did:web:" did) eqn:E; [|reflexivity].
    apply (did_web_method _ _ _ Hparts) in E. contradiction.
  - intros Hv Hw.
    assert (Hurl : exists url, getWellKnownUrl did = Return url).
    { unfold getWellKnownUrl. rewrite Hw. cbn [negb].
      destruct (tl _); eauto. }
    destruct Hurl as [url Hurl]. exists url. split; [exact Hurl|].
    unfold resolveDID. rewrite Hv, Hw, Hurl. cbn [negb bind].
    split.
    + intros m ->. reflexivity.
    + intros response ->. cbn [bind].
      split; [|split; [|split; [|split; [|split]]]].
      * intros -> ->. reflexivity.
      * intros -> Hs. cbn [negb]. apply Z.eqb_neq in Hs. now rewrite Hs.
      * intros -> m ->. reflexivity.
      * intros -> ->. reflexivity.
      * intros -> document id -> Hid Hne. cbn [negb bind]. rewrite Hid. cbn [bind].
        destruct (differs_from id did) eqn:E; [reflexivity|].
        apply differs_from_spec in E. contradiction.
      * intros -> document -> Hid. cbn [negb bind]. rewrite Hid. cbn [bind].
        replace (differs_from (Some (JString did)) did) with false; [reflexivity|].
        symmetry. now apply differs_from_spec.
Qed.

Lemma resolveDID_outcomes_witness :
  resolveDID (fun _ => Throw "Network error") "invalid-did" = failure "invalidDid"
  /\ resolveDID (fun _ => Throw "Network error")
       "did:key:z6MkhaXgBZDvotDkL5257faiztiGiC2QtKLGpbnnEGta2doK"
     = failure "methodNotSupported".
Proof.
  split.
  - apply resolveDID_outcomes. reflexivity.
  - apply resolveDID_outcomes; reflexivity.
Defined.

(** C4 as the specification words it fails on the code: a response with
    status 200 whose body is not valid JSON gives [internalError], not
    [invalidDidDocument]. *)
Lemma resolveDID_not_json_is_internalError :
  ok not_json_response = true
  /\ (exists m, json not_json_response = Throw m)
  /\ resolveDID (fun _ => Return not_json_response) "did:web:example.com"
     = failure "internalError"
  /\ resolveDID (fun _ => Return not_json_response) "did:web:example.com"
     <> failure "invalidDidDocument".
Proof.
  split; [reflexivity|]. split; [eexists; reflexivity|].
  split; [reflexivity|]. vm_compute. discriminate.
Qed.

End ResolveFacts.

(** ** Numbers as text *)

Section NumberFacts.
Import JsNumber.
Local Open Scope N_scope.

Lemma below_10 (P : N -> Prop) :
  (forall n : nat, (n < 10)%nat -> P (N.of_nat n)) -> forall d, d < 10 -> P d.
Proof. intros H d Hd. rewrite <- (N2Nat.id d). apply H. lia. Qed.

Lemma digit_value_digit_char (d : N) : d < 10 -> digit_value (digit_char d) = Some d.
Proof.
  revert d. apply below_10. intros n Hn.
  do 10 (destruct n as [|n]; [reflexivity|]). lia.
Qed.

Lemma parse_digits_some (R : N) (s : string) :
  forall a, exists n, parse_digits R s (Some a) = Some n.
Proof.
  induction s as [|c s IH]; intros a; simpl; [eauto|].
  destruct (digit_value c) as [d|]; [|eauto].
  destruct (d <? R); [apply IH | eauto].
Qed.

Lemma parse_digits_chars (ds : list N) :
  forall a,
    Forall (fun d => d < 10) ds ->
    parse_digits 10 (string_of_chars (map digit_char ds)) (Some a)
    = Some (Radix.of_digits_from 10 a ds).
Proof.
  induction ds as [|d ds IH]; intros a Hall; [reflexivity|].
  inversion Hall as [|? ? Hd Hds]; subst.
  cbn [map string_of_chars parse_digits].
  rewrite (digit_value_digit_char d Hd).
  apply N.ltb_lt in Hd. rewrite Hd. apply IH, Hds.
Qed.

Lemma parseInt_10 (text : string) :
  parseInt text 10 =
  match parse_digits 10 (snd (strip_sign (trim_start text))) None with
  | Some n => Some (fst (strip_sign (trim_start text)) * Z.of_N n)%Z
  | None => None
  end.
Proof. unfold parseInt. destruct (strip_sign (trim_start text)). reflexivity. Qed.

Lemma is_white_space_digit_char (d : N) : d < 10 -> is_white_space (digit_char d) = false.
Proof.
  revert d. apply below_10. intros n Hn.
  do 10 (destruct n as [|n]; [reflexivity|]). lia.
Qed.

Lemma strip_sign_digit_char (d : N) (rest : string) :
  d < 10 -> strip_sign (String (digit_char d) rest) = (1%Z, String (digit_char d) rest).
Proof.
  revert d. apply below_10. intros n Hn.
  do 10 (destruct n as [|n]; [reflexivity|]). lia.
Qed.

(** A decimal numeral: one digit, then more digits. *)
Lemma parseInt_numeral (d : N) (ds : list N) :
  d < 10 -> Forall (fun d => d < 10) ds ->
  let numeral := String (digit_char d) (string_of_chars (map digit_char ds)) in
  parseInt numeral 10 = Some (Z.of_N (Radix.of_digits 10 (d :: ds)))
  /\ parseInt ("-" +:+ numeral) 10 = Some (- Z.of_N (Radix.of_digits 10 (d :: ds)))%Z.
Proof.
  intros Hd Hds numeral.
  assert (Hparse : parse_digits 10 numeral None = Some (Radix.of_digits 10 (d :: ds))).
  { unfold numeral. cbn [parse_digits]. rewrite (digit_value_digit_char d Hd).
    pose proof Hd as Hd'. apply N.ltb_lt in Hd'. rewrite Hd'.
    rewrite parse_digits_chars by exact Hds. reflexivity. }
  rewrite !parseInt_10. split.
  - unfold numeral at 1 2. cbn [trim_start]. rewrite (is_white_space_digit_char d Hd).
    rewrite (strip_sign_digit_char d _ Hd). cbn [fst snd]. fold numeral.
    rewrite Hparse. f_equal; lia.
  - change (trim_start ("-" +:+ numeral)) with (String "-" numeral).
    change (strip_sign (String "-" numeral)) with ((-1)%Z, numeral). cbn [fst snd].
    rewrite Hparse. f_equal; lia.
Qed.

Lemma N_to_string_shape (n : N) :
  exists d ds,
    d < 10 /\ Forall (fun d => d < 10) ds
    /\ N_to_string n = String (digit_char d) (string_of_chars (map digit_char ds))
    /\ Radix.of_digits 10 (d :: ds) = n.
Proof.
  unfold N_to_string. destruct (N.eqb_spec n 0) as [->|Hne].
  - exists 0, []. split; [lia|]. split; [constructor|]. split; reflexivity.
  - set (fuel := S (N.to_nat (N.log2 n))).
    assert (Hfuel : n < 2 ^ N.of_nat fuel).
    { unfold fuel. rewrite Nat2N.inj_succ, N2Nat.id. apply N.log2_spec. lia. }
    pose proof (of_to_digits 10 ltac:(lia) fuel n Hfuel) as Hval.
    pose proof (to_digits_lt 10 ltac:(lia) fuel n [] ltac:(constructor)) as Hlt.
    destruct (Radix.to_digits 10 fuel n []) as [|d ds].
    + unfold Radix.of_digits, Radix.of_digits_from in Hval. simpl in Hval. congruence.
    + inversion Hlt as [|? ? Hd Hds]. exists d, ds.
      split; [exact Hd|]. split; [exact Hds|]. split; [reflexivity | exact Hval].
Qed.

(** The digit loop of [N_to_string] is never short of rounds. *)
Lemma N_to_string_fuel (n : N) (extra : nat) :
  Radix.to_digits 10 (S (N.to_nat (N.log2 n)) + extra) n []
  = Radix.to_digits 10 (S (N.to_nat (N.log2 n))) n [].
Proof.
  apply to_digits_fuel; [lia|].
  destruct (N.eq_dec n 0) as [->|Hne]; [reflexivity|].
  rewrite Nat2N.inj_succ, N2Nat.id. apply N.log2_spec. lia.
Qed.

Lemma parseInt_toString (n : Z) : parseInt (toString n) 10 = Some n.
Proof.
  unfold toString. destruct (Z.ltb_spec n 0) as [Hneg|Hpos].
  - destruct (N_to_string_shape (Z.to_N (- n))) as (d & ds & Hd & Hds & -> & Hval).
    destruct (parseInt_numeral d ds Hd Hds) as [_ ->]. rewrite Hval. f_equal. lia.
  - destruct (N_to_string_shape (Z.to_N n)) as (d & ds & Hd & Hds & -> & Hval).
    destruct (parseInt_numeral d ds Hd Hds) as [-> _]. rewrite Hval. f_equal. lia.
Qed.

Lemma toString_not_empty (n : Z) : toString n <> "".
Proof.
  unfold toString. destruct (n <? 0)%Z; [discriminate|].
  destruct (N_to_string_shape (Z.to_N n)) as (d & ds & _ & _ & -> & _). discriminate.
Qed.

Lemma parse_digits_none (s : string) :
  parse_digits 10 s None = None <->
  match s with
  | String c _ => is_digit c = false
  | "" => True
  end.
Proof.
  destruct s as [|c s]; [simpl; tauto|]. cbn [parse_digits].
  unfold digit_value. destruct (is_digit c) eqn:Hc.
  - assert (Hlt : N_of_ascii c - 48 < 10).
    { unfold is_digit in Hc. apply andb_true_iff in Hc as [H1 H2].
      apply N.leb_le in H1, H2. lia. }
    apply N.ltb_lt in Hlt. rewrite Hlt.
    destruct (parse_digits_some 10 s (N_of_ascii c - 48)) as [n ->].
    split; discriminate.
  - split; [reflexivity|]. intros _.
    destruct (is_lower c) eqn:Hl.
    + replace (N_of_ascii c - 87 <? 10) with false; [reflexivity|].
      symmetry. apply N.ltb_ge. unfold is_lower in Hl.
      apply andb_true_iff in Hl as [H1 _]. apply N.leb_le in H1. lia.
    + destruct (is_upper c) eqn:Hu; [|reflexivity].
      replace (N_of_ascii c - 55 <? 10) with false; [reflexivity|].
      symmetry. apply N.ltb_ge. unfold is_upper in Hu.
      apply andb_true_iff in Hu as [H1 _]. apply N.leb_le in H1. lia.
Qed.

(** [Number.parseInt(text, 10)] is [NaN] exactly when no decimal digit
    follows the leading white space and the optional sign. *)
Lemma parseInt_NaN (text : string) :
  parseInt text 10 = None <-> starts_with_integer text = false.
Proof.
  rewrite parseInt_10. unfold starts_with_integer.
  set (rest := snd (strip_sign (trim_start text))).
  pose proof (parse_digits_none rest) as Hn.
  destruct (parse_digits 10 rest None) as [n|].
  - split; [discriminate|]. intros Hd.
    assert (Some n = None) as Habs; [|discriminate Habs].
    apply Hn. destruct rest; [exact I | exact Hd].
  - split; [|reflexivity]. intros _.
    destruct rest as [|c r]; [reflexivity|]. now apply Hn.
Qed.

End NumberFacts.

(** ** Request signing and verification (packages/crypto/src/request.ts) *)

Section RequestFacts.
Import Request Keys JsNumber.
Context `{Crypto}.
Local Open Scope Z_scope.

Lemma base64urlEncode_not_empty (data : list byte) :
  data <> [] -> base64urlEncode data <> "".
Proof.
  intros Hne. rewrite base64urlEncode_sextets.
  destruct data as [|a [|b [|c rest]]]; [congruence | discriminate..].
Qed.

Lemma missing_some (value : string) : value <> "" -> missing (Some value) = false.
Proof. destruct value; [congruence | reflexivity]. Qed.

Lemma createCanonicalString_method (now now' : Z) (m m' url : string)
    (body : option string) (t : Z) :
  toUpperCase m = toUpperCase m' ->
  createCanonicalString now
    {| method := m; url := url; body := body; timestamp := Some t |}
  = createCanonicalString now'
      {| method := m'; url := url; body := body; timestamp := Some t |}.
Proof. intros E. unfold createCanonicalString. cbn. now rewrite E. Qed.

(** Header names compare without case. *)
Lemma getHeader_found (key name value : string) (rest : list (string * string)) :
  toLowerCase key = toLowerCase name ->
  getHeader ((key, value) :: rest) name = Some value.
Proof. intros E. cbn [getHeader]. rewrite E, String.eqb_refl. reflexivity. Qed.

(** The tolerance window, for any headers whose timestamp reads [t]. *)
Lemma tolerance_window (headers : list (string * string)) (publicKey : list byte)
    (body : option string) (now toleranceMs : Z) (signature timestamp : string) (t : Z) :
  getHeader headers "X-Agent-Signature" = Some signature -> signature <> "" ->
  getHeader headers "X-Agent-Timestamp" = Some timestamp -> timestamp <> "" ->
  parseInt timestamp 10 = Some t ->
  (toleranceMs < Z.abs (now - t) ->
     verifyRequest now headers publicKey body toleranceMs = expired)
  /\ (expiredTimestamp (verifyRequest now headers publicKey body toleranceMs) = Some true
      <-> toleranceMs < Z.abs (now - t)).
Proof.
  intros Hs Hs' Ht Ht' Hparse. unfold verifyRequest.
  rewrite Hs, Ht, (missing_some _ Hs'), (missing_some _ Ht').
  cbn [or_default]. rewrite Hparse. cbn zeta.
  destruct (Z.ltb_spec toleranceMs (Z.abs (now - t))) as [Hout|Hin].
  - split; [reflexivity|]. split; [intros _; exact Hout | reflexivity].
  - split; [lia|]. split; [|lia].
    destruct (negb _); discriminate.
Qed.

(** What a verifier makes of the headers of a signed request. *)
Lemma verify_signed (sk pk : list byte) (request : SignableRequest) (agent : string)
    (signedAt : Z) (signed : SignedHeaders) (headers : list (string * string))
    (now toleranceMs : Z) :
  key_pair_ok sk pk ->
  signRequest signedAt request {| privateKey := sk; did := agent |} = Return signed ->
  presents headers signed request ->
  let T := match timestamp request with Some t => t | None => signedAt end in
  Z.abs (now - T) <= toleranceMs ->
  verifyRequest now headers pk (body request) toleranceMs = verified.
Proof.
  intros Hkey Hsign (Hsig & Hts & Hmethod & Hurl) T Hin.
  unfold signRequest in Hsign. cbn [privateKey did] in Hsign. fold T in Hsign.
  set (canonical := createCanonicalString signedAt _) in Hsign.
  destruct (Hkey (utf8_encode_units canonical)) as (signature & Hs & Hlen & Hverify).
  rewrite Hs in Hsign. cbn [bind] in Hsign. injection Hsign as <-.
  cbn [X_Agent_Signature X_Agent_Timestamp] in Hsig, Hts.
  unfold verifyRequest. rewrite Hsig, Hts.
  rewrite missing_some.
  2:{ apply base64urlEncode_not_empty. intros ->. discriminate. }
  rewrite missing_some by apply toString_not_empty.
  cbn [or_default]. rewrite parseInt_toString. cbn zeta.
  replace (toleranceMs <? Z.abs (now - T)) with false by (symmetry; apply Z.ltb_ge; lia).
  rewrite Hurl, base64url_roundtrip.
  rewrite (createCanonicalString_method now signedAt _ (method request) _ _ _ Hmethod).
  fold canonical. unfold verifySignature. rewrite Hverify. reflexivity.
Qed.

(** C3. A request signed at time [T] verifies at time [T] under the
    default tolerance of 300000 ms; its headers are refused as expired at
    [T + 600000] under the default tolerance and accepted there under a
    tolerance of 600000 ms; and the test is symmetric: whatever the
    headers, once the timestamp reads [t] the answer is "expired" exactly
    when [|now - t| > toleranceMs], for a timestamp too old and for one in
    the future alike. *)
Theorem signed_request_verifies (sk pk : list byte) (request : SignableRequest)
    (agent : string) (signedAt : Z) :
  key_pair_ok sk pk ->
  let T := match timestamp request with Some t => t | None => signedAt end in
  DEFAULT_TOLERANCE_MS = 300000
  /\ (exists signed,
        signRequest signedAt request {| privateKey := sk; did := agent |} = Return signed
        /\ X_Agent_Timestamp signed = JsNumber.toString T
        /\ forall headers,
             presents headers signed request ->
             verifyRequest T headers pk (body request) DEFAULT_TOLERANCE_MS = verified
             /\ verifyRequest (T + 600000) headers pk (body request) DEFAULT_TOLERANCE_MS
                = expired
             /\ verifyRequest (T + 600000) headers pk (body request) 600000 = verified
             /\ forall now toleranceMs,
                  (toleranceMs < Z.abs (now - T) ->
                     verifyRequest now headers pk (body request) toleranceMs = expired)
                  /\ (Z.abs (now - T) <= toleranceMs ->
                        verifyRequest now headers pk (body request) toleranceMs = verified))
  /\ (forall headers publicKey body now toleranceMs signature timestamp t,
        getHeader headers "X-Agent-Signature" = Some signature -> signature <> "" ->
        getHeader headers "X-Agent-Timestamp" = Some timestamp -> timestamp <> "" ->
        JsNumber.parseInt timestamp 10 = Some t ->
        (expiredTimestamp (verifyRequest now headers publicKey body toleranceMs) = Some true
         <-> toleranceMs < Z.abs (now - t))
        /\ (toleranceMs < now - t ->
              verifyRequest now headers publicKey body toleranceMs = expired)
        /\ (toleranceMs < t - now ->
              verifyRequest now headers publicKey body toleranceMs = expired)).
Proof.
  intros Hkey T. split; [reflexivity|]. split.
  2:{ intros headers publicKey body now toleranceMs signature timestamp t Hs Hs' Ht Ht' Hp.
      destruct (tolerance_window headers publicKey body now toleranceMs signature
                  timestamp t Hs Hs' Ht Ht' Hp) as [Hexp Hiff].
      split; [exact Hiff|]. split; intros Hlt; apply Hexp; lia. }
  assert (Hsign : exists signed,
             signRequest signedAt request {| privateKey := sk; did := agent |}
             = Return signed
             /\ X_Agent_Timestamp signed = JsNumber.toString T
             /\ X_Agent_Signature signed <> "").
  { unfold signRequest. cbn [privateKey did]. fold T.
    set (canonical := createCanonicalString signedAt _).
    destruct (Hkey (utf8_encode_units canonical)) as (signature & -> & Hlen & _).
    eexists. split; [reflexivity|]. split; [reflexivity|].
    cbn [X_Agent_Signature]. apply base64urlEncode_not_empty.
    intros ->. discriminate. }
  destruct Hsign as (signed & Hsign & Hts & Hsig). exists signed.
  split; [exact Hsign|]. split; [exact Hts|].
  intros headers Hpresents.
  assert (Hok : forall now toleranceMs,
             Z.abs (now - T) <= toleranceMs ->
             verifyRequest now headers pk (body request) toleranceMs = verified).
  { intros now toleranceMs.
    apply (verify_signed sk pk request agent signedAt signed); assumption. }
  assert (Hwindow : forall now toleranceMs,
             toleranceMs < Z.abs (now - T) ->
             verifyRequest now headers pk (body request) toleranceMs = expired).
  { intros now toleranceMs. destruct Hpresents as (Hs & Ht & _).
    eapply tolerance_window; eauto.
    - rewrite Hts. apply toString_not_empty.
    - rewrite Hts. apply parseInt_toString. }
  split; [apply Hok; unfold DEFAULT_TOLERANCE_MS; lia|].
  split; [apply Hwindow; unfold DEFAULT_TOLERANCE_MS; lia|].
  split; [apply Hok; lia|].
  intros now toleranceMs. split; [apply Hwindow | apply Hok].
Qed.

(** C7, as the code has it.  When the signature and the timestamp
    header are both present with a value that is not empty,
    [verifyRequest] answers "Invalid timestamp format" exactly when
    [Number.parseInt(timestamp, 10)] is [NaN], that is when no decimal
    digit follows the leading white space and the optional sign. *)
Theorem invalid_timestamp_format_iff (headers : list (string * string))
    (publicKey : list byte) (body : option string) (now toleranceMs : Z)
    (signature timestamp : string) :
  getHeader headers "X-Agent-Signature" = Some signature -> signature <> "" ->
  getHeader headers "X-Agent-Timestamp" = Some timestamp -> timestamp <> "" ->
  (error (verifyRequest now headers publicKey body toleranceMs)
   = Some "Invalid timestamp format"
   <-> parseInt timestamp 10 = None)
  /\ (parseInt timestamp 10 = None <-> starts_with_integer timestamp = false)
  /\ (parseInt timestamp 10 = None ->
      verifyRequest now headers publicKey body toleranceMs = invalid_timestamp_format).
Proof.
  intros Hs Hs' Ht Ht'.
  split; [|split; [apply parseInt_NaN|]].
  - unfold verifyRequest.
    rewrite Hs, Ht, (missing_some _ Hs'), (missing_some _ Ht').
    cbn [or_default]. destruct (parseInt timestamp 10) as [t|].
    + cbn zeta. split; [|discriminate].
      destruct (toleranceMs <? _); [discriminate|].
      destruct (negb _); discriminate.
    + split; reflexivity.
  - intros Hnan. unfold verifyRequest.
    rewrite Hs, Ht, (missing_some _ Hs'), (missing_some _ Ht').
    cbn [or_default]. rewrite Hnan. reflexivity.
Qed.

End RequestFacts.

Section RequestExamples.
Import Request Keys JsNumber.
Local Open Scope Z_scope.

Lemma bytes_eqb_refl (a : list byte) : bytes_eqb a a = true.
Proof.
  induction a as [|x a IH]; [reflexivity|]. simpl. rewrite IH.
  replace (Byte.eqb x x) with true; [reflexivity|].
  symmetry. now apply byte_eqb_eq.
Qed.

Lemma toy_key_pair_ok (key : list byte) : @key_pair_ok toy_crypto key key.
Proof.
  intros message. exists (toy_tag message key). split; [reflexivity|]. split.
  - unfold toy_tag. rewrite length_firstn, !length_app, repeat_length. lia.
  - cbn. now rewrite bytes_eqb_refl.
Qed.

Lemma signed_request_verifies_witness :
  exists signed,
    @signRequest toy_crypto 0 sample_request
      {| privateKey := sample_key; did := "did:web:example.com" |} = Return signed
    /\ @verifyRequest toy_crypto 1704067200000 (with_sidecars signed sample_request)
         sample_key (Some "{}") 300000 = verified
    /\ @verifyRequest toy_crypto 1704067800000 (with_sidecars signed sample_request)
         sample_key (Some "{}") 300000 = expired
    /\ @verifyRequest toy_crypto 1704067800000 (with_sidecars signed sample_request)
         sample_key (Some "{}") 600000 = verified.
Proof.
  destruct (@signed_request_verifies toy_crypto sample_key sample_key sample_request
              "did:web:example.com" 0 (toy_key_pair_ok sample_key))
    as (_ & (signed & Hsign & _ & Hverify) & _).
  exists signed. split; [exact Hsign|].
  destruct (Hverify (with_sidecars signed sample_request)) as (H1 & H2 & H3 & _).
  - repeat split; reflexivity.
  - split; [exact H1|]. split; [exact H2 | exact H3].
Defined.

Lemma invalid_timestamp_format_iff_witness :
  error (@verifyRequest toy_crypto 0
           [("x-agent-signature", "c2ln"); ("x-agent-timestamp", "soon")]
           sample_key None 300000)
  = Some "Invalid timestamp format".
Proof.
  apply (@invalid_timestamp_format_iff toy_crypto _ _ _ _ _ "c2ln" "soon");
    [reflexivity | discriminate | reflexivity | discriminate | reflexivity].
Defined.

(** C7 as the specification words it fails on the code: a timestamp
    header that is there with an empty value does not parse as an
    integer, and the answer is "Missing X-Agent-Timestamp header". *)
Lemma empty_timestamp_is_missing :
  getHeader [("X-Agent-Signature", "c2ln"); ("X-Agent-Timestamp", "")] "X-Agent-Signature"
  = Some "c2ln"
  /\ getHeader [("X-Agent-Signature", "c2ln"); ("X-Agent-Timestamp", "")] "X-Agent-Timestamp"
     = Some ""
  /\ parseInt "" 10 = None
  /\ error (@verifyRequest toy_crypto 0
              [("X-Agent-Signature", "c2ln"); ("X-Agent-Timestamp", "")]
              sample_key None 300000)
     = Some "Missing X-Agent-Timestamp header"
  /\ error (@verifyRequest toy_crypto 0
              [("X-Agent-Signature", "c2ln"); ("X-Agent-Timestamp", "")]
              sample_key None 300000)
     <> Some "Invalid timestamp format".
Proof.
  repeat split; try reflexivity. vm_compute. discriminate.
Qed.

End RequestExamples.

(** ** The registry: signature verification (packages/registry/src/verify.ts) *)

Section VerifyFacts.
Import Postgres Registry.
Context `{Crypto} {S : Type} `{SupabaseClient S}.

Lemma is_active_spec (s : agent_status) : is_active s = true <-> s = active.
Proof. destruct s; simpl; split; congruence. Qed.

Lemma verifyAgentSignature_inactive (now : Z) (did signature message timestamp : string)
    (s : S) (log : list Call) (row : AgentRow) :
  select_agent did s = Data row ->
  row_status row <> active ->
  verifyAgentSignature now did signature message timestamp s log
  = ({| valid := false;
        agent := Some (rowToAgent row);
        error := Some ("Agent is " +:+ status_text (row_status row)) |},
     s, log ++ [SelectAgent did]).
Proof.
  intros Hrow Hstatus.
  unfold verifyAgentSignature, mbind, async_bind, await, query.
  rewrite Hrow. cbn [status rowToAgent].
  destruct (is_active (row_status row)) eqn:E; [|reflexivity].
  apply is_active_spec in E. contradiction.
Qed.

Lemma verifyAgentSignature_valid_active (now : Z)
    (did signature message timestamp : string) (s : S) (log : list Call) :
  valid (verifyAgentSignature now did signature message timestamp s log).1.1 = true ->
  exists row, select_agent did s = Data row /\ row_status row = active.
Proof.
  unfold verifyAgentSignature, mbind, async_bind, await, query.
  destruct (select_agent did s) as [row|err].
  - cbn [status rowToAgent]. destruct (is_active (row_status row)) eqn:E.
    + intros _. exists row. split; [reflexivity | now apply is_active_spec].
    + cbn. discriminate.
  - destruct (String.eqb _ _); cbn; discriminate.
Qed.

(** C10. For an agent whose status is not [active] ([suspended] or
    [revoked]), [verifyAgentSignature] answers [valid: false] with the
    error "Agent is <status>" after the one request that fetched the
    agent: the log shows neither the look-up in the replay cache nor the
    call of [verifyRequest], and the client is left as it was.  A valid
    answer is only ever given for an agent with status [active]. *)
Theorem inactive_agent_not_verified (now : Z) (did signature message timestamp : string)
    (s : S) (log : list Call) :
  (forall row,
      select_agent did s = Data row ->
      row_status row <> active ->
      verifyAgentSignature now did signature message timestamp s log
      = ({| valid := false;
            agent := Some (rowToAgent row);
            error := Some ("Agent is " +:+ status_text (row_status row)) |},
         s, log ++ [SelectAgent did]))
  /\ (valid (verifyAgentSignature now did signature message timestamp s log).1.1 = true ->
      exists row, select_agent did s = Data row /\ row_status row = active).
Proof.
  split.
  - intros row. apply verifyAgentSignature_inactive.
  - apply verifyAgentSignature_valid_active.
Qed.

End VerifyFacts.

(** ** The replay cache (verify.ts over the [signature_cache] table) *)

Section ReplayFacts.
Import Postgres Registry.
Context `{Crypto}.

Ltac run_verify :=
  unfold verifyAgentSignature, mbind, async_bind, await, query, command, resolve;
  cbn [select_agent select_cached_signature insert_cached_signature postgres_client].




Lemma recordCreditEvent_cache (did : string) (event : CreditEvent) (db : Db)
    (log : list Call) :
  signature_cache (recordCreditEvent did event db log).1.2 = signature_cache db.
Proof.
  unfold recordCreditEvent, mbind, async_bind, await, command, resolve.
  cbn [rpc_record_credit_event_atomic postgres_client].
  destruct (negb _); [reflexivity|].
  unfold record_credit_event_atomic. cbn [p_did p_type p_amount p_reason p_pr_url].
  destruct (agents db !! did); [|reflexivity].
  unfold integer_add. destruct (in_integer _); [|reflexivity].
  cbn [bind]. destruct (nullable_varchar_500 _); reflexivity.
Qed.

End ReplayFacts.

Section ReplayExamples.
Import Postgres Registry.
Local Open Scope Z_scope.

Lemma inactive_agent_not_verified_witness :
  @verifyAgentSignature toy_crypto _ _ 1704067200000
    "did:web:example.com:agents:suspended"
    sample_signature sample_message "1704067200000" (sample_db 100) []
  = ({| valid := false;
        agent := Some (rowToAgent (to_AgentRow "did:web:example.com:agents:suspended"
                                     (sample_agent suspended 0)));
        error := Some "Agent is suspended" |},
     sample_db 100, [SelectAgent "did:web:example.com:agents:suspended"]).
Proof.
  apply (@inactive_agent_not_verified toy_crypto Db _ 1704067200000
           "did:web:example.com:agents:suspended" sample_signature sample_message
           "1704067200000" (sample_db 100) []).
  - vm_compute. reflexivity.
  - discriminate.
Defined.

End ReplayExamples.

(** ** The credit ledger (credits.ts over [record_credit_event_atomic]) *)

Section CreditFacts.
Import Postgres Registry.
Local Open Scope Z_scope.

Ltac run_credit :=
  unfold recordCreditEvent, mbind, async_bind, await, command, resolve;
  cbn [rpc_record_credit_event_atomic postgres_client p_did p_type p_amount p_reason
       p_pr_url].


(** An event whose sum stays within INTEGER and whose URL the column
    takes is applied: the balance is clamped at 0 and one ledger row
    keeps the raw amount. *)
Lemma recordCreditEvent_applied (did : string) (event : CreditEvent) (db : Db)
    (log : list Call) (row : agents_row) (stored : option string) :
  agents db !! did = Some row ->
  in_integer (amount event) = true ->
  in_integer (Postgres.credits row + amount event) = true ->
  nullable_varchar_500 (or_null (prUrl event)) = Return stored ->
  let balance := Z.max 0 (Postgres.credits row + amount event) in
  let entry :=
    {| ledger_id := uuid_generate_v4 db;
       Postgres.agent_id := id row;
       event_type := type event;
       Postgres.amount := amount event;
       balance_after := balance;
       Postgres.reason := reason event;
       pr_url := stored;
       ledger_created_at := clock db |} in
  recordCreditEvent did event db log
  = (Return (rowToLedgerEntry entry),
     {| agents := <[did := set_credits row balance (clock db)]> (agents db);
        signature_cache := signature_cache db;
        ledger := ledger db ++ [entry];
        clock := clock db |},
     log ++ [RecordCreditEvent
               {| p_did := did; p_type := type event; p_amount := amount event;
                  p_reason := reason event; p_pr_url := or_null (prUrl event) |}]).
Proof.
  intros Hrow Ha Hsum Hurl balance entry. run_credit.
  rewrite Ha. cbn [negb]. unfold record_credit_event_atomic, integer_add.
  rewrite Hrow, Hsum. cbn [bind]. rewrite Hurl. reflexivity.
Qed.



(** Events applied one after the other lose nothing: [n] events of +1
    raise the balance by [n] and write [n] ledger rows. *)
Lemma serial_credit_events (did : string) (n : nat) :
  forall db row,
    agents db !! did = Some row ->
    0 <= Postgres.credits row ->
    Postgres.credits row + Z.of_nat n <= INT_MAX ->
    balance_of (credit_run n did db) did = Some (Postgres.credits row + Z.of_nat n)
    /\ length (ledger (credit_run n did db)) = (length (ledger db) + n)%nat.
Proof.
  induction n as [|n IH]; intros db row Hrow Hpos Hmax.
  - cbn [credit_run]. unfold balance_of. rewrite Hrow. cbn.
    split; [f_equal; lia | lia].
  - cbn [credit_run].
    assert (Hsum : in_integer (Postgres.credits row + amount (credit 1)) = true).
    { unfold in_integer, INT_MIN, INT_MAX in *. cbn [amount credit]. lia. }
    rewrite (recordCreditEvent_applied did (credit 1) db [] row None Hrow eq_refl Hsum eq_refl).
    cbn [fst snd].
    set (db' := {| agents := _ |}).
    set (row' := set_credits row (Z.max 0 (Postgres.credits row + amount (credit 1)))
                   (clock db)).
    assert (Hrow' : agents db' !! did = Some row').
    { unfold db'. cbn [agents]. apply lookup_insert_eq. }
    assert (Hcredits : Postgres.credits row' = Postgres.credits row + 1).
    { unfold row'. cbn [Postgres.credits set_credits amount credit]. lia. }
    destruct (IH db' row' Hrow') as [Hbal Hlen]; [lia | lia |].
    rewrite Hbal, Hlen, Hcredits. unfold db'. cbn [ledger]. rewrite length_app.
    cbn [length]. split; [f_equal; lia | lia].
Qed.

End CreditFacts.

Section CreditExamples.
Import Postgres Registry.
Local Open Scope Z_scope.



(** A [prUrl] of 501 characters: the INSERT raises on the column
    VARCHAR(500), the UPDATE of the balance is undone with it and
    [recordCreditEvent] throws. *)
Lemma credit_event_long_url :
  let event :=
    {| type := pr_merged; amount := 5; reason := "merged";
       prUrl := Some (string_of_chars (repeat "a"%char 501)) |} in
  (@recordCreditEvent Db _ "did:web:example.com" event (sample_db 10) []).1
  = (Throw "Failed to record credit event: value too long for type character varying(500)",
     sample_db 10).
Proof. vm_compute. reflexivity. Qed.

End CreditExamples.

(** ** Further properties of the codecs (packages/did/src/utils.ts) *)

Section CodecFacts.
Import Buffer Keys DidUtils DidBase64.
Local Open Scope N_scope.

(** *** The url-safe base64 helpers of the did package *)

Lemma legal_values_padding (s : string) (n : nat) :
  legal_values (s +:+ repeat_padding n) = legal_values s.
Proof.
  induction s as [|c s IH].
  - destruct n; reflexivity.
  - cbn [String.append legal_values]. rewrite IH. reflexivity.
Qed.

Lemma base64urlToBytes_base64urlDecode (text : string) :
  base64urlToBytes text = base64urlDecode text.
Proof.
  unfold base64urlToBytes, base64urlDecode, from_base64.
  set (base64 := replace_char "_" "/" (replace_char "-" "+" text)).
  f_equal.
  transitivity (legal_values base64).
  - destruct (_ =? 0)%nat; [reflexivity | apply legal_values_padding].
  - symmetry. destruct (_ =? 2)%nat; [|destruct (_ =? 3)%nat].
    + apply (legal_values_padding base64 2).
    + apply (legal_values_padding base64 1).
    + reflexivity.
Qed.

Lemma strip_padding_url_chars (vs : list N) (padding : string) :
  Forall (fun v => v < 64) vs -> all_padding padding = true ->
  strip_padding (string_of_chars (map url_char vs) +:+ padding)
  = string_of_chars (map url_char vs).
Proof.
  intros Hall Hpad. induction vs as [|v vs IH].
  - simpl. destruct padding as [|c rest]; [reflexivity|].
    simpl in *. now rewrite Hpad.
  - inversion Hall as [|? ? Hv Hvs]; subst.
    cbn [map string_of_chars String.append strip_padding].
    rewrite (url_char_not_pad v Hv). cbn [andb]. now rewrite IH.
Qed.

Lemma bytesToBase64url_base64urlEncode (data : list byte) :
  bytesToBase64url data = base64urlEncode data.
Proof.
  rewrite base64urlEncode_sextets.
  unfold bytesToBase64url. rewrite toString_base64_sextets, !replace_char_app.
  assert (Hbody : replace_char "/" "_"
                    (replace_char "+" "-" (string_of_chars (map base64_char (sextets data))))
                  = string_of_chars (map url_char (sextets data))).
  { induction (sextets data) as [|v vs IH]; [reflexivity|].
    cbn [map string_of_chars replace_char]. now rewrite IH. }
  rewrite Hbody.
  assert (Hpad : replace_char "/" "_" (replace_char "+" "-" (padding_of data))
                 = padding_of data)
    by (destruct (padding_of_cases data) as [-> | [-> | ->]]; reflexivity).
  rewrite Hpad. apply strip_padding_url_chars; [apply sextets_lt|].
  destruct (padding_of_cases data) as [-> | [-> | ->]]; reflexivity.
Qed.

(** X1. The did package and the crypto package carry their own url-safe
    base64 codecs; they are the same functions.  [bytesToBase64url]
    writes what [base64urlEncode] writes, [base64urlToBytes] reads every
    text as [base64urlDecode] does (the padding they add differs, the
    platform decoder stops at it), and so each decoder inverts each
    encoder on every byte string. *)
Theorem did_base64url_agrees_with_crypto (data : list byte) (text : string) :
  bytesToBase64url data = base64urlEncode data
  /\ base64urlToBytes text = base64urlDecode text
  /\ base64urlToBytes (bytesToBase64url data) = data
  /\ base64urlToBytes (base64urlEncode data) = data
  /\ base64urlDecode (bytesToBase64url data) = data.
Proof.
  split; [apply bytesToBase64url_base64urlEncode|].
  split; [apply base64urlToBytes_base64urlDecode|].
  rewrite bytesToBase64url_base64urlEncode, base64urlToBytes_base64urlDecode.
  split; [|split]; apply base64url_roundtrip.
Qed.

(** *** Base58: the decoder accepts one spelling per byte string *)

Lemma index_from_get (c : ascii) (s : string) :
  forall i d, index_from c s i = Some d -> String.get (N.to_nat (d - i)) s = Some c.
Proof.
  induction s as [|a s IH]; intros i d H; simpl in H; [discriminate|].
  destruct (Ascii.eqb a c) eqn:E.
  - injection H as <-. apply Ascii.eqb_eq in E as ->.
    rewrite N.sub_diag. reflexivity.
  - pose proof (index_from_range _ _ _ _ H) as Hrange.
    apply IH in H.
    replace (N.to_nat (d - i)) with (Datatypes.S (N.to_nat (d - (i + 1)))) by lia.
    exact H.
Qed.

Lemma alphabet_at_indexOf (c : ascii) (d : N) : indexOf c = Some d -> alphabet_at d = c.
Proof.
  intros H. apply index_from_get in H. rewrite N.sub_0_r in H.
  unfold alphabet_at. now rewrite H.
Qed.

(** The text that [decode_loop] reads is the spelling of its digits. *)
Lemma decode_loop_spelling (str : string) :
  forall num n,
    decode_loop str num = Return n ->
    exists ds, Forall (fun d => d < 58) ds
               /\ str = string_of_chars (map alphabet_at ds)
               /\ n = Radix.of_digits_from 58 num ds.
Proof.
  induction str as [|c str IH]; intros num n H; simpl in H.
  - injection H as <-. exists []. split; [constructor | split; reflexivity].
  - destruct (indexOf c) as [d|] eqn:E; [|discriminate].
    destruct (IH _ _ H) as (ds & Hall & Hstr & ->).
    exists (d :: ds). split; [|split].
    + constructor; [eapply indexOf_lt, E | exact Hall].
    + cbn [map string_of_chars]. now rewrite (alphabet_at_indexOf c d E), <- Hstr.
    + reflexivity.
Qed.

Lemma split_leading_zero_digits (ds : list N) :
  exists k rest, ds = repeat 0 k ++ rest /\ Radix.canonical rest.
Proof.
  induction ds as [|d ds (k & rest & -> & Hrest)].
  - exists O, []. split; [reflexivity | exact I].
  - destruct (N.eq_dec d 0) as [->|Hd].
    + exists (Datatypes.S k), rest. split; [reflexivity | exact Hrest].
    + exists O, (d :: repeat 0 k ++ rest). split; [reflexivity | exact Hd].
Qed.

Lemma map_to_N_byte_of_N (ns : list N) :
  Forall (fun n => n < 256) ns -> map Byte.to_N (map byte_of_N ns) = ns.
Proof.
  induction ns as [|n ns IH]; intros Hall; [reflexivity|].
  inversion Hall as [|? ? Hn Hns]; subst. simpl.
  now rewrite (to_byte_of_N n Hn), (IH Hns).
Qed.

Lemma no_leading_zero_byte_of_N (ns : list N) :
  Forall (fun n => n < 256) ns -> Radix.canonical ns ->
  no_leading_zero (map byte_of_N ns).
Proof.
  destruct ns as [|n ns]; [trivial|]. intros Hall Hn. simpl in *.
  inversion Hall as [|? ? Hlt _]; subst.
  intros Hz. apply Hn. rewrite <- (to_byte_of_N n Hlt), Hz. reflexivity.
Qed.

(** A text that the decoder accepts is the encoding of the bytes it
    returns. *)
Lemma decodeBase58_encodeBase58 (str : string) (bytes : list byte) :
  decodeBase58 str = Return bytes -> encodeBase58 bytes = str.
Proof.
  destruct str as [|c0 str0]; [intros [= <-]; reflexivity|].
  remember (String c0 str0) as str eqn:Hstr0.
  assert (Hne : str <> "") by (subst; discriminate).
  rewrite (decodeBase58_nonempty str Hne).
  set (fuel := (6 * String.length str)%nat).
  destruct (decode_loop str 0) as [num|] eqn:Hloop; [|discriminate].
  cbn [bind]. intros [= <-].
  destruct (decode_loop_spelling _ _ _ Hloop) as (ds & Hds & Hstr & Hnum).
  fold (Radix.of_digits 58 ds) in Hnum.
  destruct (split_leading_zero_digits ds) as (k & ds' & -> & Hcan).
  apply Forall_app in Hds as [_ Hds'].
  rewrite of_digits_leading_zeros in Hnum.
  assert (Hspell : str = string_of_chars (repeat (alphabet_at 0) k)
                           +:+ string_of_chars (map alphabet_at ds')).
  { rewrite Hstr, map_app, string_of_chars_app, map_repeat. reflexivity. }
  assert (Hlen : String.length str = (k + length ds')%nat).
  { rewrite Hstr, string_of_chars_length, length_map, length_app, repeat_length.
    reflexivity. }
  replace (count_leading_ones str) with k
    by (rewrite Hspell; symmetry; apply (count_leading_ones_spec k ds' Hds' Hcan)).
  set (octets := Radix.to_digits 256 fuel num []).
  assert (Hbound : num < 2 ^ N.of_nat fuel).
  { rewrite Hnum. unfold fuel.
    eapply N.lt_le_trans; [apply base58_digits_bound, Hds'|].
    apply N.pow_le_mono_r; lia. }
  assert (Hoct_lt : Forall (fun d => d < 256) octets).
  { apply to_digits_lt; [lia | constructor]. }
  assert (Hoct_can : Radix.canonical octets)
    by (apply to_digits_canonical; [lia | exact Hbound]).
  assert (Hoct_num : Radix.of_digits 256 octets = num)
    by (apply of_to_digits; [lia | exact Hbound]).
  rewrite map_app, map_repeat, byte_of_to_N_zero.
  set (bytes := repeat x00 k ++ map byte_of_N octets).
  assert (Hvalue : bytes_to_bigint bytes = num).
  { unfold bytes. rewrite bytes_to_bigint_digits, map_app, map_repeat.
    change (Byte.to_N x00) with 0.
    rewrite (map_to_N_byte_of_N octets Hoct_lt), of_digits_leading_zeros.
    exact Hoct_num. }
  assert (Hbytes : bytes <> []).
  { intros Hnil. unfold bytes in Hnil. apply app_eq_nil in Hnil as [Hk Ho].
    destruct k; [|discriminate].
    assert (Hzero : num = 0).
    { rewrite <- Hvalue. unfold bytes. rewrite Ho. reflexivity. }
    destruct ds' as [|d ds'].
    - simpl in Hspell. contradiction.
    - pose proof (of_digits_canonical_pos 58 ltac:(lia) (d :: ds') ltac:(discriminate) Hcan).
      lia. }
  rewrite (encodeBase58_nonempty bytes Hbytes), Hvalue, encode_loop_digits.
  rewrite string_app_nil_r.
  assert (Hdigits : Radix.to_digits 58 (8 * length bytes) num [] = ds').
  { rewrite Hnum. apply to_of_digits; [lia | exact Hds' | exact Hcan |].
    rewrite <- Hnum, <- Hoct_num.
    eapply N.lt_le_trans; [apply of_digits_bound; [lia | exact Hoct_lt]|].
    unfold bytes. rewrite length_app, length_map, repeat_length.
    rewrite Nat2N.inj_mul, N.pow_mul_r. change (2 ^ N.of_nat 8) with 256.
    apply N.pow_le_mono_r; lia. }
  rewrite Hdigits. unfold bytes.
  rewrite add_leading_ones_spec by (apply no_leading_zero_byte_of_N; assumption).
  symmetry. exact Hspell.
Qed.

(** X2. Base58 has one spelling per byte string: every text that
    [decodeBase58] accepts is the text that [encodeBase58] writes for the
    bytes returned, and the encoder uses the 58 characters of the
    alphabet only (never 0, O, I or l).  With the round trip the other
    way, the two functions are inverse bijections between byte strings
    and the texts over the alphabet. *)
Theorem base58_one_spelling :
  (forall str bytes, decodeBase58 str = Return bytes -> encodeBase58 bytes = str)
  /\ (forall bytes, first_invalid_base58 (encodeBase58 bytes) = None)
  /\ (forall str, first_invalid_base58 str = None ->
        exists bytes, decodeBase58 str = Return bytes /\ encodeBase58 bytes = str).
Proof.
  split; [exact decodeBase58_encodeBase58|].
  assert (Hdecodes : forall str, first_invalid_base58 str = None ->
                       exists bytes, decodeBase58 str = Return bytes).
  { intros str Hvalid.
    destruct str as [|c0 str0]; [exists []; reflexivity|].
    remember (String c0 str0) as str eqn:Hstr0.
    assert (Hne : str <> "") by (subst; discriminate).
    rewrite (decodeBase58_nonempty str Hne).
    assert (Hloop : forall s num, first_invalid_base58 s = None ->
                      exists n, decode_loop s num = Return n).
    { clear. induction s as [|c s IH]; intros num H; simpl in *; [eauto|].
      destruct (indexOf c); [apply IH, H | discriminate]. }
    destruct (Hloop str 0 Hvalid) as (n & ->). cbn [bind]. eauto. }
  split.
  - intros bytes. destruct (first_invalid_base58 (encodeBase58 bytes)) as [c|] eqn:E;
      [|reflexivity].
    pose proof (decodeBase58_first_invalid (encodeBase58 bytes)) as Hinv.
    rewrite base58_roundtrip, E in Hinv. discriminate.
  - intros str Hvalid. destruct (Hdecodes str Hvalid) as (bytes & Hdec).
    exists bytes. split; [exact Hdec | now apply decodeBase58_encodeBase58].
Qed.

Lemma base58_one_spelling_witness :
  decodeBase58 "15Q" = Return [x00; xff] /\ encodeBase58 [x00; xff] = "15Q".
Proof.
  split; [vm_compute; reflexivity|].
  destruct base58_one_spelling as [H _]. apply H. vm_compute. reflexivity.
Defined.

(** *** Multibase keys *)

Lemma encodeBase58_inj (a b : list byte) : encodeBase58 a = encodeBase58 b -> a = b.
Proof.
  intros E. assert (H : Return (A := list byte) a = Return b)
    by (rewrite <- (base58_roundtrip a), <- (base58_roundtrip b), E; reflexivity).
  now injection H.
Qed.

Lemma tagged_bytes (decoded : list byte) :
  byte_at_is decoded 0 xed = true -> byte_at_is decoded 1 x01 = true ->
  decoded = xed :: x01 :: skipn 2 decoded.
Proof.
  destruct decoded as [|a [|b rest]]; simpl; try discriminate.
  unfold byte_at_is; simpl. intros Ha Hb.
  apply byte_eqb_eq in Ha, Hb. now subst.
Qed.

(** What [multibaseToPublicKey] accepts is what [publicKeyToMultibase]
    writes for the key it returns. *)
Lemma multibaseToPublicKey_spelling (multibase : string) (key : list byte) :
  multibaseToPublicKey multibase = Return key -> publicKeyToMultibase key = multibase.
Proof.
  unfold multibaseToPublicKey, publicKeyToMultibase.
  destruct (startsWith "z" multibase) eqn:Hz; [|discriminate]. cbn [negb].
  apply startsWith_inv in Hz as [rest ->]. cbn [drop_chars String.append].
  destruct (decodeBase58 rest) as [decoded|] eqn:Hdec; [|discriminate].
  cbn [bind].
  destruct (length decoded <? 34)%nat; [discriminate|].
  destruct (byte_at_is decoded 0 xed) eqn:H0; [|discriminate].
  destruct (byte_at_is decoded 1 x01) eqn:H1; [|discriminate].
  cbn [negb orb]. intros [= <-].
  rewrite <- (tagged_bytes decoded H0 H1).
  now rewrite (decodeBase58_encodeBase58 rest decoded Hdec).
Qed.

(** X3. A key has exactly one multibase spelling.  Whenever
    [multibaseToPublicKey] returns a key, the text it was given is the
    text that [publicKeyToMultibase] writes for that key; and
    [publicKeyToMultibase] gives different texts to different keys, of
    any length. *)
Theorem multibase_one_spelling :
  (forall multibase key,
      multibaseToPublicKey multibase = Return key ->
      publicKeyToMultibase key = multibase)
  /\ (forall key key',
        publicKeyToMultibase key = publicKeyToMultibase key' -> key = key').
Proof.
  split; [exact multibaseToPublicKey_spelling|].
  intros key key'. unfold publicKeyToMultibase.
  assert (Hz : forall a b : string, "z" +:+ a = "z" +:+ b -> a = b)
    by (intros a b [= ->]; reflexivity).
  intros E. apply Hz, encodeBase58_inj in E. congruence.
Qed.

Lemma multibase_one_spelling_witness :
  multibaseToPublicKey "z6MkhHrTbtosB4xyyJM217fS4ry35F7JhZ5oA9uVHErBJDL5"
  = Return (repeat x2a 32)
  /\ publicKeyToMultibase (repeat x2a 32)
     = "z6MkhHrTbtosB4xyyJM217fS4ry35F7JhZ5oA9uVHErBJDL5".
Proof.
  split; [vm_compute; reflexivity|].
  destruct multibase_one_spelling as [H _]. apply H. vm_compute. reflexivity.
Defined.

End CodecFacts.

(** ** DID generation and DID documents
       (packages/did/src/generate.ts, document.ts, utils.ts) *)

Section GenerateFacts.
Import DidUtils Resolve Generate.

Lemma split_not_nil (sep : ascii) (s : string) : split sep s <> [].
Proof.
  destruct s as [|c s]; simpl; [discriminate|].
  destruct (Ascii.eqb c sep); [discriminate|].
  destruct (split sep s); discriminate.
Qed.

(** The pieces of a text hold no character that the text does not. *)
Lemma split_parts_without (c sep : ascii) (s : string) :
  occurs c s = false -> Forall (fun p => occurs c p = false) (split sep s).
Proof.
  induction s as [|a s IH]; intros H.
  - repeat constructor.
  - simpl in H. apply orb_false_iff in H as [Ha Hs]. specialize (IH Hs).
    simpl. destruct (Ascii.eqb a sep).
    + constructor; [reflexivity | exact IH].
    + destruct (split sep s) as [|first others].
      * repeat constructor. simpl. now rewrite Ha.
      * inversion IH as [|? ? Hfirst Hothers]; subst.
        constructor; [|exact Hothers]. simpl. now rewrite Ha, Hfirst.
Qed.

Lemma split_all_chars (p : ascii -> bool) (sep : ascii) (s : string) :
  all_chars (fun c => p c || Ascii.eqb c sep) s = true ->
  Forall (fun part => all_chars p part = true) (split sep s).
Proof.
  induction s as [|a s IH]; intros H.
  - repeat constructor.
  - simpl in H. apply andb_true_iff in H as [Ha Hs]. specialize (IH Hs).
    simpl. destruct (Ascii.eqb a sep) eqn:E.
    + constructor; [reflexivity | exact IH].
    + rewrite orb_false_r in Ha.
      destruct (split sep s) as [|first others].
      * repeat constructor. simpl. now rewrite Ha.
      * inversion IH as [|? ? Hfirst Hothers]; subst.
        constructor; [|exact Hothers]. simpl. now rewrite Ha, Hfirst.
Qed.

Lemma Forall_filter {A : Type} (P : A -> Prop) (keep : A -> bool) (l : list A) :
  Forall P l -> Forall P (List.filter keep l).
Proof.
  induction 1 as [|x l Hx _ IH]; simpl; [constructor|].
  destruct (keep x); [constructor|]; assumption.
Qed.

Lemma filter_non_empty_id (segments : list string) :
  Forall (fun s => s <> "") segments -> List.filter non_empty segments = segments.
Proof.
  induction 1 as [|s l Hs _ IH]; simpl; [reflexivity|].
  destruct s; [contradiction|]. simpl. now rewrite IH.
Qed.

Lemma split_trailing_sep (sep : ascii) (s : string) :
  split sep (s +:+ String sep "") = split sep s ++ [""].
Proof.
  induction s as [|c s IH]; simpl.
  - now rewrite Ascii.eqb_refl.
  - rewrite IH. destruct (Ascii.eqb c sep); [reflexivity|].
    pose proof (split_not_nil sep s) as Hne.
    destruct (split sep s); [contradiction | reflexivity].
Qed.

Lemma filter_non_empty_app (xs ys : list string) :
  List.filter non_empty (xs ++ ys) = List.filter non_empty xs ++ List.filter non_empty ys.
Proof. apply List.filter_app. Qed.

(** The DID is "did:web:" before the domain and the segments, joined by
    colons. *)
Lemma generateDID_form (domain : string) (path : option string) :
  generateDID domain path
  = "did:web:" +:+ join ":" (strip_protocol domain :: path_segments path).
Proof.
  unfold generateDID, path_segments.
  destruct path as [[|c p]|]; try reflexivity.
  destruct (List.filter non_empty (split "/" (String c p))) as [|s ss]; [reflexivity|].
  change (join ":" (strip_protocol domain :: s :: ss))
    with (strip_protocol domain +:+ ":" +:+ join ":" (s :: ss)).
  now rewrite string_app_assoc.
Qed.

Lemma path_segments_join (segments : list string) :
  Forall (fun s => s <> "" /\ occurs "/" s = false) segments ->
  path_segments (Some (join "/" segments)) = segments.
Proof.
  intros Hall. unfold path_segments.
  assert (Hne : Forall (fun s => s <> "") segments)
    by (eapply Forall_impl; [exact Hall | intros s [Hs _]; exact Hs]).
  assert (Hsl : Forall (fun s => occurs "/" s = false) segments)
    by (eapply Forall_impl; [exact Hall | intros s [_ Hs]; exact Hs]).
  destruct segments as [|s ss]; [reflexivity|].
  rewrite (split_join "/" (s :: ss)); [|discriminate | exact Hsl].
  now apply filter_non_empty_id.
Qed.

(** X4. [generateDID] reads a path by its non-empty segments only.  For
    segments that are non-empty and hold no slash, the path made of them
    gives "did:web:" followed by the domain (without its protocol) and
    the segments, joined by colons, and a slash in front of the path or
    after it changes nothing; "https://" and "http://" in front of a
    domain give the same DID. *)
Theorem generateDID_segments (domain : string) (segments : list string) :
  Forall (fun s => s <> "" /\ occurs "/" s = false) segments ->
  let did := "did:web:" +:+ join ":" (strip_protocol domain :: segments) in
  generateDID domain (Some (join "/" segments)) = did
  /\ generateDID domain (Some ("/" +:+ join "/" segments)) = did
  /\ generateDID domain (Some (join "/" segments +:+ "/")) = did
  /\ (segments = [] -> generateDID domain None = did)
  /\ generateDID ("https://" +:+ domain) (Some (join "/" segments))
     = generateDID ("http://" +:+ domain) (Some (join "/" segments)).
Proof.
  intros Hall did. unfold did. rewrite !generateDID_form.
  pose proof (path_segments_join segments Hall) as Hsegs.
  split; [now rewrite Hsegs|].
  split.
  { unfold path_segments in *.
    change (split "/" ("/" +:+ join "/" segments))
      with ("" :: split "/" (join "/" segments)).
    cbn [List.filter non_empty]. now rewrite Hsegs. }
  split.
  { unfold path_segments in *.
    rewrite split_trailing_sep, filter_non_empty_app, Hsegs.
    cbn [List.filter non_empty]. now rewrite app_nil_r. }
  split; [intros ->; reflexivity|].
  reflexivity.
Qed.

Lemma generateDID_segments_witness :
  generateDID "https://example.com" (Some "agents/claude-001")
  = "did:web:example.com:agents:claude-001"
  /\ generateDID "https://example.com" (Some "/agents/claude-001")
     = "did:web:example.com:agents:claude-001".
Proof.
  destruct (generateDID_segments "https://example.com" ["agents"; "claude-001"])
    as (H1 & H2 & _).
  - repeat constructor; discriminate.
  - split; [exact H1 | exact H2].
Defined.

(** X5. The DID that [generateDID] makes points back at the place it
    was made for: when the domain (without its protocol) and the path
    hold no colon, [getWellKnownUrl] maps the DID to
    [https://<domain>/<segments joined by slashes>/did.json], and to
    [https://<domain>/.well-known/did.json] when the path leaves no
    segment. *)
Theorem generateDID_well_known_url (domain : string) (path : option string) :
  occurs ":" (strip_protocol domain) = false ->
  (forall p, path = Some p -> occurs ":" p = false) ->
  getWellKnownUrl (generateDID domain path)
  = Return ("https://" +:+ strip_protocol domain
              +:+ well_known_path (path_segments path)).
Proof.
  intros Hdomain Hpath. rewrite generateDID_form.
  assert (Hsegs : Forall (fun p => occurs ":" p = false) (path_segments path)).
  { unfold path_segments. destruct path as [p|]; [|constructor].
    apply Forall_filter, split_parts_without, Hpath. reflexivity. }
  destruct (path_segments path) as [|s ss] eqn:E.
  - apply (getWellKnownUrl_root _ Hdomain).
  - rewrite getWellKnownUrl_path; [reflexivity | discriminate|].
    constructor; assumption.
Qed.

Lemma generateDID_well_known_url_witness :
  getWellKnownUrl (generateDID "https://example.com" (Some "/agents//claude/"))
  = Return "https://example.com/agents/claude/did.json".
Proof.
  apply (generateDID_well_known_url "https://example.com" (Some "/agents//claude/")).
  - reflexivity.
  - intros p [= <-]. reflexivity.
Defined.

Lemma all_chars_app (p : ascii -> bool) (a b : string) :
  all_chars p (a +:+ b) = all_chars p a && all_chars p b.
Proof.
  induction a as [|c a IH]; simpl; [reflexivity|].
  now rewrite IH, andb_assoc.
Qed.

Lemma all_chars_join (p : ascii -> bool) (sep : ascii) (parts : list string) :
  p sep = true ->
  Forall (fun part => all_chars p part = true) parts ->
  all_chars p (join (String sep "") parts) = true.
Proof.
  intros Hsep. induction 1 as [|part parts Hpart _ IH]; [reflexivity|].
  destruct parts as [|q parts]; [exact Hpart|].
  change (join (String sep "") (part :: q :: parts))
    with (part +:+ String sep "" +:+ join (String sep "") (q :: parts)).
  rewrite !all_chars_app, Hpart, IH. simpl. now rewrite Hsep.
Qed.

Lemma join_not_empty (sep first : string) (rest : list string) :
  first <> "" -> join sep (first :: rest) <> "".
Proof.
  destruct first as [|c first]; [congruence|]. intros _.
  destruct rest; simpl; discriminate.
Qed.

(** X6. A domain and a path over the identifier alphabet give a DID that
    [isValidDID] accepts: the domain (without its protocol) is not empty
    and holds letters, digits and [._:%-] only, the path these and
    slashes. *)
Theorem generateDID_isValidDID (domain : string) (path : option string) :
  strip_protocol domain <> "" ->
  all_chars id_char (strip_protocol domain) = true ->
  (forall p, path = Some p ->
     all_chars (fun c => id_char c || Ascii.eqb c "/"%char) p = true) ->
  isValidDID (generateDID domain path) = true
  /\ startsWith "did:web:" (generateDID domain path) = true.
Proof.
  intros Hne Hdomain Hpath. rewrite generateDID_form.
  split; [|apply startsWith_app].
  apply isValidDID_spec. exists "web", (join ":" (strip_protocol domain :: path_segments path)).
  split; [reflexivity|]. split; [discriminate|]. split; [reflexivity|].
  split; [now apply join_not_empty|].
  apply all_chars_join; [reflexivity|].
  constructor; [exact Hdomain|].
  unfold path_segments. destruct path as [p|]; [|constructor].
  apply Forall_filter, split_all_chars, Hpath. reflexivity.
Qed.

Lemma generateDID_isValidDID_witness :
  isValidDID (generateDID "example.com" (Some "agents/claude-001")) = true.
Proof.
  apply (generateDID_isValidDID "example.com" (Some "agents/claude-001")).
  - discriminate.
  - reflexivity.
  - intros p [= <-]. reflexivity.
Defined.

End GenerateFacts.

Section DocumentFacts.
Import DidUtils DidBase64 Document.

(** The multibase form of a key reads back as the key when it has at
    least 32 bytes, and is refused otherwise. *)
Lemma multibaseToPublicKey_publicKeyToMultibase (key : list byte) :
  multibaseToPublicKey (publicKeyToMultibase key)
  = if (length key <? 32)%nat then Throw invalid_multicodec_prefix else Return key.
Proof.
  unfold multibaseToPublicKey, publicKeyToMultibase.
  rewrite startsWith_z. cbn [negb drop_chars String.append].
  rewrite base58_roundtrip. cbn [bind length].
  change (byte_at_is (xed :: x01 :: key) 0 xed) with true.
  change (byte_at_is (xed :: x01 :: key) 1 x01) with true.
  cbn [negb orb]. rewrite !orb_false_r.
  change (skipn 2 (xed :: x01 :: key)) with key.
  destruct (length key <? 32)%nat eqn:E.
  - apply Nat.ltb_lt in E.
    replace (S (S (length key)) <? 34)%nat with true
      by (symmetry; apply Nat.ltb_lt; lia).
    reflexivity.
  - apply Nat.ltb_ge in E.
    replace (S (S (length key)) <? 34)%nat with false
      by (symmetry; apply Nat.ltb_ge; lia).
    reflexivity.
Qed.

(** X7. The key put into a DID document comes out of it.  The document
    of [createDIDDocument] has one verification method, named
    [<did>#key-1], which [authentication] and [assertionMethod] refer to,
    and [extractPublicKey] returns from it the bytes that the [publicKey]
    option spells, provided they are at least 32; for a shorter key the
    document is made all the same and the extraction throws "Invalid
    Ed25519 multicodec prefix".  In particular a 32-byte key exported by
    either package comes back. *)
Theorem extractPublicKey_createDIDDocument (options : DIDOptions) :
  let document := createDIDDocument options in
  let key := base64urlToBytes (publicKey options) in
  id document = Generate.generateDID (domain options) (path options)
  /\ map vm_id (verificationMethod document) = [id document +:+ "#key-1"]
  /\ authentication document = [id document +:+ "#key-1"]
  /\ assertionMethod document = [id document +:+ "#key-1"]
  /\ extractPublicKey document
     = (if (length key <? 32)%nat then Throw invalid_multicodec_prefix else Return key)
  /\ (forall bytes,
        length bytes = 32%nat ->
        publicKey options = Keys.base64urlEncode bytes
        \/ publicKey options = bytesToBase64url bytes ->
        extractPublicKey document = Return bytes).
Proof.
  intros document key.
  assert (Hextract : extractPublicKey document
                     = if (length key <? 32)%nat
                       then Throw invalid_multicodec_prefix else Return key)
    by apply multibaseToPublicKey_publicKeyToMultibase.
  do 4 (split; [reflexivity|]).
  split; [exact Hextract|].
  intros bytes Hlen Hspelt. rewrite Hextract.
  assert (Hkey : key = bytes).
  { unfold key. destruct Hspelt as [-> | ->].
    - rewrite base64urlToBytes_base64urlDecode. apply base64url_roundtrip.
    - rewrite bytesToBase64url_base64urlEncode, base64urlToBytes_base64urlDecode.
      apply base64url_roundtrip. }
  rewrite Hkey, Hlen. reflexivity.
Qed.

Lemma extractPublicKey_createDIDDocument_witness :
  extractPublicKey
    (createDIDDocument
       {| domain := "example.com";
          path := Some "agents/claude-001";
          publicKey := Keys.base64urlEncode (repeat x2a 32);
          options_controller := None;
          serviceEndpoints := None |})
  = Return (repeat x2a 32).
Proof.
  apply (extractPublicKey_createDIDDocument
           {| domain := "example.com";
              path := Some "agents/claude-001";
              publicKey := Keys.base64urlEncode (repeat x2a 32);
              options_controller := None;
              serviceEndpoints := None |}).
  - reflexivity.
  - left. reflexivity.
Defined.

End DocumentFacts.

(** ** The helpers of the command line (packages/cli/src/utils.ts) *)

Section CliFacts.
Import DidUtils CliUtils.

Lemma cli_id_char_id_char (c : ascii) : CliUtils.id_char c = true -> DidUtils.id_char c = true.
Proof.
  unfold CliUtils.id_char, DidUtils.id_char. intros H.
  repeat (apply orb_true_iff in H as [H | H]);
    rewrite H, ?orb_true_r; reflexivity.
Qed.

Lemma all_chars_mono (p q : ascii -> bool) (s : string) :
  (forall c, p c = true -> q c = true) ->
  all_chars p s = true -> all_chars q s = true.
Proof.
  intros Hpq. induction s as [|c s IH]; simpl; [reflexivity|].
  intros H. apply andb_true_iff in H as [Hc Hs].
  now rewrite (Hpq c Hc), (IH Hs).
Qed.

Lemma cli_match_method (s : string) :
  forall seen, CliUtils.match_method s seen = true -> DidUtils.match_method s seen = true.
Proof.
  induction s as [|c s IH]; intros seen H; simpl in *; [discriminate|].
  unfold method_char. destruct (is_lower c) eqn:Hl; cbn [orb].
  - apply IH, H.
  - destruct (Ascii.eqb c ":") eqn:Hc; [|discriminate].
    apply Ascii.eqb_eq in Hc. subst c. cbn.
    apply andb_true_iff in H as [H Hall]. rewrite H. cbn [andb].
    apply (all_chars_mono _ _ _ cli_id_char_id_char Hall).
Qed.

(** X9. The check of the command line is the stricter one: every text
    that [isValidDIDFormat] accepts, [isValidDID] of the did package
    accepts.  Not the other way round: the library admits digits in the
    method and [%] in the identifier, as in "did:web3:a%20b". *)
Theorem isValidDIDFormat_isValidDID :
  (forall did, isValidDIDFormat did = true -> isValidDID did = true)
  /\ isValidDID "did:web3:a%20b" = true
  /\ isValidDIDFormat "did:web3:a%20b" = false
  /\ isValidDIDFormat "did:web:a%20b" = false.
Proof.
  split; [|split; [|split]; reflexivity].
  intros did. unfold isValidDIDFormat, isValidDID. intros H.
  apply andb_true_iff in H as [-> H]. cbn [andb].
  apply cli_match_method, H.
Qed.

Lemma isValidDIDFormat_isValidDID_witness :
  isValidDIDFormat "did:web:example.com:agent" = true
  /\ isValidDID "did:web:example.com:agent" = true.
Proof.
  split; [reflexivity|].
  destruct isValidDIDFormat_isValidDID as [H _].
  apply (H "did:web:example.com:agent"). reflexivity.
Defined.

Lemma substring_length (s : string) :
  forall n m, (n + m <= String.length s)%nat -> String.length (String.substring n m s) = m.
Proof.
  induction s as [|c s IH]; intros n m H; simpl in H.
  - assert (n = O) by lia. assert (m = O) by lia. subst. reflexivity.
  - destruct n as [|n]; [destruct m as [|m]|]; simpl; [reflexivity | |].
    + rewrite (IH O m); [reflexivity | lia].
    + apply IH. lia.
Qed.

Lemma substring_all (s : string) : String.substring 0 (String.length s) s = s.
Proof. induction s as [|c s IH]; simpl; [reflexivity | now rewrite IH]. Qed.

(** X10. [formatDID] keeps a DID that fits and cuts a longer one to the
    length asked for: for an integer [maxLength] of at least 4 the
    result has exactly [maxLength] characters, the first
    [floor((maxLength - 3) / 2)] and the last [ceil((maxLength - 3) / 2)]
    of the DID around "...".  At [maxLength] 3 nothing is cut: [slice(-0)]
    is the whole text and the result is the DID behind "...", longer than
    the DID itself. *)
Theorem formatDID_length (did : string) (maxLength : Z) :
  let len := Z.of_nat (String.length did) in
  ((len <= maxLength)%Z -> formatDID did maxLength = did)
  /\ ((4 <= maxLength < len)%Z ->
      Z.of_nat (String.length (formatDID did maxLength)) = maxLength
      /\ formatDID did maxLength
         = String.substring 0 (Z.to_nat ((maxLength - 3) / 2)) did +:+ "..."
             +:+ String.substring (Z.to_nat (len - (maxLength - 2) / 2))
                   (Z.to_nat ((maxLength - 2) / 2)) did)
  /\ ((3 < len)%Z -> formatDID did 3 = "..." +:+ did).
Proof.
  intros len. unfold formatDID. fold len. split; [|split].
  - intros H. apply Z.leb_le in H. now rewrite H.
  - intros [Hmin Hmax].
    replace (len <=? maxLength)%Z with false by (symmetry; apply Z.leb_gt; lia).
    replace (maxLength - 3 + 1)%Z with (maxLength - 2)%Z by lia.
    set (start := ((maxLength - 3) / 2)%Z).
    set (end_ := ((maxLength - 2) / 2)%Z).
    assert (Hstart : (0 <= start /\ start + end_ = maxLength - 3 /\ 1 <= end_)%Z)
      by (unfold start, end_; divlia).
    assert (Hfirst : slice did 0 start = String.substring 0 (Z.to_nat start) did).
    { unfold slice, slice_index. fold len.
      replace (0 <? 0)%Z with false by reflexivity.
      replace (start <? 0)%Z with false by (symmetry; apply Z.ltb_ge; lia).
      rewrite Z.min_l by lia. rewrite Z.min_l by lia.
      now rewrite Z.sub_0_r. }
    assert (Hlast : slice_from did (- end_)
                    = String.substring (Z.to_nat (len - end_)) (Z.to_nat end_) did).
    { unfold slice_from, slice, slice_index. fold len.
      replace (- end_ <? 0)%Z with true by (symmetry; apply Z.ltb_lt; lia).
      replace (len <? 0)%Z with false by (symmetry; apply Z.ltb_ge; lia).
      rewrite Z.max_l by lia. rewrite Z.min_l by lia.
      do 2 f_equal. lia. }
    rewrite Hfirst, Hlast. split; [|reflexivity].
    rewrite !string_length_app, !substring_length by (unfold len in *; lia).
    simpl String.length. lia.
  - intros Hlen.
    replace (len <=? 3)%Z with false by (symmetry; apply Z.leb_gt; lia).
    change ((3 - 3 + 1) / 2)%Z with 0%Z. change ((3 - 3) / 2)%Z with 0%Z.
    unfold slice_from, slice, slice_index. fold len.
    change (- 0)%Z with 0%Z.
    replace (0 <? 0)%Z with false by reflexivity.
    replace (len <? 0)%Z with false by (symmetry; apply Z.ltb_ge; lia).
    rewrite !Z.min_l by lia.
    change (Z.to_nat (0 - 0)) with O. change (Z.to_nat 0) with O.
    rewrite Z.sub_0_r. unfold len. rewrite Nat2Z.id, substring_all.
    destruct did; reflexivity.
Qed.

Lemma formatDID_length_witness :
  formatDID "did:web:example.com:very:long:path" 20 = "did:web:...long:path"
  /\ formatDID "did:web:example.com" 3 = "...did:web:example.com".
Proof.
  split.
  - destruct (formatDID_length "did:web:example.com:very:long:path" 20) as (_ & H & _).
    destruct H as [_ H]; [simpl; lia|]. rewrite H. reflexivity.
  - destruct (formatDID_length "did:web:example.com" 3) as (_ & _ & H).
    apply H. simpl. lia.
Defined.

End CliFacts.

(** ** Further properties of request verification
       (packages/crypto/src/request.ts) *)

Section RequestSoundness.
Import Request Keys JsNumber.
Context `{Crypto}.
Local Open Scope Z_scope.

Lemma missing_false (value : option string) :
  missing value = false -> exists v, value = Some v /\ v <> "".
Proof.
  destruct value as [[|c v]|]; try discriminate.
  intros _. exists (String c v). split; [reflexivity | discriminate].
Qed.

(** What a valid answer of [verifyRequest] stands for. *)
Lemma verifyRequest_valid_inv (now : Z) (headers : list (string * string))
    (publicKey : list byte) (body : option string) (toleranceMs : Z) :
  valid (verifyRequest now headers publicKey body toleranceMs) = true ->
  exists signature timestamp t,
    getHeader headers "X-Agent-Signature" = Some signature /\ signature <> ""
    /\ getHeader headers "X-Agent-Timestamp" = Some timestamp /\ timestamp <> ""
    /\ parseInt timestamp 10 = Some t
    /\ Z.abs (now - t) <= toleranceMs
    /\ verifySignature
         (utf8_encode_units (createCanonicalString now (reconstructed headers body t)))
         (base64urlDecode signature) publicKey = true.
Proof.
  unfold verifyRequest.
  destruct (missing (getHeader headers "X-Agent-Signature")) eqn:Hs; [discriminate|].
  destruct (missing (getHeader headers "X-Agent-Timestamp")) eqn:Ht; [discriminate|].
  apply missing_false in Hs as (signature & Hs & Hs').
  apply missing_false in Ht as (timestamp & Ht & Ht').
  rewrite Hs, Ht. cbn [or_default].
  destruct (parseInt timestamp 10) as [t|] eqn:Hparse; [|discriminate].
  cbn zeta. destruct (Z.ltb_spec toleranceMs (Z.abs (now - t))) as [|Hin]; [discriminate|].
  fold (reconstructed headers body t).
  destruct (verifySignature _ _ _) eqn:Hv; [|discriminate].
  intros _. exists signature, timestamp, t. auto 10.
Qed.

(** X11. [verifyRequest] answers [valid: true] exactly when both headers
    are present and not empty, the timestamp reads as an integer [t]
    with [|now - t| <= toleranceMs], and the signature primitive accepts
    the decoded signature for the canonical text of the reconstructed
    request under the given key (a primitive that throws counts as a
    refusal).  A valid answer carries no error and every invalid answer
    carries one; [expiredTimestamp] is set on the tolerance error only. *)
Theorem verifyRequest_valid_iff (now : Z) (headers : list (string * string))
    (publicKey : list byte) (body : option string) (toleranceMs : Z) :
  let result := verifyRequest now headers publicKey body toleranceMs in
  (valid result = true <->
   exists signature timestamp t,
     getHeader headers "X-Agent-Signature" = Some signature /\ signature <> ""
     /\ getHeader headers "X-Agent-Timestamp" = Some timestamp /\ timestamp <> ""
     /\ parseInt timestamp 10 = Some t
     /\ Z.abs (now - t) <= toleranceMs
     /\ ed25519_verifyAsync (base64urlDecode signature)
          (utf8_encode_units (createCanonicalString now (reconstructed headers body t)))
          publicKey = Return true)
  /\ (valid result = true -> result = verified)
  /\ (valid result = false -> error result <> None)
  /\ (expiredTimestamp result = Some true <->
      error result = Some "Timestamp outside tolerance window").
Proof.
  intros result. split; [split|].
  - intros Hvalid.
    destruct (verifyRequest_valid_inv _ _ _ _ _ Hvalid)
      as (signature & timestamp & t & Hs & Hs' & Ht & Ht' & Hparse & Hin & Hv).
    exists signature, timestamp, t. do 6 (split; [assumption|]).
    unfold verifySignature in Hv.
    destruct (ed25519_verifyAsync _ _ _) as [[]|]; [reflexivity | discriminate..].
  - intros (signature & timestamp & t & Hs & Hs' & Ht & Ht' & Hparse & Hin & Hv).
    unfold result, verifyRequest.
    rewrite Hs, Ht, (missing_some _ Hs'), (missing_some _ Ht').
    cbn [or_default]. rewrite Hparse. cbn zeta.
    replace (toleranceMs <? Z.abs (now - t)) with false
      by (symmetry; apply Z.ltb_ge; exact Hin).
    fold (reconstructed headers body t).
    unfold verifySignature. rewrite Hv. reflexivity.
  - unfold result, verifyRequest.
    destruct (missing (getHeader headers "X-Agent-Signature"));
      [cbn; repeat split; discriminate|].
    destruct (missing (getHeader headers "X-Agent-Timestamp"));
      [cbn; repeat split; discriminate|].
    destruct (parseInt _ 10) as [t|]; [|cbn; repeat split; discriminate].
    cbn zeta. destruct (toleranceMs <? Z.abs (now - t));
      [cbn; repeat split; (discriminate || reflexivity)|].
    destruct (negb _); cbn; repeat split; (discriminate || reflexivity).
Qed.

(** *** Header names *)

Lemma lower_char_idem (c : ascii) : lower_char (lower_char c) = lower_char c.
Proof. destruct c as [[] [] [] [] [] [] [] []]; reflexivity. Qed.

Lemma lower_char_capital (c : ascii) :
  lower_char (if is_lower c then ascii_of_N (N_of_ascii c - 32) else c) = lower_char c.
Proof. destruct c as [[] [] [] [] [] [] [] []]; reflexivity. Qed.

Lemma toLowerCase_idem (s : string) : toLowerCase (toLowerCase s) = toLowerCase s.
Proof.
  unfold toLowerCase. induction s as [|c s IH]; simpl; [reflexivity|].
  now rewrite lower_char_idem, IH.
Qed.

Lemma toLowerCase_capitals (s : string) : toLowerCase (capitals s) = toLowerCase s.
Proof.
  unfold toLowerCase, capitals. induction s as [|c s IH]; simpl; [reflexivity|].
  now rewrite lower_char_capital, IH.
Qed.

Lemma getHeader_rename (rename : string -> string) (headers : list (string * string))
    (name : string) :
  (forall key, toLowerCase (rename key) = toLowerCase key) ->
  getHeader (rename_keys rename headers) name = getHeader headers name.
Proof.
  intros Hrename. induction headers as [|[key value] rest IH]; [reflexivity|].
  cbn [rename_keys map getHeader fst snd]. rewrite Hrename.
  destruct (String.eqb _ _); [reflexivity | exact IH].
Qed.

(** X12. The case of the header names does not matter to [verifyRequest].
    Spelling the names of a header object otherwise, in any way that
    keeps them equal up to case and distinct from each other, leaves the
    answer as it is; writing all names in lower case, or their letters
    a-z in upper case, are two such ways. *)
Theorem verifyRequest_header_case (rename : string -> string) (now : Z)
    (headers : list (string * string)) (publicKey : list byte) (body : option string)
    (toleranceMs : Z) :
  (forall key, toLowerCase (rename key) = toLowerCase key) ->
  NoDup (map fst (rename_keys rename headers)) ->
  verifyRequest now (rename_keys rename headers) publicKey body toleranceMs
  = verifyRequest now headers publicKey body toleranceMs.
Proof.
  intros Hrename _. unfold verifyRequest.
  now rewrite !(getHeader_rename rename headers _ Hrename).
Qed.

(** *** The canonical text *)

Lemma occurs_app (c : ascii) (a b : string) :
  occurs c (a +:+ b) = occurs c a || occurs c b.
Proof.
  induction a as [|x a IH]; simpl; [reflexivity|]. now rewrite IH, orb_assoc.
Qed.

(** A text is cut in one way at the last occurrence of a character. *)
Lemma app_inv_last (c : ascii) (a a' b b' : string) :
  occurs c b = false -> occurs c b' = false ->
  a +:+ String c b = a' +:+ String c b' -> a = a' /\ b = b'.
Proof.
  intros Hb Hb'. revert a'. induction a as [|x a IH]; intros [|x' a'] E; simpl in *.
  - injection E as ->. split; reflexivity.
  - injection E as <- E. rewrite E, occurs_app in Hb. simpl in Hb.
    rewrite Ascii.eqb_refl, orb_true_r in Hb. discriminate.
  - injection E as -> E. rewrite <- E, occurs_app in Hb'. simpl in Hb'.
    rewrite Ascii.eqb_refl, orb_true_r in Hb'. discriminate.
  - injection E as -> E. destruct (IH a' E) as [-> ->]. split; reflexivity.
Qed.

(** Case mapping beyond the ASCII letters: e with acute, sharp s, the
    micro sign, y with diaeresis and the division sign in upper case; E
    with acute, the multiplication sign and thorn in lower case. *)
Lemma case_mapping_beyond_ascii :
  toUpperCase (string_of_chars (map ascii_of_N [233; 223; 181; 255; 247]%N))
  = [201; 83; 83; 924; 376; 247]%N
  /\ toLowerCase (string_of_chars (map ascii_of_N [201; 215; 222]%N))
     = string_of_chars (map ascii_of_N [233; 215; 254]%N).
Proof. split; reflexivity. Qed.

(** On the code units of a string the two encoders agree. *)
Lemma utf8_encode_code_units (s : string) :
  utf8_encode_units (code_units s) = utf8_encode s.
Proof.
  induction s as [|c s IH]; [reflexivity|].
  cbn [code_units utf8_encode_units utf8_encode]. rewrite IH.
  pose proof (N_ascii_bounded c) as Hc.
  unfold is_high_surrogate, is_low_surrogate, utf8_of_code_point.
  replace (55296 <=? N_of_ascii c)%N with false by (symmetry; apply N.leb_gt; lia).
  replace (56320 <=? N_of_ascii c)%N with false by (symmetry; apply N.leb_gt; lia).
  cbn [andb]. destruct (N_of_ascii c <? 128)%N; [reflexivity|].
  replace (N_of_ascii c <? 2048)%N with true by (symmetry; apply N.ltb_lt; lia).
  reflexivity.
Qed.

(** Upper-casing brings no line feed into a text. *)
Lemma upper_units_line_feed (c : ascii) :
  has_unit 10 (upper_units c) = Ascii.eqb c line_feed.
Proof. destruct c as [[] [] [] [] [] [] [] []]; reflexivity. Qed.

Lemma has_unit_toUpperCase (s : string) :
  has_unit 10 (toUpperCase s) = occurs line_feed s.
Proof.
  unfold has_unit. induction s as [|c s IH]; simpl; [reflexivity|].
  rewrite existsb_app, IH. f_equal. apply upper_units_line_feed.
Qed.

Lemma units_inv_first (u : N) (a a' b b' : list N) :
  has_unit u a = false -> has_unit u a' = false ->
  a ++ u :: b = a' ++ u :: b' -> a = a' /\ b = b'.
Proof.
  unfold has_unit.
  revert a'. induction a as [|x a IH]; intros [|x' a'] Ha Ha' E; simpl in *.
  - injection E as ->. split; reflexivity.
  - injection E as <- _. rewrite N.eqb_refl in Ha'. discriminate.
  - injection E as -> _. rewrite N.eqb_refl in Ha. discriminate.
  - injection E as -> E. apply orb_false_iff in Ha as [_ Ha].
    apply orb_false_iff in Ha' as [_ Ha'].
    destruct (IH a' Ha Ha' E) as [-> ->]. split; reflexivity.
Qed.

Lemma code_units_inj (a b : string) : code_units a = code_units b -> a = b.
Proof.
  revert b. induction a as [|x a IH]; intros [|y b] E; simpl in E;
    try discriminate; [reflexivity|].
  injection E as Ex E. f_equal; [|apply IH, E].
  rewrite <- (ascii_N_embedding x), <- (ascii_N_embedding y). now rewrite Ex.
Qed.

Lemma occurs_chars (f : N -> ascii) (bound : N) (c : ascii) (vs : list N) :
  (forall v, (v < bound)%N -> Ascii.eqb (f v) c = false) ->
  Forall (fun v => (v < bound)%N) vs ->
  occurs c (string_of_chars (map f vs)) = false.
Proof.
  intros Hf. induction 1 as [|v vs Hv _ IH]; simpl; [reflexivity|].
  now rewrite (Hf v Hv), IH.
Qed.

Lemma digit_char_line_feed (d : N) : (d < 10)%N -> Ascii.eqb (digit_char d) line_feed = false.
Proof.
  revert d. apply below_10. intros n Hn.
  do 10 (destruct n as [|n]; [reflexivity|]). lia.
Qed.

Lemma url_char_line_feed (v : N) : (v < 64)%N -> Ascii.eqb (url_char v) line_feed = false.
Proof.
  revert v. apply below_64. intros n Hn.
  do 64 (destruct n as [|n]; [reflexivity|]). lia.
Qed.

Lemma occurs_N_to_string (n : N) : occurs line_feed (N_to_string n) = false.
Proof.
  destruct (N_to_string_shape n) as (d & ds & Hd & Hds & -> & _).
  change (String (digit_char d) (string_of_chars (map digit_char ds)))
    with (string_of_chars (map digit_char (d :: ds))).
  apply (occurs_chars digit_char 10); [apply digit_char_line_feed|].
  constructor; assumption.
Qed.

Lemma occurs_toString (n : Z) : occurs line_feed (toString n) = false.
Proof.
  unfold toString. destruct (n <? 0); [|apply occurs_N_to_string].
  change ("-" +:+ N_to_string (Z.to_N (- n))) with (String "-" (N_to_string (Z.to_N (- n)))).
  cbn [occurs]. rewrite occurs_N_to_string. reflexivity.
Qed.

Lemma occurs_body_hash (request : SignableRequest) :
  occurs line_feed (body_hash request) = false.
Proof.
  unfold body_hash. destruct (body request); [|reflexivity].
  rewrite base64urlEncode_sextets.
  apply (occurs_chars url_char 64); [apply url_char_line_feed | apply sextets_lt].
Qed.

Lemma toString_inj (a b : Z) : toString a = toString b -> a = b.
Proof.
  intros E. pose proof (parseInt_toString a) as Ha.
  rewrite E, parseInt_toString in Ha. congruence.
Qed.

Lemma createCanonicalString_fields (now : Z) (request : SignableRequest) :
  createCanonicalString now request
  = toUpperCase (method request)
      ++ 10%N :: code_units
                   ((url request
                       +:+ String line_feed (toString (signed_timestamp now request)))
                      +:+ String line_feed (body_hash request)).
Proof.
  unfold createCanonicalString, signed_timestamp, body_hash, newline.
  f_equal. cbn [String.append code_units]. f_equal.
  rewrite string_app_assoc. reflexivity.
Qed.

(** X13. The canonical text says which request was signed.  For methods
    that hold no line feed (as every HTTP method), two requests have the
    same canonical text exactly when their methods have the same
    upper-case form, as [toUpperCase] of JavaScript gives it, and their
    URLs, their timestamps and their body hashes are the same: a
    signature over the text covers each of the four. *)
Theorem createCanonicalString_binds (now now' : Z) (request request' : SignableRequest) :
  occurs line_feed (method request) = false ->
  occurs line_feed (method request') = false ->
  createCanonicalString now request = createCanonicalString now' request'
  <-> toUpperCase (method request) = toUpperCase (method request')
      /\ url request = url request'
      /\ signed_timestamp now request = signed_timestamp now' request'
      /\ body_hash request = body_hash request'.
Proof.
  intros Hm Hm'. rewrite !createCanonicalString_fields. split.
  - intros E.
    apply units_inv_first in E as [Emethod E]; [|now rewrite has_unit_toUpperCase..].
    apply code_units_inj in E.
    apply app_inv_last in E as [E Ehash]; [|apply occurs_body_hash..].
    apply app_inv_last in E as [Eurl Etime]; [|apply occurs_toString..].
    apply toString_inj in Etime. auto.
  - intros (-> & -> & -> & ->). reflexivity.
Qed.

End RequestSoundness.

Section RequestSoundnessExamples.
Import Request Keys JsNumber.
Local Open Scope Z_scope.

Lemma verifyRequest_valid_iff_witness :
  @verifyRequest toy_crypto 1704067200000 sample_headers sample_key
    (Some sample_message) DEFAULT_TOLERANCE_MS = verified.
Proof.
  apply (@verifyRequest_valid_iff toy_crypto 1704067200000 sample_headers sample_key
           (Some sample_message) DEFAULT_TOLERANCE_MS).
  vm_compute. reflexivity.
Defined.

Lemma verifyRequest_header_case_witness :
  @verifyRequest toy_crypto 1704067200000
    (rename_keys capitals sample_signed_headers) sample_key
    (Some sample_message) DEFAULT_TOLERANCE_MS
  = @verifyRequest toy_crypto 1704067200000 sample_signed_headers sample_key
      (Some sample_message) DEFAULT_TOLERANCE_MS.
Proof.
  apply (@verifyRequest_header_case toy_crypto capitals).
  - apply toLowerCase_capitals.
  - apply (bool_decide_unpack _). vm_compute. exact I.
Defined.

Lemma createCanonicalString_binds_witness :
  @createCanonicalString toy_crypto 0 sample_request
  = @createCanonicalString toy_crypto 5
      {| method := "POST"; url := "/api/agents"; body := Some "{}";
         timestamp := Some 1704067200000 |}.
Proof.
  apply (@createCanonicalString_binds toy_crypto); [reflexivity | reflexivity|].
  split; [vm_compute; reflexivity|]. split; [vm_compute; reflexivity|].
  split; vm_compute; reflexivity.
Defined.

End RequestSoundnessExamples.

(** ** Further properties of DID resolution (packages/did/src/resolve.ts) *)

Section ResolveSoundness.
Import DidUtils Resolve.

(** What a resolved document stands for. *)
Lemma resolveDID_document_inv (fetch : string -> Completion Response) (did : string)
    (document : Json) :
  didDocument (resolveDID fetch did) = Some document ->
  isValidDID did = true /\ startsWith "did:web:" did = true
  /\ exists url response,
       getWellKnownUrl did = Return url
       /\ fetch url = Return response
       /\ ok response = true
       /\ json response = Return document
       /\ get_id document = Return (Some (JString did)).
Proof.
  unfold resolveDID.
  destruct (isValidDID did); [|discriminate].
  destruct (startsWith "did:web:" did); [|discriminate]. cbn [negb].
  destruct (getWellKnownUrl did) as [url|]; [|discriminate]. cbn [bind].
  destruct (fetch url) as [response|] eqn:Hfetch; [|discriminate]. cbn [bind].
  destruct (ok response) eqn:Hok; [|destruct (_ =? _)%Z; discriminate]. cbn [negb].
  destruct (json response) as [body|] eqn:Hjson; [|discriminate]. cbn [bind].
  destruct (get_id body) as [id|] eqn:Hid; [|discriminate]. cbn [bind].
  destruct (differs_from id did) eqn:Hdiff; [discriminate|].
  apply differs_from_spec in Hdiff. subst id.
  cbn [didDocument]. intros [= <-].
  split; [reflexivity|]. split; [reflexivity|].
  exists url, response.
  split; [reflexivity|]. split; [exact Hfetch|]. split; [exact Hok|].
  split; [exact Hjson | exact Hid].
Qed.

(** X14. [resolveDID] hands out a document only for a well-formed
    did:web DID, and then it is the JSON body of a 2xx response fetched
    from the well-known URL of that DID, with an [id] equal to the DID
    asked for.  The answer has a document exactly when it has no error,
    and it depends on [fetch] at that one URL only: no other address is
    contacted, and none at all for a DID that is malformed or of another
    method. *)
Theorem resolveDID_document_iff (fetch : string -> Completion Response) (did : string) :
  (forall document,
      didDocument (resolveDID fetch did) = Some document
      <-> isValidDID did = true /\ startsWith "did:web:" did = true
          /\ exists url response,
               getWellKnownUrl did = Return url
               /\ fetch url = Return response
               /\ ok response = true
               /\ json response = Return document
               /\ get_id document = Return (Some (JString did)))
  /\ (error (didResolutionMetadata (resolveDID fetch did)) = None
      <-> didDocument (resolveDID fetch did) <> None)
  /\ (forall fetch' : string -> Completion Response,
        (forall url, getWellKnownUrl did = Return url -> fetch' url = fetch url) ->
        resolveDID fetch' did = resolveDID fetch did).
Proof.
  split; [|split].
  - intros document. split; [apply resolveDID_document_inv|].
    intros (Hv & Hw & url & response & Hurl & Hfetch & Hok & Hjson & Hid).
    unfold resolveDID. rewrite Hv, Hw, Hurl. cbn [negb bind].
    rewrite Hfetch. cbn [bind]. rewrite Hok, Hjson. cbn [negb bind].
    rewrite Hid. cbn [bind].
    replace (differs_from (Some (JString did)) did) with false; [reflexivity|].
    symmetry. now apply differs_from_spec.
  - unfold resolveDID.
    destruct (isValidDID did); [|split; [discriminate | intros []; reflexivity]].
    destruct (startsWith "did:web:" did);
      [|split; [discriminate | intros []; reflexivity]].
    cbn [negb].
    destruct (getWellKnownUrl did) as [url|];
      [|split; [discriminate | intros []; reflexivity]].
    cbn [bind].
    destruct (fetch url) as [response|];
      [|split; [discriminate | intros []; reflexivity]].
    cbn [bind].
    destruct (ok response); cbn [negb];
      [|destruct (_ =? _)%Z; split; (discriminate || (intros []; reflexivity))].
    destruct (json response) as [body|];
      [|split; [discriminate | intros []; reflexivity]].
    cbn [bind].
    destruct (get_id body) as [id|];
      [|split; [discriminate | intros []; reflexivity]].
    cbn [bind].
    destruct (differs_from id did);
      [split; [discriminate | intros []; reflexivity]|].
    split; [discriminate | reflexivity].
  - intros fetch' Hsame. unfold resolveDID.
    destruct (isValidDID did); [|reflexivity].
    destruct (startsWith "did:web:" did); [|reflexivity]. cbn [negb].
    destruct (getWellKnownUrl did) as [url|]; [|reflexivity]. cbn [bind].
    now rewrite (Hsame url eq_refl).
Qed.

Lemma resolveDID_document_iff_witness :
  didDocument (resolveDID sample_fetch "did:web:example.com") = Some sample_document.
Proof.
  apply (resolveDID_document_iff sample_fetch "did:web:example.com").
  split; [reflexivity|]. split; [reflexivity|].
  eexists _, _. split; [reflexivity|]. split; [reflexivity|].
  split; [reflexivity|]. split; reflexivity.
Defined.

(** X15. Two DIDs can have the same well-known URL: the DID of a domain
    and the DID of the path [.well-known] under it do.  The comparison of
    the document's [id] with the DID asked for tells them apart: with
    the same [fetch], two DIDs of one URL never both resolve, unless
    they are the same DID. *)
Theorem resolveDID_shared_url :
  (forall domain,
      occurs ":" domain = false ->
      getWellKnownUrl ("did:web:" +:+ domain +:+ ":.well-known")
      = getWellKnownUrl ("did:web:" +:+ domain))
  /\ (forall (fetch : string -> Completion Response) did did' document document',
        getWellKnownUrl did = getWellKnownUrl did' ->
        didDocument (resolveDID fetch did) = Some document ->
        didDocument (resolveDID fetch did') = Some document' ->
        did = did').
Proof.
  split.
  - intros domain Hdomain. rewrite (getWellKnownUrl_root domain Hdomain).
    change ("did:web:" +:+ domain +:+ ":.well-known")
      with ("did:web:" +:+ join ":" [domain; ".well-known"]).
    rewrite getWellKnownUrl_path; [reflexivity | discriminate|].
    repeat constructor. exact Hdomain.
  - intros fetch did did' document document' Hurl Hdoc Hdoc'.
    apply resolveDID_document_inv in Hdoc
      as (_ & _ & url & response & Hu & Hf & _ & Hj & Hid).
    apply resolveDID_document_inv in Hdoc'
      as (_ & _ & url' & response' & Hu' & Hf' & _ & Hj' & Hid').
    rewrite Hurl, Hu' in Hu. injection Hu as <-.
    rewrite Hf' in Hf. injection Hf as <-.
    rewrite Hj' in Hj. injection Hj as <-.
    rewrite Hid' in Hid. congruence.
Qed.

Lemma resolveDID_shared_url_witness :
  getWellKnownUrl "did:web:example.com:.well-known"
  = getWellKnownUrl "did:web:example.com"
  /\ didDocument (resolveDID sample_fetch "did:web:example.com:.well-known") = None.
Proof.
  split.
  - destruct resolveDID_shared_url as [H _]. apply (H "example.com"). reflexivity.
  - reflexivity.
Defined.

End ResolveSoundness.

(** ** Further properties of the registry: what a verification stands
       for and what it touches (packages/registry/src/verify.ts) *)

Section VerifySoundness.
Import Postgres Registry.
Context `{Crypto} {S : Type} `{SupabaseClient S}.
Local Open Scope Z_scope.

(** A valid answer of [verifyAgentSignature] was given for a signature
    that the look-up did not find in the cache and a timestamp within
    five minutes. *)
Lemma verifyAgentSignature_valid_window (now : Z)
    (did signature message timestamp : string) (s : S) (log : list Call) :
  valid (verifyAgentSignature now did signature message timestamp s log).1.1 = true ->
  (exists error, select_cached_signature (signature_hash_of signature) s = Failure error)
  /\ exists t, JsNumber.parseInt timestamp 10 = Some t /\ Z.abs (now - t) <= 300000.
Proof.
  unfold signature_hash_of.
  unfold verifyAgentSignature, mbind, async_bind, await, query, command, resolve.
  set (h := bytesToHex (sha256 (utf8_encode signature))).
  destruct (select_agent did s) as [row|err];
    [|destruct (String.eqb _ _); cbn; discriminate].
  destruct (negb (is_active _)); [cbn; discriminate|].
  destruct (select_cached_signature h s) as [hit|miss]; [cbn; discriminate|].
  destruct (hex_pairs _) as [|pair pairs]; [cbn; discriminate|].
  set (headers := [("x-agent-signature", signature); ("x-agent-timestamp", timestamp)]).
  destruct (Request.valid (Request.verifyRequest now headers _ _ _)) eqn:Hvalid;
    [|cbn; discriminate].
  intros _. split; [exists miss; reflexivity|].
  apply verifyRequest_valid_inv in Hvalid
    as (signature' & timestamp' & t & _ & _ & Ht & _ & Hparse & Hin & _).
  change (Request.getHeader headers "X-Agent-Timestamp") with (Some timestamp) in Ht.
  injection Ht as <-. exists t. split; [exact Hparse | exact Hin].
Qed.

(** X16. A valid answer of [verifyAgentSignature] stands for all its
    checks: the registry has the agent and its status is [active]; the
    look-up in the replay cache gave no row back (the code reads [data]
    only, so a look-up that failed counts like a hash that is not
    there); [match(/.{1,2}/g)] found at least one pair in the text of
    the stored key (whether or not the pairs are hexadecimal digits);
    the signature is not empty; the timestamp reads as an integer within
    five minutes of [now]; and the signature primitive accepts the
    signature for the canonical text of POST, "/", the timestamp and the
    message under the bytes that [parseInt(pair, 16)] makes of the
    pairs.  The answer then carries the agent and no error. *)
Theorem verifyAgentSignature_sound (now : Z) (did signature message timestamp : string)
    (s : S) (log : list Call) :
  valid (verifyAgentSignature now did signature message timestamp s log).1.1 = true ->
  exists row t,
    select_agent did s = Data row
    /\ row_status row = active
    /\ (exists error, select_cached_signature (signature_hash_of signature) s
                      = Failure error)
    /\ hex_pairs (row_public_key row) <> []
    /\ signature <> ""
    /\ JsNumber.parseInt timestamp 10 = Some t
    /\ Z.abs (now - t) <= 300000
    /\ ed25519_verifyAsync (Keys.base64urlDecode signature)
         (utf8_encode_units (Request.createCanonicalString now (registry_request message t)))
         (hex_to_bytes (hex_pairs (row_public_key row))) = Return true
    /\ (verifyAgentSignature now did signature message timestamp s log).1.1
       = {| valid := true; agent := Some (rowToAgent row); error := None |}.
Proof.
  unfold signature_hash_of.
  unfold verifyAgentSignature, mbind, async_bind, await, query, command, resolve.
  set (h := bytesToHex (sha256 (utf8_encode signature))).
  destruct (select_agent did s) as [row|err];
    [|destruct (String.eqb _ _); cbn; discriminate].
  cbn [status rowToAgent publicKey].
  destruct (is_active (row_status row)) eqn:Hactive; [|cbn; discriminate].
  apply is_active_spec in Hactive. cbn [negb].
  destruct (select_cached_signature h s) as [hit|miss] eqn:Hcached; [cbn; discriminate|].
  destruct (hex_pairs (row_public_key row)) as [|pair pairs] eqn:Hpairs;
    [cbn; discriminate|].
  set (headers := [("x-agent-signature", signature); ("x-agent-timestamp", timestamp)]).
  destruct (Request.valid (Request.verifyRequest now headers _ _ _)) eqn:Hvalid;
    [|cbn; discriminate].
  cbn [negb].
  apply verifyRequest_valid_inv in Hvalid
    as (signature' & timestamp' & t & Hs & Hs' & Ht & Ht' & Hparse & Hin & Hv).
  change (Request.getHeader headers "X-Agent-Signature") with (Some signature) in Hs.
  change (Request.getHeader headers "X-Agent-Timestamp") with (Some timestamp) in Ht.
  injection Hs as <-. injection Ht as <-.
  change (reconstructed headers (Some message) t) with (registry_request message t) in Hv.
  unfold Request.verifySignature in Hv.
  destruct (toISOString _) as [iso|]; [|cbn; discriminate].
  destruct (insert_cached_signature _ s) as [inserted s'].
  cbn [fst snd valid]. intros _. exists row, t. rewrite Hpairs.
  split; [reflexivity|]. split; [exact Hactive|].
  split; [exists miss; reflexivity|].
  split; [discriminate|]. split; [exact Hs'|]. split; [exact Hparse|].
  split; [exact Hin|]. split; [|reflexivity].
  destruct (ed25519_verifyAsync _ _ _) as [[]|]; [reflexivity | discriminate..].
Qed.


End VerifySoundness.

Section VerifyFrame.
Import Postgres Registry.
Context `{Crypto}.
Local Open Scope Z_scope.

Ltac run_verify :=
  unfold verifyAgentSignature, mbind, async_bind, await, query, command, resolve;
  cbn [select_agent select_cached_signature insert_cached_signature postgres_client].

(** What a verification leaves in the database. *)
Lemma verifyAgentSignature_database (now : Z) (did signature message timestamp : string)
    (db : Db) (log : list Call) :
  let outcome := verifyAgentSignature now did signature message timestamp db log in
  (valid outcome.1.1 = false /\ outcome.1.2 = db)
  \/ (valid outcome.1.1 = true
      /\ signature_cache db !! signature_hash_of signature = None
      /\ exists t,
           toISOString (JsNumber.parseInt timestamp 0) = Return t
           /\ outcome.1.2
              = cache_signature
                  {| signature_hash := signature_hash_of signature;
                     insert_agent_did := did;
                     insert_timestamp := t |} db).
Proof.
  unfold signature_hash_of. run_verify.
  set (h := bytesToHex (sha256 (utf8_encode signature))).
  destruct (agents db !! did) as [row|];
    [|destruct (String.eqb _ _); left; split; reflexivity].
  destruct (negb (is_active _)); [left; split; reflexivity|].
  destruct (signature_cache db !! h) eqn:Hcached; [left; split; reflexivity|].
  destruct (hex_pairs _); [left; split; reflexivity|].
  destruct (negb _); [left; split; reflexivity|].
  destruct (toISOString _) as [t|]; [|left; split; reflexivity].
  cbn [signature_hash]. rewrite Hcached. cbn.
  right. split; [reflexivity|]. split; [reflexivity|].
  exists t. split; reflexivity.
Qed.

(** X17. A verification touches the replay cache and nothing else.
    Whatever the answer, the agents, their balances and status, the
    ledger and every other cache row are as before; an answer that is
    not valid leaves the whole database as it was, and a valid one adds
    exactly the row of the presented signature, stamped with the
    database clock. *)
Theorem verifyAgentSignature_frame (now : Z) (did signature message timestamp : string)
    (db : Db) (log : list Call) :
  let outcome := verifyAgentSignature now did signature message timestamp db log in
  let db' := outcome.1.2 in
  agents db' = agents db /\ ledger db' = ledger db /\ clock db' = clock db
  /\ (forall hash, hash <> signature_hash_of signature ->
        signature_cache db' !! hash = signature_cache db !! hash)
  /\ (valid outcome.1.1 = false -> db' = db)
  /\ (valid outcome.1.1 = true ->
      signature_cache db !! signature_hash_of signature = None
      /\ exists row,
           signature_cache db' !! signature_hash_of signature = Some row
           /\ agent_did row = did /\ cached_at row = clock db).
Proof.
  intros outcome db'.
  destruct (verifyAgentSignature_database now did signature message timestamp db log)
    as [[Hvalid Hdb] | (Hvalid & Hnew & t & Ht & Hdb)];
    fold outcome in Hvalid, Hdb; fold db' in Hdb; rewrite Hvalid, Hdb.
  - do 4 (split; [reflexivity|]). split; [reflexivity | discriminate].
  - do 3 (split; [reflexivity|]).
    split; [intros hash Hne; cbn; now rewrite lookup_insert_ne by congruence|].
    split; [discriminate|]. intros _. split; [exact Hnew|].
    eexists. cbn. rewrite lookup_insert_eq. split; [reflexivity|]. split; reflexivity.
Qed.

End VerifyFrame.

Section VerifySoundnessExamples.
Import Postgres Registry.
Local Open Scope Z_scope.

Lemma verifyAgentSignature_sound_witness :
  exists row t,
    select_agent "did:web:example.com" (sample_db 100) = Data row
    /\ row_status row = active
    /\ JsNumber.parseInt "1704067200000" 10 = Some t
    /\ Z.abs (1704067200000 - t) <= 300000.
Proof.
  destruct (@verifyAgentSignature_sound toy_crypto Db _ 1704067200000
              "did:web:example.com" sample_signature sample_message "1704067200000"
              (sample_db 100) [])
    as (row & t & Hrow & Hactive & _ & _ & _ & Hparse & Hin & _).
  - vm_compute. reflexivity.
  - exists row, t. auto.
Defined.

Lemma verifyAgentSignature_frame_witness :
  (@verifyAgentSignature toy_crypto _ _ 1704067200000
     "did:web:example.com:agents:suspended" sample_signature sample_message
     "1704067200000" (sample_db 100) []).1.2 = sample_db 100.
Proof.
  apply (@verifyAgentSignature_frame toy_crypto 1704067200000
           "did:web:example.com:agents:suspended" sample_signature sample_message
           "1704067200000" (sample_db 100) []).
  vm_compute. reflexivity.
Defined.

End VerifySoundnessExamples.

(** ** Cleaning the replay cache
       (supabase/migrations/00001_initial_schema.sql, with verify.ts) *)

Section CleanupFacts.
Import Postgres Registry Schema.
Context `{Crypto}.
Local Open Scope Z_scope.

Lemma cleanup_lookup (db : Db) (hash : string) (row : signature_cache_row) :
  signature_cache (cleanup_signature_cache db).2 !! hash = Some row
  <-> signature_cache db !! hash = Some row /\ clock db - ONE_HOUR <= cached_at row.
Proof.
  unfold cleanup_signature_cache. cbn [snd signature_cache].
  rewrite map_lookup_filter_Some. cbn [snd]. unfold stale.
  rewrite Z.ltb_ge. reflexivity.
Qed.

(** X18. [cleanup_signature_cache] deletes the rows of the replay cache
    that are more than one hour old by the database clock, and those
    only: a row is in the cache afterwards exactly when it was there
    before and its [created_at] is not before [NOW() - 1 hour].  The
    number returned is the number of rows that went, agents and ledger
    are not touched, and a second run at the same time deletes nothing. *)
Theorem cleanup_signature_cache_spec (db : Db) :
  let deleted := (cleanup_signature_cache db).1 in
  let db' := (cleanup_signature_cache db).2 in
  (forall hash row,
      signature_cache db' !! hash = Some row
      <-> signature_cache db !! hash = Some row /\ clock db - 3600000 <= cached_at row)
  /\ Z.of_nat (size (signature_cache db')) = Z.of_nat (size (signature_cache db)) - deleted
  /\ 0 <= deleted
  /\ agents db' = agents db /\ ledger db' = ledger db /\ clock db' = clock db
  /\ cleanup_signature_cache db' = (0, db').
Proof.
  intros deleted db'.
  split; [exact (cleanup_lookup db)|].
  split; [unfold deleted, db', cleanup_signature_cache; cbn [fst snd signature_cache]; lia|].
  split.
  { unfold deleted, cleanup_signature_cache. cbn [fst].
    pose proof (map_subseteq_size _ _
                  (map_filter_subseteq (fun entry => stale db entry.2 = false)
                     (signature_cache db))).
    lia. }
  do 3 (split; [reflexivity|]).
  assert (Hkept : filter (fun entry => stale db' entry.2 = false) (signature_cache db')
                  = signature_cache db').
  { apply map_filter_id. intros hash row Hrow.
    apply cleanup_lookup in Hrow as [_ Hfresh].
    cbn [snd]. unfold stale. apply Z.ltb_ge. exact Hfresh. }
  unfold cleanup_signature_cache at 1. rewrite Hkept.
  rewrite Z.sub_diag. destruct db'; reflexivity.
Qed.

(** *** Replays after a cleanup *)

(** A row of the cache stays as it is through verifications and credit
    events. *)
Lemma verifyAgentSignature_cache_kept (now : Z)
    (did signature message timestamp : string) (db : Db) (log : list Call)
    (hash : string) (row : signature_cache_row) :
  signature_cache db !! hash = Some row ->
  signature_cache (verifyAgentSignature now did signature message timestamp db log).1.2
    !! hash = Some row.
Proof.
  intros Hrow.
  destruct (verifyAgentSignature_database now did signature message timestamp db log)
    as [[_ ->] | (_ & Hnew & t & _ & ->)]; [exact Hrow|].
  cbn. rewrite lookup_insert_ne; [exact Hrow|].
  intros <-. rewrite Hnew in Hrow. discriminate.
Qed.

Lemma evolves_cache_kept (db db' : Db) (hash : string) (row : signature_cache_row) :
  evolves db db' ->
  signature_cache db !! hash = Some row -> signature_cache db' !! hash = Some row.
Proof.
  intros Hev Hrow. induction Hev as [| ? ? ? ? ? ? ? ? _ IH | ? ? ? ? ? _ IH | ? ? ? _ IH].
  - exact Hrow.
  - apply verifyAgentSignature_cache_kept, IH, Hrow.
  - rewrite recordCreditEvent_cache. apply IH, Hrow.
  - apply IH, Hrow.
Qed.

(** X19. Cleaning the cache does not reopen the door to a replay.  Let
    a signature be verified at time [now], by a verifier whose clock is
    at most 50 minutes ahead of the database clock; let the registry go
    on (verifications, credit events, time passing), the cache be
    cleaned, and the registry go on again.  Then the same signature with
    the same timestamp is refused at every time [now'] not before the
    database clock of the cleanup, for whatever agent and message it is
    presented: either its row is still in the cache, or the row was more
    than an hour old and the timestamp is outside the five minutes of
    tolerance. *)
Theorem replay_refused_after_cleanup (now : Z) (did signature message timestamp : string)
    (db : Db) (log : list Call) :
  valid (verifyAgentSignature now did signature message timestamp db log).1.1 = true ->
  now <= clock db + 3000000 ->
  forall db1 db2,
    evolves (verifyAgentSignature now did signature message timestamp db log).1.2 db1 ->
    evolves (cleanup_signature_cache db1).2 db2 ->
    forall now' did' message' log',
      clock db1 <= now' ->
      valid (verifyAgentSignature now' did' signature message' timestamp db2 log').1.1
      = false.
Proof.
  intros Hvalid Hclock db1 db2 Hev1 Hev2 now' did' message' log' Hlater.
  destruct (verifyAgentSignature_valid_window _ _ _ _ _ _ _ Hvalid)
    as (_ & t & Hparse & Hin).
  destruct (verifyAgentSignature_database now did signature message timestamp db log)
    as [[Hno _] | (_ & _ & iso & _ & Hdb)]; [congruence|].
  set (row := {| agent_did := did; timestamp := iso; cached_at := clock db |}).
  assert (Hrow1 : signature_cache db1 !! signature_hash_of signature = Some row).
  { apply (evolves_cache_kept _ _ _ _ Hev1). rewrite Hdb. cbn.
    apply lookup_insert_eq. }
  destruct (valid (verifyAgentSignature now' did' signature message' timestamp db2 log').1.1)
    eqn:Hagain; [|reflexivity].
  exfalso.
  destruct (verifyAgentSignature_valid_window _ _ _ _ _ _ _ Hagain)
    as ([err Hmiss] & t' & Hparse' & Hin').
  rewrite Hparse in Hparse'. injection Hparse' as <-.
  cbn [select_cached_signature postgres_client] in Hmiss.
  destruct (signature_cache db2 !! signature_hash_of signature) eqn:Hgone; [discriminate|].
  destruct (Z.ltb_spec (cached_at row) (clock db1 - ONE_HOUR)) as [Hstale|Hfresh].
  - cbn [cached_at row] in Hstale. unfold ONE_HOUR in Hstale. lia.
  - assert (Hkept : signature_cache (cleanup_signature_cache db1).2
                      !! signature_hash_of signature = Some row)
      by (apply cleanup_lookup; split; [exact Hrow1 | exact Hfresh]).
    rewrite (evolves_cache_kept _ _ _ _ Hev2 Hkept) in Hgone. discriminate.
Qed.

End CleanupFacts.

Section CleanupExamples.
Import Postgres Registry Schema.
Local Open Scope Z_scope.

Lemma replay_refused_after_cleanup_witness :
  valid (@verifyAgentSignature toy_crypto _ _ 1704070900000 "did:web:example.com"
           sample_signature sample_message "1704067200000"
           (cleanup_signature_cache
              (set_clock
                 (@verifyAgentSignature toy_crypto _ _ 1704067200000 "did:web:example.com"
                    sample_signature sample_message "1704067200000" (sample_db 100) []).1.2
                 1704070900000)).2
           []).1.1 = false.
Proof.
  apply (@replay_refused_after_cleanup toy_crypto 1704067200000 "did:web:example.com"
           sample_signature sample_message "1704067200000" (sample_db 100) []
           ltac:(vm_compute; reflexivity) ltac:(vm_compute; discriminate)
           (set_clock
              (@verifyAgentSignature toy_crypto _ _ 1704067200000 "did:web:example.com"
                 sample_signature sample_message "1704067200000" (sample_db 100) []).1.2
              1704070900000)).
  - apply evolves_clock, evolves_refl.
  - apply evolves_refl.
  - vm_compute. discriminate.
Defined.

End CleanupExamples.

(** ** Credits and status: reads, failures and what stays true
       (packages/registry/src/credits.ts, verify.ts, agents.ts) *)

Section RegistryBooks.
Import Postgres Registry RegistryAdmin Schema.
Context `{Crypto}.
Local Open Scope Z_scope.

Ltac run_credit :=
  unfold recordCreditEvent, mbind, async_bind, await, command, resolve;
  cbn [rpc_record_credit_event_atomic postgres_client p_did p_type p_amount p_reason
       p_pr_url].

Ltac run_read :=
  unfold getCredits, checkAgentStatus, getAgent, select_agent_columns;
  cbn [select_agent postgres_client].

(** *** The outcomes of a credit event *)

(** A credit event is refused as a whole or applied as a whole. *)
Lemma recordCreditEvent_outcome (did : string) (event : CreditEvent) (db : Db)
    (log : list Call) :
  (exists m, (recordCreditEvent did event db log).1 = (Throw m, db))
  \/ (exists row stored,
        agents db !! did = Some row
        /\ in_integer (amount event) = true
        /\ in_integer (Postgres.credits row + amount event) = true
        /\ nullable_varchar_500 (or_null (prUrl event)) = Return stored).
Proof.
  run_credit.
  destruct (in_integer (amount event)) eqn:Ha; cbn [negb]; [|left; eexists; reflexivity].
  unfold record_credit_event_atomic, integer_add.
  destruct (agents db !! did) as [row|]; [|left; eexists; reflexivity].
  destruct (in_integer (Postgres.credits row + amount event)) eqn:Hsum;
    [|left; eexists; reflexivity].
  cbn [bind]. destruct (nullable_varchar_500 _) as [stored|] eqn:Hurl;
    [|left; eexists; reflexivity].
  right. exists row, stored. auto.
Qed.

(** X20. [recordCreditEvent] is all or nothing.  When it throws, the
    database is what it was: no balance has moved and no ledger row was
    written.  When it returns an entry, the ledger has grown by exactly
    the one row that the entry shows, with the raw amount of the event,
    and nothing else has changed but the balance of the one agent: the
    other agents, the status of every agent and the replay cache are as
    before. *)
Theorem recordCreditEvent_all_or_nothing (did : string) (event : CreditEvent) (db : Db)
    (log : list Call) :
  let outcome := recordCreditEvent did event db log in
  let db' := outcome.1.2 in
  (forall m, outcome.1.1 = Throw m -> db' = db)
  /\ (forall entry,
        outcome.1.1 = Return entry ->
        exists row,
          ledger db' = ledger db ++ [row]
          /\ entry = rowToLedgerEntry row
          /\ Postgres.amount row = amount event
          /\ (forall other, other <> did -> agents db' !! other = agents db !! other)
          /\ (Postgres.status <$> agents db' !! did) = (Postgres.status <$> agents db !! did)
          /\ signature_cache db' = signature_cache db
          /\ clock db' = clock db).
Proof.
  intros outcome db'.
  destruct (recordCreditEvent_outcome did event db log)
    as [[m Hthrow] | (row & stored & Hrow & Ha & Hsum & Hurl)].
  - fold outcome in Hthrow. unfold db'.
    destruct outcome as [[result state] log']. cbn [fst snd] in *.
    injection Hthrow as -> ->. split; [reflexivity | discriminate].
  - unfold db', outcome.
    rewrite (recordCreditEvent_applied did event db log row stored Hrow Ha Hsum Hurl).
    cbn [fst snd]. split; [discriminate|].
    intros entry [= <-]. eexists. split; [reflexivity|]. split; [reflexivity|].
    split; [reflexivity|].
    split; [intros other Hne; cbn; now rewrite lookup_insert_ne by congruence|].
    split; [cbn; now rewrite lookup_insert_eq, Hrow|].
    split; reflexivity.
Qed.

(** X21. What [recordCreditEvent] returns is what the registry answers
    afterwards: [getCredits] gives the [balanceAfter] of the entry,
    [checkAgentStatus] the same balance besides the status that the agent
    had, [getAgent] the agent with that balance; and the balance is not
    negative. *)
Theorem credits_read_back (did : string) (event : CreditEvent) (db : Db)
    (log : list Call) (entry : CreditLedgerEntry) :
  (recordCreditEvent did event db log).1.1 = Return entry ->
  let db' := (recordCreditEvent did event db log).1.2 in
  getCredits did db' = Return (balanceAfter entry)
  /\ (exists row,
        agents db !! did = Some row
        /\ checkAgentStatus did db'
           = Return (Some (Postgres.status row, balanceAfter entry)))
  /\ (exists agent,
        getAgent did db' = Return (Some agent)
        /\ credits agent = balanceAfter entry)
  /\ 0 <= balanceAfter entry.
Proof.
  destruct (recordCreditEvent_outcome did event db log)
    as [[m Hthrow] | (row & stored & Hrow & Ha & Hsum & Hurl)].
  - intros Hentry. rewrite (surjective_pairing (recordCreditEvent did event db log).1) in Hthrow.
    injection Hthrow as Hthrow _. congruence.
  - rewrite (recordCreditEvent_applied did event db log row stored Hrow Ha Hsum Hurl).
    cbn [fst snd]. intros [= <-]. cbn zeta. run_read. cbn [agents].
    rewrite lookup_insert_eq. cbn.
    split; [reflexivity|]. split; [exists row; split; [exact Hrow | reflexivity]|].
    split; [eexists; split; reflexivity|].
    lia.
Qed.

(** *** An identity that the registry does not have *)


(** *** Suspension and revocation *)

Lemma recordCreditEvent_agent_kept (did' : string) (event : CreditEvent) (db : Db)
    (log : list Call) (did : string) (row : agents_row) :
  agents db !! did = Some row ->
  exists row',
    agents (recordCreditEvent did' event db log).1.2 !! did = Some row'
    /\ Postgres.status row' = Postgres.status row
    /\ id row' = id row.
Proof.
  intros Hrow.
  destruct (recordCreditEvent_outcome did' event db log)
    as [[m Hthrow] | (row0 & stored & Hrow0 & Ha & Hsum & Hurl)].
  - rewrite (surjective_pairing (recordCreditEvent did' event db log).1) in Hthrow.
    injection Hthrow as _ ->. exists row. auto.
  - rewrite (recordCreditEvent_applied did' event db log row0 stored Hrow0 Ha Hsum Hurl).
    cbn [fst snd agents]. rewrite lookup_insert. case_decide as Hdid.
    + subst did'. rewrite Hrow0 in Hrow. injection Hrow as ->.
      eexists. split; [reflexivity|]. split; reflexivity.
    + exists row. auto.
Qed.

Lemma verifyAgentSignature_agents (now : Z) (did signature message timestamp : string)
    (db : Db) (log : list Call) :
  agents (verifyAgentSignature now did signature message timestamp db log).1.2 = agents db
  /\ ledger (verifyAgentSignature now did signature message timestamp db log).1.2
     = ledger db.
Proof.
  destruct (verifyAgentSignature_database now did signature message timestamp db log)
    as [[_ ->] | (_ & _ & t & _ & ->)]; split; reflexivity.
Qed.

Lemma evolves_agent_kept (db db' : Db) (did : string) (row : agents_row) :
  evolves db db' ->
  agents db !! did = Some row ->
  exists row', agents db' !! did = Some row' /\ Postgres.status row' = Postgres.status row.
Proof.
  intros Hev Hrow.
  induction Hev as [| db0 db1 now did' signature message timestamp log _ IH
                    | db0 db1 did' event log _ IH
                    | db0 db1 now _ IH].
  - exists row. auto.
  - destruct (IH Hrow) as (row' & Hrow' & Hstatus).
    exists row'. split; [|exact Hstatus].
    now rewrite (proj1 (verifyAgentSignature_agents _ _ _ _ _ _ _)).
  - destruct (IH Hrow) as (row' & Hrow' & Hstatus).
    destruct (recordCreditEvent_agent_kept did' event db1 log did row' Hrow')
      as (row'' & Hrow'' & Hstatus' & _).
    exists row''. split; [exact Hrow'' | congruence].
  - exact (IH Hrow).
Qed.

(** X23. Once [suspendAgent] or [revokeAgent] has returned, the agent is
    not verified any more.  The call writes the status (and, for a
    revocation, the time) and the reason, and leaves the balance, the key
    and every other agent alone; from then on, through any further
    verifications, credit events and passing of time,
    [verifyAgentSignature] answers "Agent is suspended" (or "Agent is
    revoked") for every signature presented for that DID, valid or not. *)
Theorem status_change_refuses (did reason : string) (db : Db) (row : agents_row) :
  agents db !! did = Some row ->
  (forall outcome db',
      (outcome, db') = suspendAgent did reason db
      \/ (exists now, (outcome, db') = revokeAgent now did reason db) ->
      exists agent,
        outcome = Return agent
        /\ Registry.status agent <> active
        /\ credits agent = Postgres.credits row
        /\ publicKey agent = public_key row
        /\ revocationReason agent = Some reason
        /\ (forall other, other <> did -> agents db' !! other = agents db !! other)
        /\ ledger db' = ledger db
        /\ forall db'',
             evolves db' db'' ->
             forall now signature message timestamp log,
               let answer :=
                 (verifyAgentSignature now did signature message timestamp db'' log).1.1 in
               valid answer = false
               /\ error answer
                  = Some ("Agent is " +:+ status_text (Registry.status agent))).
Proof.
  intros Hrow outcome db' Hcall.
  assert (Hupdate : exists values,
             update_status values <> active
             /\ update_revocation_reason values = reason
             /\ outcome = Return (rowToAgent
                                    (to_AgentRow did (apply_update values row (clock db))))
             /\ db' = {| agents := <[did := apply_update values row (clock db)]> (agents db);
                         signature_cache := signature_cache db;
                         ledger := ledger db;
                         clock := clock db |}).
  { destruct Hcall as [Hcall | [now Hcall]].
    - exists {| update_status := suspended; update_revoked_at := None;
                update_revocation_reason := reason |}.
      unfold suspendAgent in Hcall. cbn [update_agent postgres_agents] in Hcall.
      rewrite Hrow in Hcall. injection Hcall as -> ->.
      split; [discriminate|]. split; [reflexivity|]. split; reflexivity.
    - exists {| update_status := revoked; update_revoked_at := Some now;
                update_revocation_reason := reason |}.
      unfold revokeAgent in Hcall. cbn [update_agent postgres_agents] in Hcall.
      rewrite Hrow in Hcall. injection Hcall as -> ->.
      split; [discriminate|]. split; [reflexivity|]. split; reflexivity. }
  destruct Hupdate as (values & Hstatus & Hreason & -> & ->).
  eexists. split; [reflexivity|].
  split; [exact Hstatus|]. split; [reflexivity|]. split; [reflexivity|].
  split; [cbn; now rewrite Hreason|].
  split; [intros other Hne; cbn; now rewrite lookup_insert_ne by congruence|].
  split; [reflexivity|].
  intros db'' Hev now signature message timestamp log.
  destruct (evolves_agent_kept _ db'' did (apply_update values row (clock db)) Hev)
    as (row' & Hrow' & Hstatus').
  { cbn. apply lookup_insert_eq. }
  cbn [Postgres.status apply_update] in Hstatus'.
  rewrite (verifyAgentSignature_inactive now did signature message timestamp db'' log
             (to_AgentRow did row')).
  - cbn. split; [reflexivity|]. now rewrite Hstatus'.
  - cbn [select_agent postgres_client]. now rewrite Hrow'.
  - cbn. now rewrite Hstatus'.
Qed.

(** *** The ledger and the balances *)

Lemma last_entry_of_snoc (agent : string) (ledger : list credit_ledger)
    (entry : credit_ledger) :
  last_entry_of agent (ledger ++ [entry])
  = if String.eqb (Postgres.agent_id entry) agent then Some entry
    else last_entry_of agent ledger.
Proof.
  unfold last_entry_of. rewrite List.filter_app. cbn [List.filter].
  destruct (String.eqb _ _); [apply last_snoc | now rewrite app_nil_r].
Qed.

(** They only depend on the ledger and on the [id] and the balance of
    each agent. *)
Lemma books_in_order_same (db db' : Db) :
  ledger db' = ledger db ->
  (forall did,
      (fun row => (id row, Postgres.credits row)) <$> agents db' !! did
      = (fun row => (id row, Postgres.credits row)) <$> agents db !! did) ->
  books_in_order db -> books_in_order db'.
Proof.
  intros Hledger Hagents (Hids & Hcons & Hpos).
  assert (Hback : forall did row',
             agents db' !! did = Some row' ->
             exists row, agents db !! did = Some row
                         /\ id row = id row'
                         /\ Postgres.credits row = Postgres.credits row').
  { intros did row' Hrow'. specialize (Hagents did). rewrite Hrow' in Hagents.
    destruct (agents db !! did) as [row|]; [|discriminate].
    cbn in Hagents. injection Hagents as Hid Hcredits. exists row. auto. }
  split; [|split].
  - intros did1 did2 row1 row2 H1 H2 Hid.
    destruct (Hback _ _ H1) as (r1 & Hr1 & Hid1 & _).
    destruct (Hback _ _ H2) as (r2 & Hr2 & Hid2 & _).
    apply (Hids did1 did2 r1 r2 Hr1 Hr2). congruence.
  - intros did row' entry Hrow' Hentry.
    destruct (Hback _ _ Hrow') as (row & Hrow & Hid & Hcredits).
    rewrite Hledger, <- Hid in Hentry. rewrite <- Hcredits.
    apply (Hcons did row entry Hrow Hentry).
  - intros did row' Hrow'.
    destruct (Hback _ _ Hrow') as (row & Hrow & _ & Hcredits).
    rewrite <- Hcredits. apply (Hpos did row Hrow).
Qed.

Lemma recordCreditEvent_books (did : string) (event : CreditEvent) (db : Db)
    (log : list Call) :
  books_in_order db -> books_in_order (recordCreditEvent did event db log).1.2.
Proof.
  intros (Hids & Hcons & Hpos).
  destruct (recordCreditEvent_outcome did event db log)
    as [[m Hthrow] | (row & stored & Hrow & Ha & Hsum & Hurl)].
  - rewrite (surjective_pairing (recordCreditEvent did event db log).1) in Hthrow.
    injection Hthrow as _ ->. split; [|split]; assumption.
  - rewrite (recordCreditEvent_applied did event db log row stored Hrow Ha Hsum Hurl).
    cbn [fst snd].
    set (balance := Z.max 0 (Postgres.credits row + amount event)).
    split; [|split].
    + intros did1 did2 row1 row2. cbn [agents].
      rewrite !lookup_insert. case_decide as E1; case_decide as E2.
      * congruence.
      * intros [= <-] H2 Hid. cbn in Hid. rewrite <- E1.
        apply (Hids did did2 row row2 Hrow H2 Hid).
      * intros H1 [= <-] Hid. cbn in Hid. rewrite <- E2.
        apply (Hids did1 did row1 row H1 Hrow Hid).
      * apply Hids.
    + intros did1 row1 entry. cbn [agents ledger].
      rewrite last_entry_of_snoc. cbn [Postgres.agent_id].
      rewrite lookup_insert. case_decide as Hdid.
      * intros [= <-]. cbn [id set_credits]. rewrite String.eqb_refl.
        intros [= <-]. reflexivity.
      * intros Hrow1. destruct (String.eqb (id row) (id row1)) eqn:Hid.
        -- apply String.eqb_eq in Hid.
           exfalso. apply Hdid. apply (Hids did did1 row row1 Hrow Hrow1 Hid).
        -- apply (Hcons did1 row1 entry Hrow1).
    + intros did1 row1. cbn [agents]. rewrite lookup_insert. case_decide.
      * intros [= <-]. cbn. unfold balance. lia.
      * apply Hpos.
Qed.

Lemma update_books (did : string) (values : AgentUpdate) (db : Db) :
  books_in_order db -> books_in_order (update_agent did values db).2.
Proof.
  cbn [update_agent postgres_agents].
  destruct (agents db !! did) as [row|] eqn:Hrow; [|trivial].
  cbn [snd]. apply books_in_order_same; [reflexivity|].
  intros other. cbn [agents]. rewrite lookup_insert. case_decide; [|reflexivity].
  subst other. now rewrite Hrow.
Qed.

(** X24. The books stay in order.  If no two agents share an [id], the
    latest ledger row of every agent records the balance the agent has,
    and no balance is negative, then the same is true after any number
    of verifications, credit events, suspensions, revocations and
    cleanups of the cache, in any order, while time passes. *)
Theorem books_stay_in_order (db db' : Db) :
  operates db db' ->
  ids_distinct db -> ledger_consistent db -> balances_non_negative db ->
  ids_distinct db' /\ ledger_consistent db' /\ balances_non_negative db'.
Proof.
  intros Hops Hids Hcons Hpos.
  assert (Hbooks : books_in_order db) by (split; [|split]; assumption).
  clear Hids Hcons Hpos. change (books_in_order db').
  induction Hops as [| db0 db1 now did signature message timestamp log _ IH
                     | db0 db1 did event log _ IH
                     | db0 db1 did reason _ IH
                     | db0 db1 now did reason _ IH
                     | db0 db1 _ IH
                     | db0 db1 now _ IH];
    [exact Hbooks | specialize (IH Hbooks)..].
  - destruct (verifyAgentSignature_agents now did signature message timestamp db1 log)
      as [Hagents Hledger].
    apply (books_in_order_same db1); [exact Hledger | | exact IH].
    intros other. now rewrite Hagents.
  - apply recordCreditEvent_books, IH.
  - unfold suspendAgent.
    pose proof (update_books did {| update_status := suspended;
                                    update_revoked_at := None;
                                    update_revocation_reason := reason |} db1 IH) as Hup.
    destruct (update_agent _ _ db1) as [[data|err] state]; exact Hup.
  - unfold revokeAgent.
    pose proof (update_books did {| update_status := revoked;
                                    update_revoked_at := Some now;
                                    update_revocation_reason := reason |} db1 IH) as Hup.
    destruct (update_agent _ _ db1) as [[data|err] state]; exact Hup.
  - apply (books_in_order_same db1); [reflexivity | reflexivity | exact IH].
  - apply (books_in_order_same db1); [reflexivity | reflexivity | exact IH].
Qed.

End RegistryBooks.

Section RegistryBooksExamples.
Import Postgres Registry RegistryAdmin Schema.
Local Open Scope Z_scope.

Lemma cleanup_signature_cache_spec_witness :
  signature_cache (cleanup_signature_cache sample_verified_db).2
    !! @signature_hash_of toy_crypto sample_signature
  = Some {| agent_did := "did:web:example.com";
            timestamp := 1704067200000;
            cached_at := 1704067200000 |}.
Proof.
  apply (cleanup_signature_cache_spec sample_verified_db).
  split; [vm_compute; reflexivity | vm_compute; discriminate].
Defined.

Lemma recordCreditEvent_all_or_nothing_witness :
  (recordCreditEvent "did:web:example.com" (credit 2147483647) (sample_db 100) []).1.2
  = sample_db 100.
Proof.
  destruct (recordCreditEvent_all_or_nothing "did:web:example.com" (credit 2147483647)
              (sample_db 100) []) as [Hthrow _].
  eapply Hthrow. vm_compute. reflexivity.
Defined.

Lemma credits_read_back_witness :
  getCredits "did:web:example.com"
    (recordCreditEvent "did:web:example.com" (credit (-50)) (sample_db 10) []).1.2
  = Return 0.
Proof.
  edestruct (credits_read_back "did:web:example.com" (credit (-50)) (sample_db 10) [])
    as [Hcredits _]; [vm_compute; reflexivity|].
  exact Hcredits.
Defined.


Lemma status_change_refuses_witness :
  valid (@verifyAgentSignature toy_crypto _ _ 1704067200000 "did:web:example.com"
           sample_signature sample_message "1704067200000"
           (suspendAgent "did:web:example.com" "abuse" (sample_db 100)).2 []).1.1
  = false.
Proof.
  destruct (status_change_refuses (H := toy_crypto) "did:web:example.com" "abuse"
              (sample_db 100) (sample_agent active 100) ltac:(vm_compute; reflexivity)
              (suspendAgent "did:web:example.com" "abuse" (sample_db 100)).1
              (suspendAgent "did:web:example.com" "abuse" (sample_db 100)).2
              (or_introl (eq_sym (surjective_pairing _))))
    as (agent & _ & _ & _ & _ & _ & _ & _ & Hrefused).
  apply (Hrefused _ (evolves_refl _)).
Defined.

Lemma single_agent_books (credits : Z) :
  0 <= credits ->
  ids_distinct (single_agent_db credits)
  /\ ledger_consistent (single_agent_db credits)
  /\ balances_non_negative (single_agent_db credits).
Proof.
  intros Hpos. split; [|split].
  - intros did did' row row' Hrow Hrow' _. cbn in Hrow, Hrow'.
    apply lookup_singleton_Some in Hrow as [<- _].
    apply lookup_singleton_Some in Hrow' as [<- _]. reflexivity.
  - intros did row entry _ Hentry. discriminate Hentry.
  - intros did row Hrow. cbn in Hrow.
    apply lookup_singleton_Some in Hrow as [_ <-]. exact Hpos.
Qed.

Lemma books_stay_in_order_witness :
  ledger_consistent
    (recordCreditEvent "did:web:example.com" (credit (-50)) (single_agent_db 10) []).1.2.
Proof.
  destruct (single_agent_books 10 ltac:(lia)) as (Hids & Hcons & Hpos).
  apply (books_stay_in_order (H := toy_crypto) (single_agent_db 10) _
           (operates_credit _ _ _ _ _ (operates_refl _)) Hids Hcons Hpos).
Defined.

End RegistryBooksExamples.

(** ** From a signed request to the registry's answer
       (request.ts, verify.ts of the registry) *)

Section StoredKeys.
Import Postgres Registry.
Local Open Scope Z_scope.

(** *** The key column: hexadecimal text *)

Lemma hex_byte (b : byte) :
  let n := Byte.to_N b in
  is_line_terminator (hex_digit (n / 16)) = false
  /\ is_line_terminator (hex_digit (n mod 16)) = false
  /\ JsNumber.parseInt (String (hex_digit (n / 16)) (String (hex_digit (n mod 16)) "")) 16
     = Some (Z.of_N n).
Proof. destruct b; vm_compute; repeat split; reflexivity. Qed.

Lemma hex_round_trip (bytes : list byte) : hex_to_bytes (hex_pairs (bytesToHex bytes)) = bytes.
Proof.
  induction bytes as [|b bytes IH]; [reflexivity|].
  destruct (hex_byte b) as (Hhi & Hlo & Hparse).
  cbn [bytesToHex hex_pairs]. rewrite Hhi, Hlo.
  unfold hex_to_bytes in *. cbn [map]. rewrite Hparse, IH. f_equal.
  rewrite Z.mod_small by (pose proof (to_N_lt_256 b); lia).
  rewrite N2Z.id. apply byte_of_to_N.
Qed.

Lemma hex_pairs_length (s : string) :
  (one_line s = true -> length (hex_pairs s) = Nat.div2 (S (String.length s)))
  /\ (forall c, one_line (String c s) = true ->
        length (hex_pairs (String c s)) = Nat.div2 (S (S (String.length s)))).
Proof.
  unfold one_line. induction s as [|a s [IH1 IH2]].
  - split; [reflexivity|]. intros c Hc. simpl in *.
    destruct (is_line_terminator c); [discriminate | reflexivity].
  - split; [exact (IH2 a)|].
    intros c Hc. cbn [DidUtils.all_chars] in Hc.
    apply andb_true_iff in Hc as [Hc Hrest].
    pose proof Hrest as Hrest'. cbn [DidUtils.all_chars] in Hrest'.
    apply andb_true_iff in Hrest' as [Ha Hs].
    apply negb_true_iff in Hc, Ha.
    cbn [hex_pairs]. rewrite Hc, Ha. cbn [length String.length Nat.div2].
    now rewrite (IH1 Hs).
Qed.

Lemma sextets_count (data : list byte) :
  length (sextets data) = ((4 * length data + 2) / 3)%nat.
Proof.
  induction data as [|a|a b|a b c rest IH] using list_ind3; try reflexivity.
  cbn [sextets length]. rewrite IH.
  replace (4 * S (S (S (length rest))) + 2)%nat
    with ((4 * length rest + 2) + 4 * 3)%nat by lia.
  rewrite Nat.div_add by lia. lia.
Qed.

Lemma url_char_one_line (v : N) : (v < 64)%N -> is_line_terminator (url_char v) = false.
Proof.
  revert v. apply below_64. intros n Hn.
  do 64 (destruct n as [|n]; [reflexivity|]). lia.
Qed.

Lemma base64urlEncode_one_line (data : list byte) :
  one_line (Keys.base64urlEncode data) = true.
Proof.
  rewrite base64urlEncode_sextets. pose proof (sextets_lt data) as Hall.
  unfold one_line. induction Hall as [|v vs Hv _ IH]; [reflexivity|].
  cbn [map string_of_chars DidUtils.all_chars].
  now rewrite (url_char_one_line v Hv), IH.
Qed.

(** X25. The registry reads the key column as hexadecimal text, two
    digits a byte.  A key written there by [bytesToHex] is read back as
    it was, whatever its length.  A 32-byte key written in the exported,
    url-safe base64 form of the crypto package (43 characters) is read
    as 22 bytes, which are not the key. *)
Theorem stored_key_formats (key : list byte) :
  hex_to_bytes (hex_pairs (bytesToHex key)) = key
  /\ (length key = 32%nat ->
      length (hex_to_bytes (hex_pairs (Keys.base64urlEncode key))) = 22%nat
      /\ hex_to_bytes (hex_pairs (Keys.base64urlEncode key)) <> key).
Proof.
  split; [apply hex_round_trip|].
  intros Hlen.
  assert (Hcount : length (hex_to_bytes (hex_pairs (Keys.base64urlEncode key))) = 22%nat).
  { unfold hex_to_bytes. rewrite length_map.
    rewrite (proj1 (hex_pairs_length _) (base64urlEncode_one_line key)).
    rewrite base64urlEncode_sextets, string_of_chars_length, length_map.
    rewrite sextets_count, Hlen. reflexivity. }
  split; [exact Hcount|].
  intros Heq. rewrite Heq, Hlen in Hcount. discriminate.
Qed.

Lemma stored_key_formats_witness :
  length (hex_to_bytes (hex_pairs (Keys.base64urlEncode sample_key))) = 22%nat.
Proof.
  apply (stored_key_formats sample_key). reflexivity.
Defined.

End StoredKeys.

Section SignedForRegistry.
Import Postgres Registry.
Context `{Crypto}.
Local Open Scope Z_scope.

Lemma is_digit_digit_char (d : N) : (d < 10)%N -> is_digit (JsNumber.digit_char d) = true.
Proof.
  revert d. apply below_10. intros n Hn.
  do 10 (destruct n as [|n]; [reflexivity|]). lia.
Qed.

Lemma startsWith_numeral (p : ascii) (d : N) (ds : list N) :
  (d < 10)%N -> Forall (fun d => (d < 10)%N) ds ->
  is_digit p = false ->
  startsWith (String "0" (String p ""))
    (String (JsNumber.digit_char d) (string_of_chars (map JsNumber.digit_char ds))) = false.
Proof.
  intros Hd Hds Hp. cbn [startsWith].
  destruct (Ascii.eqb "0" (JsNumber.digit_char d)); [|reflexivity].
  destruct ds as [|d' ds]; [reflexivity|].
  cbn [map string_of_chars].
  destruct (Ascii.eqb p (JsNumber.digit_char d')) eqn:E; [|reflexivity].
  apply Ascii.eqb_eq in E. subst p.
  inversion Hds as [|? ? Hd' _]; subst.
  rewrite (is_digit_digit_char d' Hd') in Hp. discriminate.
Qed.

(** Without a radix, too, [parseInt] reads back what [toString] wrote:
    a decimal numeral does not start with "0x". *)
Lemma parseInt_toString_no_radix (n : Z) : JsNumber.parseInt (JsNumber.toString n) 0 = Some n.
Proof.
  rewrite <- (parseInt_toString n).
  unfold JsNumber.toString.
  destruct (n <? 0).
  - destruct (N_to_string_shape (Z.to_N (- n))) as (d & ds & Hd & Hds & -> & _).
    unfold JsNumber.parseInt.
    change (JsNumber.trim_start ("-" +:+ String (JsNumber.digit_char d)
                                   (string_of_chars (map JsNumber.digit_char ds))))
      with (String "-" (String (JsNumber.digit_char d)
                          (string_of_chars (map JsNumber.digit_char ds)))).
    cbn [JsNumber.strip_sign].
    change (negb (0 =? 0)%N && _) with false.
    change (negb (10 =? 0)%N && ((10 <? 2)%N || (36 <? 10)%N)) with false.
    cbv iota.
    change ((0 =? 0)%N || (0 =? 16)%N) with true.
    change ((10 =? 0)%N || (10 =? 16)%N) with false.
    change (if (0 =? 0)%N then 10%N else 0%N) with 10%N.
    change (if (10 =? 0)%N then 10%N else 10%N) with 10%N.
    cbn [andb].
    rewrite !startsWith_numeral by (assumption || reflexivity).
    reflexivity.
  - destruct (N_to_string_shape (Z.to_N n)) as (d & ds & Hd & Hds & -> & _).
    unfold JsNumber.parseInt.
    cbn [JsNumber.trim_start]. rewrite (is_white_space_digit_char d Hd).
    rewrite (strip_sign_digit_char d _ Hd).
    change (negb (0 =? 0)%N && _) with false.
    change (negb (10 =? 0)%N && ((10 <? 2)%N || (36 <? 10)%N)) with false.
    cbv iota.
    change ((0 =? 0)%N || (0 =? 16)%N) with true.
    change ((10 =? 0)%N || (10 =? 16)%N) with false.
    change (if (0 =? 0)%N then 10%N else 0%N) with 10%N.
    change (if (10 =? 0)%N then 10%N else 10%N) with 10%N.
    cbn [andb].
    rewrite !startsWith_numeral by (assumption || reflexivity).
    reflexivity.
Qed.

(** X26. The registry accepts what an agent signs.  Let the agent be
    active, with its public key in the key column in hexadecimal, and
    let it sign a message with [signRequest] as a POST to "/" at time
    [signedAt] (within the range of JavaScript dates).  Presented within
    five minutes of [signedAt], and not seen before, the signature and
    the timestamp of the signed headers are reported valid by
    [verifyAgentSignature]; the answer carries the agent, the four
    requests are made in order, and the signature is in the replay cache
    afterwards. *)
Theorem registry_accepts_signed_request (sk pk : list byte) (did message : string)
    (signedAt now : Z) (signed : Request.SignedHeaders) (db : Db) (row : agents_row)
    (log : list Call) :
  key_pair_ok sk pk -> pk <> [] ->
  agents db !! did = Some row ->
  Postgres.status row = active ->
  public_key row = bytesToHex pk ->
  Request.signRequest signedAt (registry_post message)
    {| Request.privateKey := sk; Request.did := did |} = Return signed ->
  signature_cache db !! signature_hash_of (Request.X_Agent_Signature signed) = None ->
  Z.abs (now - signedAt) <= 300000 ->
  Z.abs signedAt <= 8640000000000000 ->
  let signature := Request.X_Agent_Signature signed in
  let timestamp := Request.X_Agent_Timestamp signed in
  let cached := {| signature_hash := signature_hash_of signature;
                   insert_agent_did := did;
                   insert_timestamp := signedAt |} in
  verifyAgentSignature now did signature message timestamp db log
  = ({| valid := true; agent := Some (rowToAgent (to_AgentRow did row)); error := None |},
     cache_signature cached db,
     (((log ++ [SelectAgent did])
         ++ [SelectCachedSignature (signature_hash_of signature)])
        ++ [CallVerifyRequest
              [("x-agent-signature", signature); ("x-agent-timestamp", timestamp)]
              pk message])
       ++ [InsertCachedSignature cached]).
Proof.
  intros Hkey Hpk Hrow Hactive Hhex Hsign Hfresh Hin Hdate signature timestamp cached.
  subst signature timestamp cached.
  assert (Htimestamp : Request.X_Agent_Timestamp signed = JsNumber.toString signedAt).
  { unfold Request.signRequest in Hsign.
    destruct (signMessage _ _); [|discriminate].
    cbn [bind] in Hsign. injection Hsign as <-. reflexivity. }
  set (headers := [("x-agent-signature", Request.X_Agent_Signature signed);
                   ("x-agent-timestamp", Request.X_Agent_Timestamp signed)]).
  assert (Hverified : Request.verifyRequest now headers pk (Some message)
                        Request.DEFAULT_TOLERANCE_MS = verified).
  { apply (verify_signed sk pk (registry_post message) did signedAt signed headers now
             Request.DEFAULT_TOLERANCE_MS Hkey Hsign).
    - split; [reflexivity|]. split; [reflexivity|]. split; reflexivity.
    - exact Hin. }
  unfold signature_hash_of in *.
  unfold verifyAgentSignature, mbind, async_bind, await, query, command, resolve.
  cbn [select_agent select_cached_signature insert_cached_signature postgres_client].
  rewrite Hrow. cbn [Registry.status rowToAgent to_AgentRow row_status row_public_key
                     publicKey].
  rewrite Hactive. cbn [is_active negb]. rewrite Hfresh.
  rewrite Hhex.
  pose proof (hex_round_trip pk) as Hround.
  destruct (hex_pairs (bytesToHex pk)) as [|pair pairs] eqn:Hpairs;
    [symmetry in Hround; contradiction|].
  cbv beta. rewrite Hround. fold headers. rewrite Hverified.
  cbn [Request.valid verified negb].
  assert (Hiso : toISOString (JsNumber.parseInt (Request.X_Agent_Timestamp signed) 0)
                 = Return signedAt).
  { rewrite Htimestamp, parseInt_toString_no_radix. unfold toISOString.
    replace (Z.abs signedAt <=? 8640000000000000) with true
      by (symmetry; apply Z.leb_le; exact Hdate).
    reflexivity. }
  rewrite Hiso. cbn [signature_hash]. rewrite Hfresh. reflexivity.
Qed.

End SignedForRegistry.

Section SignedForRegistryExamples.
Import Postgres Registry.
Local Open Scope Z_scope.

Lemma registry_accepts_signed_request_witness :
  valid (@verifyAgentSignature toy_crypto _ _ 1704067260000 "did:web:example.com"
           (Request.X_Agent_Signature sample_signed) sample_message
           (Request.X_Agent_Timestamp sample_signed) (sample_db 100) []).1.1 = true.
Proof.
  rewrite (@registry_accepts_signed_request toy_crypto sample_key sample_key
             "did:web:example.com" sample_message 1704067200000 1704067260000
             sample_signed (sample_db 100) (sample_agent active 100) []).
  - reflexivity.
  - apply toy_key_pair_ok.
  - discriminate.
  - vm_compute. reflexivity.
  - reflexivity.
  - vm_compute. reflexivity.
  - vm_compute. reflexivity.
  - vm_compute. reflexivity.
  - vm_compute. discriminate.
  - vm_compute. discriminate.
Defined.

End SignedForRegistryExamples.

(** ** Replays (verify.ts over the [signature_cache] table and its
       cleanup) *)

Section ReplayRefused.
Import Postgres Registry RegistryAdmin Schema.
Context `{Crypto}.
Local Open Scope Z_scope.








End ReplayRefused.

Section ReplayRuns.
Import Postgres Registry Schema.
Local Open Scope Z_scope.



End ReplayRuns.
